(** * ModelAI coordination core: a shallow embedding and its properties

    The development follows the source modules that make up the
    coordination core:

    - [src/agents/base_agent.py]   : [Module Agent]
    - [src/config/settings.py]     : [Module Settings]
    - [src/api/claude_client.py]   : [Module RateLimiter], [Module RequestQueue],
                                     [Module ClaudeClient]
    - [src/api/multi_ai_client.py] : [Module AI], [Module OpenAIClient],
                                     [Module MultiAIClient]

    [Module Py] holds the few pieces of Python the embedding needs
    (exceptions, [try]/[except]/[finally]), [Module Backoff] the vocabulary
    for the traces of retrying calls.  Part I holds the embedding, Part II
    the properties.

    Conventions of the embedding.  Python [int] is [Z] (or [nat] for loop
    counters and lengths), Python [float] is an exact rational [Q]; a
    coroutine is cut at its suspension points ([await] of something that
    really suspends) into atomic segments, each a function on the object's
    state; [asyncio.create_task] is a counter of coroutines handed to the
    event loop; [asyncio.Lock] is a flag and [asyncio.Semaphore] a counter,
    a coroutine that has to wait for either being a step that is not
    enabled.  Exceptions are values of type [exn], which stands for the
    instances of Python's [Exception] class (what [except Exception]
    catches). *)

From Stdlib Require Import List String ZArith QArith Bool Arith Lia Lqa.
Import ListNotations.

(* Numbers without a scope mark are [nat]; [Z] and [Q] are marked. *)
Close Scope Q_scope.
Open Scope string_scope.
Open Scope list_scope.
Open Scope nat_scope.

(* ================================================================== *)
(** * Part I.  The embedding                                           *)
(* ================================================================== *)

(** ** Python-level plumbing: exceptions and stateful computations *)

Module Py.

(** An exception object: its class name and its [str(e)]. *)
Inductive exn : Type := Exn (cls : string) (msg : string).

Definition str (e : exn) : string :=
  match e with Exn _ msg => msg end.

(** How a block of statements completes. *)
Inductive completion (A : Type) : Type :=
| Normal (a : A)
| Throw (e : exn).

Arguments Normal {A} a.
Arguments Throw {A} e.

(** A method body over an object of type [S]: mutations made before an
    exception is raised stay in place, as in Python. *)
Definition M (S A : Type) : Type := S -> completion A * S.

Definition ret {S A} (a : A) : M S A := fun s => (Normal a, s).

Definition raise {S A} (e : exn) : M S A := fun s => (Throw e, s).

Definition bind {S A B} (m : M S A) (k : A -> M S B) : M S B :=
  fun s =>
    match m s with
    | (Normal a, s') => k a s'
    | (Throw e, s') => (Throw e, s')
    end.

Definition get {S} : M S S := fun s => (Normal s, s).

Definition modify {S} (f : S -> S) : M S unit := fun s => (Normal tt, f s).

(** [try: body  except Exception as e: handler e] *)
Definition try_except {S A} (body : M S A) (handler : exn -> M S A) : M S A :=
  fun s =>
    match body s with
    | (Normal a, s') => (Normal a, s')
    | (Throw e, s') => handler e s'
    end.

(** [try: body  finally: fin] : [fin] runs on every exit path; an exception
    raised by [fin] itself replaces the pending completion. *)
Definition try_finally {S A} (body : M S A) (fin : M S unit) : M S A :=
  fun s =>
    match body s with
    | (c, s') =>
        match fin s' with
        | (Normal _, s'') => (c, s'')
        | (Throw e, s'') => (Throw e, s'')
        end
    end.

(** The result of an [await] on a collaborator, handed in by the caller. *)
Definition await {S A} (outcome : completion A) : M S A := fun s => (outcome, s).

End Py.

Declare Scope py_scope.
Delimit Scope py_scope with py.
Notation "x <- m ;; k" := (Py.bind m (fun x => k))
  (at level 61, m at next level, right associativity) : py_scope.
Notation "m ;;; k" := (Py.bind m (fun _ => k))
  (at level 61, right associativity) : py_scope.

(* ------------------------------------------------------------------ *)
(** ** [src/agents/base_agent.py] *)

Module Agent.

Import Py.
Local Open Scope py_scope.

Inductive AgentStatus : Type := IDLE | WORKING | COMPLETED | ERROR | PAUSED.

Inductive TaskPriority : Type := LOW | MEDIUM | HIGH | CRITICAL.

Definition status_eqb (a b : AgentStatus) : bool :=
  match a, b with
  | IDLE, IDLE | WORKING, WORKING | COMPLETED, COMPLETED
  | ERROR, ERROR | PAUSED, PAUSED => true
  | _, _ => false
  end.

Definition priority_eqb (a b : TaskPriority) : bool :=
  match a, b with
  | LOW, LOW | MEDIUM, MEDIUM | HIGH, HIGH | CRITICAL, CRITICAL => true
  | _, _ => false
  end.

(** [AgentTask].  The opaque payload fields ([input_data], [metadata],
    [created_at], [estimated_duration]) are never read by the methods
    embedded here and are left out. *)
Record AgentTask : Type := mkTask {
  task_id : string;
  task_type : string;
  description : string;
  priority : TaskPriority;
  dependencies : list string
}.

(** [AgentResult], without [output_data], [metadata] and [created_at]. *)
Record AgentResult : Type := mkResult {
  r_task_id : string;
  r_agent_id : string;
  result_type : string;
  success : bool;
  error_message : option string;
  processing_time : option Q;
  quality_score : option Q
}.

(** The agent object.  The last two fields are the event loop's view of
    this agent: [scheduled] counts the [_process_next_task()] coroutines
    handed to [asyncio.create_task] that have not started yet, [in_flight]
    holds the local variable [task] of every [_process_next_task] coroutine
    suspended at [await self._process_task(task)]. *)
Record BaseAgent : Type := mkAgent {
  agent_id : string;
  status : AgentStatus;
  current_task : option AgentTask;
  task_queue : list AgentTask;
  results_history : list AgentResult;
  total_tasks_completed : Z;
  total_processing_time : Q;
  success_rate : Q;
  average_quality_score : Q;
  scheduled : nat;
  in_flight : list AgentTask
}.

(** [BaseAgent.__init__] *)
Definition init (id : string) : BaseAgent :=
  {| agent_id := id;
     status := IDLE;
     current_task := None;
     task_queue := [];
     results_history := [];
     total_tasks_completed := 0%Z;
     total_processing_time := 0%Q;
     success_rate := 1%Q;
     average_quality_score := 0%Q;
     scheduled := 0;
     in_flight := [] |}.

Definition set_status (v : AgentStatus) (a : BaseAgent) : BaseAgent :=
  mkAgent (agent_id a) v (current_task a) (task_queue a) (results_history a)
    (total_tasks_completed a) (total_processing_time a) (success_rate a)
    (average_quality_score a) (scheduled a) (in_flight a).

Definition set_current_task (v : option AgentTask) (a : BaseAgent) : BaseAgent :=
  mkAgent (agent_id a) (status a) v (task_queue a) (results_history a)
    (total_tasks_completed a) (total_processing_time a) (success_rate a)
    (average_quality_score a) (scheduled a) (in_flight a).

Definition set_task_queue (v : list AgentTask) (a : BaseAgent) : BaseAgent :=
  mkAgent (agent_id a) (status a) (current_task a) v (results_history a)
    (total_tasks_completed a) (total_processing_time a) (success_rate a)
    (average_quality_score a) (scheduled a) (in_flight a).

Definition set_results_history (v : list AgentResult) (a : BaseAgent) : BaseAgent :=
  mkAgent (agent_id a) (status a) (current_task a) (task_queue a) v
    (total_tasks_completed a) (total_processing_time a) (success_rate a)
    (average_quality_score a) (scheduled a) (in_flight a).

Definition set_total_tasks_completed (v : Z) (a : BaseAgent) : BaseAgent :=
  mkAgent (agent_id a) (status a) (current_task a) (task_queue a)
    (results_history a) v (total_processing_time a) (success_rate a)
    (average_quality_score a) (scheduled a) (in_flight a).

Definition set_total_processing_time (v : Q) (a : BaseAgent) : BaseAgent :=
  mkAgent (agent_id a) (status a) (current_task a) (task_queue a)
    (results_history a) (total_tasks_completed a) v (success_rate a)
    (average_quality_score a) (scheduled a) (in_flight a).

Definition set_success_rate (v : Q) (a : BaseAgent) : BaseAgent :=
  mkAgent (agent_id a) (status a) (current_task a) (task_queue a)
    (results_history a) (total_tasks_completed a) (total_processing_time a) v
    (average_quality_score a) (scheduled a) (in_flight a).

Definition set_average_quality_score (v : Q) (a : BaseAgent) : BaseAgent :=
  mkAgent (agent_id a) (status a) (current_task a) (task_queue a)
    (results_history a) (total_tasks_completed a) (total_processing_time a)
    (success_rate a) v (scheduled a) (in_flight a).

Definition set_scheduled (v : nat) (a : BaseAgent) : BaseAgent :=
  mkAgent (agent_id a) (status a) (current_task a) (task_queue a)
    (results_history a) (total_tasks_completed a) (total_processing_time a)
    (success_rate a) (average_quality_score a) v (in_flight a).

Definition set_in_flight (v : list AgentTask) (a : BaseAgent) : BaseAgent :=
  mkAgent (agent_id a) (status a) (current_task a) (task_queue a)
    (results_history a) (total_tasks_completed a) (total_processing_time a)
    (success_rate a) (average_quality_score a) (scheduled a) v.

(** [asyncio.create_task(self._process_next_task())] *)
Definition create_task_process_next : M BaseAgent unit :=
  modify (fun a => set_scheduled (S (scheduled a)) a).

(** *** [_insert_task_by_priority] *)

(** The dictionary [priority_order] of the method. *)
Definition priority_order (p : TaskPriority) : nat :=
  match p with
  | CRITICAL => 0
  | HIGH => 1
  | MEDIUM => 2
  | LOW => 3
  end.

(** [priority_order[task.priority]] *)
Definition rank (task : AgentTask) : nat := priority_order (priority task).

(** The [for i, queued_task in enumerate(self.task_queue)] loop with its
    [break]; [i] is the index of the head of [queue].  When the loop runs
    to the end the index reached is [len(self.task_queue)], the value
    [insert_index] was initialised with. *)
Fixpoint find_insert_index (task_priority : nat) (queue : list AgentTask)
  (i : nat) : nat :=
  match queue with
  | [] => i
  | queued_task :: rest =>
      if task_priority <? priority_order (priority queued_task)
      then i
      else find_insert_index task_priority rest (S i)
  end.

(** [list.insert(index, x)] for [0 <= index]: an index past the end
    appends. *)
Definition list_insert {A} (index : nat) (x : A) (l : list A) : list A :=
  firstn index l ++ x :: skipn index l.

Definition insert_by_priority (task : AgentTask) (queue : list AgentTask)
  : list AgentTask :=
  let task_priority := priority_order (priority task) in
  let insert_index := find_insert_index task_priority queue 0 in
  list_insert insert_index task queue.

Definition _insert_task_by_priority (task : AgentTask) : M BaseAgent unit :=
  modify (fun a => set_task_queue (insert_by_priority task (task_queue a)) a).

(** *** [_check_dependencies] *)

(** [{result.task_id for result in self.results_history if result.success}];
    the set is only tested for membership, so the list of its elements
    stands for it. *)
Definition completed_tasks (history : list AgentResult) : list string :=
  map r_task_id (filter success history).

Definition mem (x : string) (s : list string) : bool :=
  existsb (String.eqb x) s.

(** The [for dependency in task.dependencies] loop with its early
    [return False]. *)
Fixpoint dependencies_loop (deps : list string) (completed : list string)
  : bool :=
  match deps with
  | [] => true
  | dependency :: rest =>
      if negb (mem dependency completed) then false
      else dependencies_loop rest completed
  end.

Definition _check_dependencies (task : AgentTask) : M BaseAgent bool :=
  a <- get ;;
  match dependencies task with
  | [] => ret true
  | deps => ret (dependencies_loop deps (completed_tasks (results_history a)))
  end.

(** *** [add_task] *)

Definition is_none {A} (o : option A) : bool :=
  match o with None => true | Some _ => false end.

Definition add_task (task : AgentTask) : M BaseAgent bool :=
  try_except
    (ok <- _check_dependencies task ;;
     if negb ok then ret false
     else
       _insert_task_by_priority task ;;;
       a <- get ;;
       (if status_eqb (status a) IDLE && is_none (current_task a)
        then create_task_process_next
        else ret tt) ;;;
       ret true)
    (fun _ => ret false).

(** *** [_update_statistics] *)

Definition Qsum (l : list Q) : Q := fold_right Qplus 0%Q l.

Definition Qlen {A} (l : list A) : Q := inject_Z (Z.of_nat (List.length l)).

(** [[r.quality_score for r in history if r.quality_score is not None]] *)
Fixpoint quality_scores (history : list AgentResult) : list Q :=
  match history with
  | [] => []
  | r :: rest =>
      match quality_score r with
      | Some q => q :: quality_scores rest
      | None => quality_scores rest
      end
  end.

(** [sum(1 for r in history if r.success)] *)
Definition successful_tasks (history : list AgentResult) : nat :=
  List.length (filter success history).

(** Truthiness of an [Optional[float]]. *)
Definition truthy (o : option Q) : bool :=
  match o with
  | None => false
  | Some q => negb (Qeq_bool q 0)
  end.

(** The body of [_update_statistics], as a function on the object. *)
Definition update_statistics (result : AgentResult) (a : BaseAgent) : BaseAgent :=
  let a := set_total_tasks_completed (total_tasks_completed a + 1)%Z a in
  let a :=
    if truthy (processing_time result)
    then match processing_time result with
         | Some pt => set_total_processing_time (total_processing_time a + pt)%Q a
         | None => a
         end
    else a in
  let a :=
    set_success_rate
      (inject_Z (Z.of_nat (successful_tasks (results_history a)))
       / Qlen (results_history a))%Q a in
  match quality_scores (results_history a) with
  | [] => a
  | qs => set_average_quality_score (Qsum qs / Qlen qs)%Q a
  end.

Definition _update_statistics (result : AgentResult) : M BaseAgent unit :=
  modify (update_statistics result).

(** *** [_process_next_task] *)

(** First atomic segment: from the entry of the coroutine to its
    suspension at [await self._process_task(task)].  [None] is the early
    [return]; [Some task] is the task the coroutine is now processing. *)
Definition _process_next_task_begin : M BaseAgent (option AgentTask) :=
  a <- get ;;
  match task_queue a with
  | [] => ret None
  | task :: rest =>
      if negb (status_eqb (status a) IDLE) then ret None
      else
        modify (fun a => set_task_queue rest a) ;;;          (* pop(0) *)
        modify (set_current_task (Some task)) ;;;
        modify (set_status WORKING) ;;;
        ret (Some task)
  end.

Definition with_timing (pt : Q) (id : string) (r : AgentResult) : AgentResult :=
  mkResult (r_task_id r) id (result_type r) (success r) (error_message r)
    (Some pt) (quality_score r).

Definition error_result (task : AgentTask) (id : string) (e : exn) : AgentResult :=
  {| r_task_id := task_id task;
     r_agent_id := id;
     result_type := "error";
     success := false;
     error_message := Some (str e);
     processing_time := None;
     quality_score := None |}.

Definition append_result (r : AgentResult) : M BaseAgent unit :=
  modify (fun a => set_results_history (results_history a ++ [r]) a).

(** Second atomic segment: the coroutine resumes with the outcome of
    [_process_task] and runs the rest of its [try]/[except]/[finally].
    [elapsed] is the difference of the two readings of the loop clock. *)
Definition _process_next_task_resume (task : AgentTask)
  (awaited : completion AgentResult) (elapsed : Q) : M BaseAgent unit :=
  try_finally
    (try_except
       (result <- await awaited ;;
        a <- get ;;
        let result := with_timing elapsed (agent_id a) result in
        append_result result ;;;
        _update_statistics result)
       (fun e =>
          a <- get ;;
          append_result (error_result task (agent_id a) e)))
    (modify (set_current_task None) ;;;
     modify (set_status IDLE) ;;;
     a <- get ;;
     match task_queue a with
     | [] => ret tt
     | _ :: _ => create_task_process_next
     end).

(** *** [pause] and [resume] *)

Definition pause : M BaseAgent unit :=
  a <- get ;;
  if status_eqb (status a) WORKING
  then modify (set_status PAUSED)
  else ret tt.

Definition resume : M BaseAgent unit :=
  a <- get ;;
  if status_eqb (status a) PAUSED
  then
    modify (set_status IDLE) ;;;
    a <- get ;;
    match task_queue a with
    | [] => ret tt
    | _ :: _ =>
        if is_none (current_task a) then create_task_process_next else ret tt
    end
  else ret tt.

(** *** The agent under the event loop *)

(** What the event loop or a caller can do next with this agent. *)
Inductive event : Type :=
| AddTask (task : AgentTask)
    (* a caller runs [add_task(task)] *)
| ProcessStart
    (* the loop starts a scheduled [_process_next_task()] *)
| ProcessFinish (i : nat) (awaited : completion AgentResult) (elapsed : Q)
    (* the [i]-th suspended coroutine resumes with this outcome *)
| Pause
| Resume.

(** What an event lets the outside observe. *)
Inductive observation : Type :=
| Accepted (task : AgentTask) (ok : bool)
| Dequeued (task : option AgentTask)
| Finished (task : AgentTask)
| Silent.

Fixpoint remove_nth {A} (i : nat) (l : list A) : list A :=
  match i, l with
  | _, [] => []
  | O, _ :: l' => l'
  | S i', x :: l' => x :: remove_nth i' l'
  end.

(** One event.  [None]: the event is not enabled (no coroutine is
    scheduled, no such suspended coroutine).  Otherwise the completion of
    the method that ran, what it lets observe, and the new state. *)
Definition step (ev : event) (a : BaseAgent)
  : option (completion observation * BaseAgent) :=
  match ev with
  | AddTask task =>
      match add_task task a with
      | (Normal ok, a') => Some (Normal (Accepted task ok), a')
      | (Throw e, a') => Some (Throw e, a')
      end
  | ProcessStart =>
      match scheduled a with
      | O => None
      | S n =>
          match _process_next_task_begin (set_scheduled n a) with
          | (Normal (Some task), a') =>
              Some (Normal (Dequeued (Some task)),
                    set_in_flight (in_flight a' ++ [task]) a')
          | (Normal None, a') => Some (Normal (Dequeued None), a')
          | (Throw e, a') => Some (Throw e, a')
          end
      end
  | ProcessFinish i awaited elapsed =>
      match nth_error (in_flight a) i with
      | None => None
      | Some task =>
          match _process_next_task_resume task awaited elapsed
                  (set_in_flight (remove_nth i (in_flight a)) a) with
          | (Normal _, a') => Some (Normal (Finished task), a')
          | (Throw e, a') => Some (Throw e, a')
          end
      end
  | Pause =>
      match pause a with
      | (Normal _, a') => Some (Normal Silent, a')
      | (Throw e, a') => Some (Throw e, a')
      end
  | Resume =>
      match resume a with
      | (Normal _, a') => Some (Normal Silent, a')
      | (Throw e, a') => Some (Throw e, a')
      end
  end.

(** A schedule: the events in the order the loop runs them, with the log
    of what was observed.  A method that lets an exception escape ends the
    run ([None]), as does an event that is not enabled. *)
Fixpoint run (evs : list event) (a : BaseAgent)
  : option (list observation * BaseAgent) :=
  match evs with
  | [] => Some ([], a)
  | ev :: rest =>
      match step ev a with
      | Some (Normal o, a') =>
          match run rest a' with
          | Some (log, a'') => Some (o :: log, a'')
          | None => None
          end
      | _ => None
      end
  end.

Definition reachable (a : BaseAgent) : Prop :=
  exists id evs log, run evs (init id) = Some (log, a).

(** The tasks [add_task] accepted, in submission order. *)
Fixpoint accepted (log : list observation) : list AgentTask :=
  match log with
  | [] => []
  | Accepted task true :: rest => task :: accepted rest
  | _ :: rest => accepted rest
  end.

(** The tasks popped from the queue, in dequeue order. *)
Fixpoint dequeued (log : list observation) : list AgentTask :=
  match log with
  | [] => []
  | Dequeued (Some task) :: rest => task :: dequeued rest
  | _ :: rest => dequeued rest
  end.

Definition has_priority (p : TaskPriority) (t : AgentTask) : bool :=
  priority_eqb (priority t) p.

(** Non-decreasing [priority_order] along the list: CRITICAL first. *)
Fixpoint priority_sorted (q : list AgentTask) : Prop :=
  match q with
  | [] => True
  | t :: rest =>
      Forall (fun u => rank t <= rank u) rest /\ priority_sorted rest
  end.

(** *** The methods in closed form

    The functions below say what the monadic bodies above compute; the
    lemmas [add_task_eq], [process_begin_eq] and [process_resume_eq] of
    Part II prove that they do. *)

(** The test made by [_check_dependencies]. *)
Definition dependencies_met (task : AgentTask) (a : BaseAgent) : bool :=
  dependencies_loop (dependencies task) (completed_tasks (results_history a)).

Definition enqueue (task : AgentTask) (a : BaseAgent) : BaseAgent :=
  let a1 := set_task_queue (insert_by_priority task (task_queue a)) a in
  if status_eqb (status a1) IDLE && is_none (current_task a1)
  then set_scheduled (S (scheduled a1)) a1
  else a1.

(** What the second segment of [_process_next_task] leaves behind. *)
Definition record_outcome (task : AgentTask) (awaited : completion AgentResult)
  (elapsed : Q) (a : BaseAgent) : BaseAgent :=
  match awaited with
  | Normal result =>
      let result := with_timing elapsed (agent_id a) result in
      update_statistics result
        (set_results_history (results_history a ++ [result]) a)
  | Throw e =>
      set_results_history
        (results_history a ++ [error_result task (agent_id a) e]) a
  end.

Definition back_to_idle (a : BaseAgent) : BaseAgent :=
  let a := set_status IDLE (set_current_task None a) in
  match task_queue a with
  | [] => a
  | _ :: _ => set_scheduled (S (scheduled a)) a
  end.

(** [d] is the [task_id] of a result with [success=True] in the history. *)
Definition succeeded (a : BaseAgent) (d : string) : Prop :=
  exists r, In r (results_history a) /\ r_task_id r = d /\ success r = true.

(** The statistics as functions of a result history. *)
Definition history_success_rate (history : list AgentResult) : Q :=
  (inject_Z (Z.of_nat (successful_tasks history)) / Qlen history)%Q.

Definition history_average_quality (history : list AgentResult) : option Q :=
  match quality_scores history with
  | [] => None
  | qs => Some (Qsum qs / Qlen qs)%Q
  end.

(** *** Concrete tasks and outcomes used in the examples *)

Definition a_task (id : string) (p : TaskPriority) (deps : list string)
  : AgentTask :=
  {| task_id := id; task_type := "generate"; description := "";
     priority := p; dependencies := deps |}.

Definition ok_result (id : string) : AgentResult :=
  {| r_task_id := id; r_agent_id := ""; result_type := "model";
     success := true; error_message := None; processing_time := None;
     quality_score := None |}.

Definition boom : exn := Exn "RuntimeError" "boom".

(** LOW "a", HIGH "b", MEDIUM "c" are submitted, then processed one after
    the other. *)
Definition three_priorities : list event :=
  [AddTask (a_task "a" LOW []); AddTask (a_task "b" HIGH []);
   AddTask (a_task "c" MEDIUM []);
   ProcessStart; ProcessFinish 0 (Normal (ok_result "b")) 1;
   ProcessStart; ProcessFinish 0 (Normal (ok_result "c")) 1;
   ProcessStart].

(** Task "x" is submitted and processed with success. *)
Definition x_succeeds : list event :=
  [AddTask (a_task "x" MEDIUM []); ProcessStart;
   ProcessFinish 0 (Normal (ok_result "x")) 1].

(** A task is submitted, started, and its [_process_task] raises. *)
Definition one_failure : list event :=
  [AddTask (a_task "t" MEDIUM []); ProcessStart;
   ProcessFinish 0 (Throw boom) 1].

(** A task is submitted and started, then the agent is paused. *)
Definition paused_mid_task : list event :=
  [AddTask (a_task "t" MEDIUM []); ProcessStart; Pause].

End Agent.

(* ------------------------------------------------------------------ *)
(** ** [src/config/settings.py]: the values the dispatcher reads *)

Module Settings.

Record t : Type := mk {
  primary_ai_service : string;
  fallback_ai_service : string;
  max_concurrent_requests : Z;
  request_rate_limit : Z;
  retry_attempts : Z;
  retry_delay : Q
}.

(** The defaults of the class [Settings]. *)
Definition default : t :=
  {| primary_ai_service := "openai";
     fallback_ai_service := "claude";
     max_concurrent_requests := 5;
     request_rate_limit := 100;
     retry_attempts := 3;
     retry_delay := 1 |}.

End Settings.

(** [range(n)]: empty for [n <= 0]. *)
Definition range (n : Z) : list Z :=
  map Z.of_nat (seq 0 (Z.to_nat n)).

Definition Qlt_bool (x y : Q) : bool := negb (Qle_bool y x).

(** What a retrying call did, in order: the provider invocations, by
    attempt number, and the [asyncio.sleep] calls with their argument. *)
Inductive action : Type :=
| Call (attempt : Z)
| Sleep (seconds : Q).

(** Traces of retrying calls, for the statements of Part II. *)
Module Backoff.

(** The number of provider invocations in a trace. *)
Fixpoint calls (trace : list action) : nat :=
  match trace with
  | [] => 0
  | Call _ :: rest => S (calls rest)
  | Sleep _ :: rest => calls rest
  end.

(** The arguments of the sleeps in a trace. *)
Fixpoint sleeps (trace : list action) : list Q :=
  match trace with
  | [] => []
  | Call _ :: rest => sleeps rest
  | Sleep w :: rest => w :: sleeps rest
  end.

(** Attempts [0 .. k-1] fail, each followed by a sleep of [delay attempt];
    attempt [k] is the last one made. *)
Definition backoff_trace (delay : Z -> Q) (k : Z) : list action :=
  flat_map (fun attempt => [Call attempt; Sleep (delay attempt)]) (range k)
  ++ [Call k].

(** [retry_delay * (2 ** attempt)] *)
Definition exponential_delay (cfg : Settings.t) (attempt : Z) : Q :=
  (Settings.retry_delay cfg * inject_Z (2 ^ attempt))%Q.

(** [retry_delay * (attempt + 1)] *)
Definition linear_delay (cfg : Settings.t) (attempt : Z) : Q :=
  (Settings.retry_delay cfg * inject_Z (attempt + 1))%Q.

(** Every sleep that follows a failed attempt lasts
    [retry_delay * 2 ** attempt]. *)
Fixpoint sleeps_exponential (cfg : Settings.t) (trace : list action) : Prop :=
  match trace with
  | [] => True
  | Call attempt :: rest =>
      match rest with
      | Sleep w :: _ => (w == exponential_delay cfg attempt)%Q
      | _ => True
      end /\ sleeps_exponential cfg rest
  | Sleep _ :: rest => sleeps_exponential cfg rest
  end.

(** The default settings with four attempts instead of three. *)
Definition four_attempts : Settings.t :=
  Settings.mk "openai" "claude" 5 100 4 1.

Definition api_error (attempt : Z) : Py.exn :=
  Py.Exn "APIError" (if (attempt <? 2)%Z then "overloaded" else "timeout").

(** A provider that fails [k] times and then answers [r]. *)
Definition fails_then {A : Type} (k : Z) (r : A) (attempt : Z)
  : Py.completion A :=
  if (attempt <? k)%Z then Py.Throw (api_error attempt) else Py.Normal r.

(** A provider that always fails. *)
Definition always_fails {A : Type} (attempt : Z) : Py.completion A :=
  Py.Throw (api_error attempt).

(** A provider that always answers [r]. *)
Definition always_answers {A : Type} (r : A) (attempt : Z) : Py.completion A :=
  Py.Normal r.

End Backoff.

(* ------------------------------------------------------------------ *)
(** ** [src/api/claude_client.py]: [RateLimiter] *)

Module RateLimiter.

Import Py.

(** The limiter object.  [locked] is the state of [self._lock], an
    [asyncio.Lock]: a lock that is not reentrant, so that a coroutine which
    enters [async with self._lock] while the lock is held waits until the
    holder leaves its own [async with] block. *)
Record t : Type := mk {
  max_requests : Z;
  window_seconds : Q;
  requests : list Q;
  locked : bool
}.

(** [RateLimiter.__init__] *)
Definition init (max_requests : Z) (window_seconds : Q) : t :=
  {| max_requests := max_requests;
     window_seconds := window_seconds;
     requests := [];
     locked := false |}.

Definition set_requests (v : list Q) (rl : t) : t :=
  mk (max_requests rl) (window_seconds rl) v (locked rl).

Definition set_locked (v : bool) (rl : t) : t :=
  mk (max_requests rl) (window_seconds rl) (requests rl) v.

(** How a call of [acquire()] ends.  [slept] lists the arguments of the
    [asyncio.sleep] calls made on the way, oldest first. *)
Inductive outcome : Type :=
| Granted (slept : list Q) (rl : t)
    (* the call returned, its timestamp recorded *)
| Raised (e : exn) (slept : list Q) (rl : t)
    (* an exception left the call *)
| WaitsForLock (slept : list Q) (rl : t)
    (* suspended at [async with self._lock]: resumes only when the holder
       of the lock releases it *)
| OutOfFuel.

(** [[t for t in self.requests if now - t < self.window_seconds]] *)
Definition purge (now window : Q) (reqs : list Q) : list Q :=
  filter (fun req_time => Qlt_bool (now - req_time) window) reqs.

(** [acquire()], called when the clock reads [now].  [asyncio.sleep(w)]
    moves the clock by [w].  The recursion of the source is bounded by
    [fuel]; two units are always enough (see [acquire_fuel] below), because
    the recursive call is made inside the caller's own
    [async with self._lock] block. *)
Fixpoint acquire (fuel : nat) (now : Q) (rl : t) : outcome :=
  match fuel with
  | O => OutOfFuel
  | S fuel' =>
      if locked rl then WaitsForLock [] rl
      else
        (* async with self._lock: *)
        let rl := set_locked true rl in
        let rl := set_requests (purge now (window_seconds rl) (requests rl)) rl in
        if (max_requests rl <=? Z.of_nat (List.length (requests rl)))%Z then
          match requests rl with
          | [] =>
              (* self.requests[0] on an empty list; leaving the block
                 releases the lock *)
              Raised (Exn "IndexError" "list index out of range") []
                (set_locked false rl)
          | oldest :: _ =>
              let wait_time := (window_seconds rl - (now - oldest))%Q in
              if Qlt_bool 0 wait_time then
                (* await asyncio.sleep(wait_time); return await self.acquire() *)
                (* the recursive call finds the lock held and waits; the
                   other three cases keep the function total *)
                match acquire fuel' (now + wait_time)%Q rl with
                | Granted slept rl' =>
                    Granted (wait_time :: slept) (set_locked false rl')
                | Raised e slept rl' =>
                    Raised e (wait_time :: slept) (set_locked false rl')
                | WaitsForLock slept rl' => WaitsForLock (wait_time :: slept) rl'
                | OutOfFuel => OutOfFuel
                end
              else
                Granted [] (set_locked false (set_requests (requests rl ++ [now]) rl))
          end
        else
          Granted [] (set_locked false (set_requests (requests rl ++ [now]) rl))
  end.

(** The call waits for a lock that a frame of its own call chain holds
    (the frame that slept): nobody is left to release it. *)
Definition deadlocked (o : outcome) : bool :=
  match o with
  | WaitsForLock (_ :: _) rl => locked rl
  | _ => false
  end.

(** Five calls back to back, a tenth of a time unit apart. *)
Definition five_calls : list Q :=
  [0%Q; (1 # 10)%Q; (2 # 10)%Q; (3 # 10)%Q; (4 # 10)%Q].

Definition granted (o : outcome) : bool :=
  match o with
  | Granted _ _ => true
  | _ => false
  end.

(** The limiter as a call leaves it: to its caller when the call ends,
    to the other coroutines when it waits. *)
Definition state_after (rl : t) (o : outcome) : t :=
  match o with
  | Granted _ rl' | Raised _ _ rl' | WaitsForLock _ rl' => rl'
  | OutOfFuel => rl
  end.

(** Calls issued one after the other, the [i]-th when the clock reads the
    [i]-th element of [times]. *)
Fixpoint back_to_back (fuel : nat) (times : list Q) (rl : t) : list outcome :=
  match times with
  | [] => []
  | now :: rest =>
      let o := acquire fuel now rl in
      o :: back_to_back fuel rest (state_after rl o)
  end.

End RateLimiter.

(* ------------------------------------------------------------------ *)
(** ** [src/api/claude_client.py]: [RequestQueue] *)

Module RequestQueue.

Import Py.

(** The queue object.  [semaphore] is the counter of the
    [asyncio.Semaphore]: [acquire] waits while it is zero and decrements
    it, [release] increments it.  The object's [_lock] only ever guards a
    single assignment with no suspension inside, so it is free whenever a
    coroutine asks for it; the guarded assignments are the atomic steps
    [enter] and [leave] below. *)
Record t : Type := mk {
  max_concurrent : Z;
  semaphore : Z;
  active_requests : Z
}.

(** [RequestQueue.__init__]; [asyncio.Semaphore] refuses a negative
    initial value. *)
Definition init (max_concurrent : Z) : completion t :=
  if (max_concurrent <? 0)%Z
  then Throw (Exn "ValueError" "Semaphore initial value must be >= 0")
  else Normal {| max_concurrent := max_concurrent;
                 semaphore := max_concurrent;
                 active_requests := 0 |}.

(** The four statements of [acquire_slot] that touch the object. *)

(** [async with self.semaphore:] on entry; [None] while no slot is free. *)
Definition sem_acquire (q : t) : option t :=
  if (0 <? semaphore q)%Z
  then Some (mk (max_concurrent q) (semaphore q - 1)%Z (active_requests q))
  else None.

(** [self.active_requests += 1] *)
Definition enter (q : t) : t :=
  mk (max_concurrent q) (semaphore q) (active_requests q + 1)%Z.

(** [self.active_requests -= 1], in the [finally] *)
Definition leave (q : t) : t :=
  mk (max_concurrent q) (semaphore q) (active_requests q - 1)%Z.

(** [async with self.semaphore:] on exit *)
Definition sem_release (q : t) : t :=
  mk (max_concurrent q) (semaphore q + 1)%Z (active_requests q).

(** [get_queue_status]: the three entries of the dictionary. *)
Record status : Type := mkStatus {
  st_active_requests : Z;
  st_max_concurrent : Z;
  st_available_slots : Z
}.

Definition get_queue_status (q : t) : status :=
  {| st_active_requests := active_requests q;
     st_max_concurrent := max_concurrent q;
     st_available_slots := (max_concurrent q - active_requests q)%Z |}.

(** *** One [acquire_slot] scope, run without interruption *)

(** How the body of an [async with ... acquire_slot():] block ends. *)
Inductive exit_path : Type :=
| NormalReturn
| ErrorRaised (e : exn)
| Cancelled.

(** The context manager around the caller's block.  The queue is a part
    of the caller's state [S], read by [getq] and written by [setq]; [body]
    is the block at the [yield], returning how it ended.  [None] while no
    slot is free. *)
Definition acquire_slot {S A : Type} (getq : S -> t) (setq : t -> S -> S)
  (body : S -> A * S) (s : S) : option (A * S) :=
  match sem_acquire (getq s) with
  | None => None
  | Some q1 =>
      let s1 := setq (enter q1) s in
      let (a, s2) := body s1 in
      (* finally: *)
      let s3 := setq (leave (getq s2)) s2 in
      Some (a, setq (sem_release (getq s3)) s3)
  end.

(** *** Several callers under the event loop *)

(** Where a caller of [acquire_slot] stands. *)
Inductive phase : Type :=
| Outside                     (* before [async with self.semaphore] *)
| HoldsSlot                   (* semaphore taken, counter not yet raised *)
| InBody                      (* at the [yield]: the caller's block runs *)
| Leaving (path : exit_path)  (* the block was left, [finally] entered *)
| Releasing (path : exit_path)(* counter lowered, semaphore still held *)
| Done (path : exit_path).

Record system : Type := mkSystem {
  queue : t;
  callers : list phase
}.

Fixpoint update {A} (i : nat) (x : A) (l : list A) : list A :=
  match i, l with
  | _, [] => []
  | O, _ :: l' => x :: l'
  | S i', y :: l' => y :: update i' x l'
  end.

(** What caller [i] does next. *)
Inductive action : Type :=
| TakeSlot
| RaiseCounter
| ExitBody (path : exit_path)
| LowerCounter
| GiveSlot.

(** One step of caller [i]; [None] when the caller cannot make it now. *)
Definition step (i : nat) (act : action) (s : system) : option system :=
  match nth_error (callers s) i, act with
  | Some Outside, TakeSlot =>
      match sem_acquire (queue s) with
      | Some q' => Some (mkSystem q' (update i HoldsSlot (callers s)))
      | None => None
      end
  | Some HoldsSlot, RaiseCounter =>
      Some (mkSystem (enter (queue s)) (update i InBody (callers s)))
  | Some InBody, ExitBody path =>
      Some (mkSystem (queue s) (update i (Leaving path) (callers s)))
  | Some (Leaving path), LowerCounter =>
      Some (mkSystem (leave (queue s)) (update i (Releasing path) (callers s)))
  | Some (Releasing path), GiveSlot =>
      Some (mkSystem (sem_release (queue s)) (update i (Done path) (callers s)))
  | _, _ => None
  end.

Fixpoint run (sched : list (nat * action)) (s : system) : option system :=
  match sched with
  | [] => Some s
  | (i, act) :: rest =>
      match step i act s with
      | Some s' => run rest s'
      | None => None
      end
  end.

(** [n] callers arrive at a freshly built queue. *)
Definition start (q : t) (n : nat) : system :=
  mkSystem q (repeat Outside n).

Definition reachable (max_concurrent : Z) (s : system) : Prop :=
  exists q n sched,
    init max_concurrent = Normal q /\ run sched (start q n) = Some s.

(** Callers whose block is executing. *)
Definition executing (ph : phase) : bool :=
  match ph with InBody => true | _ => false end.

(** Callers for which [active_requests] is currently raised. *)
Definition counted (ph : phase) : bool :=
  match ph with InBody | Leaving _ => true | _ => false end.

(** Callers that hold a unit of the semaphore. *)
Definition holding (ph : phase) : bool :=
  match ph with
  | HoldsSlot | InBody | Leaving _ | Releasing _ => true
  | _ => false
  end.

Definition count (f : phase -> bool) (l : list phase) : Z :=
  Z.of_nat (List.length (filter f l)).

Definition finished (ph : phase) : bool :=
  match ph with Outside | Done _ => true | _ => false end.

(** The counters agree with where the callers stand. *)
Definition consistent (s : system) : Prop :=
  (semaphore (queue s) + count holding (callers s) = max_concurrent (queue s))%Z
  /\ active_requests (queue s) = count counted (callers s)
  /\ (0 <= semaphore (queue s))%Z.

(** Two slots, five callers: callers 0 and 1 enter; caller 0 fails and
    leaves; caller 2 enters; caller 1 is cancelled and leaves; caller 3
    enters; callers 2 and 3 return; caller 4 enters and fails. *)
Definition two_slots_five_callers : list (nat * action) :=
  [(0, TakeSlot); (0, RaiseCounter); (1, TakeSlot); (1, RaiseCounter);
   (0, ExitBody (ErrorRaised (Exn "RuntimeError" "boom")));
   (0, LowerCounter); (0, GiveSlot);
   (2, TakeSlot); (2, RaiseCounter);
   (1, ExitBody Cancelled); (1, LowerCounter); (1, GiveSlot);
   (3, TakeSlot); (3, RaiseCounter);
   (2, ExitBody NormalReturn); (3, ExitBody NormalReturn);
   (2, LowerCounter); (3, LowerCounter); (2, GiveSlot); (3, GiveSlot);
   (4, TakeSlot); (4, RaiseCounter);
   (4, ExitBody (ErrorRaised (Exn "RuntimeError" "boom")));
   (4, LowerCounter); (4, GiveSlot)].

End RequestQueue.

(* ------------------------------------------------------------------ *)
(** ** [src/api/claude_client.py]: [ClaudeClient] *)

Module ClaudeClient.

Import Py.

(** [ClaudeRequest]; [metadata] is not read by the client. *)
Record ClaudeRequest : Type := mkRequest {
  messages : list (string * string);
  system : option string;
  max_tokens : Z;
  temperature : Q;
  stream : bool
}.

(** [ClaudeResponse].  [usage] is the dictionary, as its list of items;
    [request_id] keeps the two parts of the f-string
    [f"{agent_type}_{int(start_time * 1000)}"]. *)
Record ClaudeResponse : Type := mkResponse {
  content : string;
  usage : list (string * Z);
  model : string;
  role : string;
  request_id : option (string * Z);
  processing_time : option Q
}.

(** [d.get(key, default)] *)
Fixpoint dict_get (d : list (string * Z)) (key : string) (default : Z) : Z :=
  match d with
  | [] => default
  | (k, v) :: rest => if String.eqb k key then v else dict_get rest key default
  end.

(** What the provider's SDK hands back: a message of the non-streaming
    call, or the chunks of a stream. *)
Record Message : Type := mkMessage {
  m_text : string;
  m_input_tokens : Z;
  m_output_tokens : Z;
  m_model : string;
  m_role : string
}.

Inductive chunk : Type :=
| ContentBlockDelta (text : string)
| MessageStart (input_tokens : Z)
| MessageDelta (output_tokens : Z)
| OtherChunk.

(** The provider, as seen by one logical call: the outcome of the
    [attempt]-th invocation of each SDK entry point. *)
Record provider : Type := mkProvider {
  messages_create : Z -> completion Message;
  messages_stream : Z -> completion (list chunk)
}.

(** The [ClaudeResponse(...)] that [_sync_request] builds. *)
Definition response_of_message (message : Message) : ClaudeResponse :=
  {| content := m_text message;
     usage := [("input_tokens", m_input_tokens message);
               ("output_tokens", m_output_tokens message);
               ("total_tokens",
                (m_input_tokens message + m_output_tokens message)%Z)];
     model := m_model message;
     role := m_role message;
     request_id := None;
     processing_time := None |}.

(** [_sync_request] *)
Definition _sync_request (p : provider) (attempt : Z) : completion ClaudeResponse :=
  match messages_create p attempt with
  | Throw e => Throw e
  | Normal message => Normal (response_of_message message)
  end.

(** The [async for chunk in stream] loop of [_stream_request]. *)
Fixpoint stream_loop (chunks : list chunk) (content_parts : list string)
  (input_tokens output_tokens : Z) : list string * Z * Z :=
  match chunks with
  | [] => (content_parts, input_tokens, output_tokens)
  | ContentBlockDelta text :: rest =>
      stream_loop rest (content_parts ++ [text]) input_tokens output_tokens
  | MessageStart n :: rest => stream_loop rest content_parts n output_tokens
  | MessageDelta n :: rest => stream_loop rest content_parts input_tokens n
  | OtherChunk :: rest => stream_loop rest content_parts input_tokens output_tokens
  end.

(** [_stream_request]; [config_model] is [params["model"]]. *)
Definition _stream_request (p : provider) (config_model : string) (attempt : Z)
  : completion ClaudeResponse :=
  match messages_stream p attempt with
  | Throw e => Throw e
  | Normal chunks =>
      let '(content_parts, input_tokens, output_tokens) :=
        stream_loop chunks [] 0%Z 0%Z in
      Normal {| content := String.concat "" content_parts;
                usage := [("input_tokens", input_tokens);
                          ("output_tokens", output_tokens);
                          ("total_tokens", (input_tokens + output_tokens)%Z)];
                model := config_model;
                role := "assistant";
                request_id := None;
                processing_time := None |}
  end.

(** How [_make_request] ends: [FellThrough] is the end of the [for] loop
    reached without [return] or [raise], where Python returns [None]. *)
Inductive retry_outcome : Type :=
| RReturned (response : ClaudeResponse)
| RRaised (e : exn)
| RFellThrough.

(** The [for attempt in range(settings.retry_attempts)] loop of
    [_make_request]. *)
Fixpoint _make_request_loop (cfg : Settings.t)
  (call : Z -> completion ClaudeResponse) (attempts : list Z)
  : retry_outcome * list action :=
  match attempts with
  | [] => (RFellThrough, [])
  | attempt :: rest =>
      match call attempt with
      | Normal response => (RReturned response, [Call attempt])
      | Throw e =>
          if (attempt =? Settings.retry_attempts cfg - 1)%Z
          then (RRaised e, [Call attempt])
          else
            let wait_time :=
              (Settings.retry_delay cfg * inject_Z (2 ^ attempt))%Q in
            let (r, trace) := _make_request_loop cfg call rest in
            (r, Call attempt :: Sleep wait_time :: trace)
      end
  end.

(** The body of the [try] in the loop: one request to the provider. *)
Definition request_once (p : provider) (config_model : string)
  (request : ClaudeRequest) (attempt : Z) : completion ClaudeResponse :=
  if stream request
  then _stream_request p config_model attempt
  else _sync_request p attempt.

Definition _make_request (cfg : Settings.t) (p : provider)
  (config_model : string) (request : ClaudeRequest)
  : retry_outcome * list action :=
  _make_request_loop cfg (request_once p config_model request)
    (range (Settings.retry_attempts cfg)).

(** The client object. *)
Record t : Type := mk {
  rate_limiter : RateLimiter.t;
  request_queue : RequestQueue.t;
  total_requests : Z;
  total_tokens_used : Z;
  total_cost : Q;
  error_count : Z
}.

(** [ClaudeClient.__init__], the API key being present. *)
Definition init (cfg : Settings.t) : completion t :=
  match RequestQueue.init (Settings.max_concurrent_requests cfg) with
  | Throw e => Throw e
  | Normal q =>
      Normal {| rate_limiter :=
                  RateLimiter.init (Settings.request_rate_limit cfg) 60;
                request_queue := q;
                total_requests := 0;
                total_tokens_used := 0;
                total_cost := 0;
                error_count := 0 |}
  end.

Definition set_rate_limiter (v : RateLimiter.t) (c : t) : t :=
  mk v (request_queue c) (total_requests c) (total_tokens_used c)
    (total_cost c) (error_count c).

Definition set_request_queue (v : RequestQueue.t) (c : t) : t :=
  mk (rate_limiter c) v (total_requests c) (total_tokens_used c)
    (total_cost c) (error_count c).

Definition set_total_requests (v : Z) (c : t) : t :=
  mk (rate_limiter c) (request_queue c) v (total_tokens_used c)
    (total_cost c) (error_count c).

Definition set_total_tokens_used (v : Z) (c : t) : t :=
  mk (rate_limiter c) (request_queue c) (total_requests c) v
    (total_cost c) (error_count c).

Definition set_error_count (v : Z) (c : t) : t :=
  mk (rate_limiter c) (request_queue c) (total_requests c)
    (total_tokens_used c) (total_cost c) v.

(** The readings of [time.time()] during one [send_message]. *)
Record clock : Type := mkClock {
  at_entry : Q;        (* [start_time] *)
  at_acquire : Q;      (* [now] in [RateLimiter.acquire] *)
  at_completion : Q    (* the reading for [processing_time] *)
}.

(** [int(x)]: truncation toward zero. *)
Definition int_of (x : Q) : Z := Z.quot (Qnum x) (Zpos (Qden x)).

(** How a call of [send_message] ends for its caller. *)
Inductive wait_point : Type := LimiterLock | Semaphore.

Inductive call_outcome (A : Type) : Type :=
| Returned (a : A)
| Raised (e : exn)
| Blocked (at_point : wait_point).
    (* suspended with nothing left to wake it up *)

Arguments Returned {A} a.
Arguments Raised {A} e.
Arguments Blocked {A} at_point.

(** The block under [async with self.request_queue.acquire_slot():]. *)
Definition send_message_body (cfg : Settings.t) (p : provider)
  (config_model : string) (clk : clock) (request : ClaudeRequest)
  (agent_type : string) (c : t)
  : (completion ClaudeResponse * list action) * t :=
  let (r, trace) := _make_request cfg p config_model request in
  match r with
  | RReturned response =>
      let processing_time := (at_completion clk - at_entry clk)%Q in
      let response :=
        mkResponse (content response) (usage response) (model response)
          (role response)
          (Some (agent_type, int_of (at_entry clk * 1000)%Q))
          (Some processing_time) in
      let c := set_total_requests (total_requests c + 1)%Z c in
      let c :=
        set_total_tokens_used
          (total_tokens_used c + dict_get (usage response) "total_tokens" 0)%Z c in
      ((Normal response, trace), c)
  | RRaised e => ((Throw e, trace), c)
  | RFellThrough =>
      (* [response] is [None]: the assignment to its attribute fails *)
      ((Throw (Exn "AttributeError"
                 "'NoneType' object has no attribute 'processing_time'"),
        trace), c)
  end.

(** [except Exception as e: self.error_count += 1; raise] *)
Definition on_exception (c : t) : t :=
  set_error_count (error_count c + 1)%Z c.

(** [send_message], one call run from entry to exit with no other
    coroutine using the client in between. *)
Definition send_message (cfg : Settings.t) (p : provider)
  (config_model : string) (clk : clock) (request : ClaudeRequest)
  (agent_type : string) (c : t)
  : call_outcome ClaudeResponse * list action * t :=
  match RateLimiter.acquire 2 (at_acquire clk) (rate_limiter c) with
  | RateLimiter.Granted slept rl =>
      let c := set_rate_limiter rl c in
      match RequestQueue.acquire_slot request_queue set_request_queue
              (send_message_body cfg p config_model clk request agent_type) c with
      | None => (Blocked Semaphore, map Sleep slept, c)
      | Some ((Normal response, trace), c') =>
          (Returned response, map Sleep slept ++ trace, c')
      | Some ((Throw e, trace), c') =>
          (Raised e, map Sleep slept ++ trace, on_exception c')
      end
  | RateLimiter.Raised e slept rl =>
      (Raised e, map Sleep slept, on_exception (set_rate_limiter rl c))
  | RateLimiter.WaitsForLock slept rl =>
      (Blocked LimiterLock, map Sleep slept, set_rate_limiter rl c)
  | RateLimiter.OutOfFuel =>
      (* not reached: see [acquire_never_out_of_fuel] *)
      (Blocked LimiterLock, [], c)
  end.

(** [get_statistics] *)
Record statistics : Type := mkStatistics {
  s_total_requests : Z;
  s_total_tokens_used : Z;
  s_error_count : Z;
  s_success_rate : Q;
  s_queue_status : RequestQueue.status;
  s_estimated_cost : Q
}.

Definition get_statistics (c : t) : statistics :=
  {| s_total_requests := total_requests c;
     s_total_tokens_used := total_tokens_used c;
     s_error_count := error_count c;
     s_success_rate :=
       (inject_Z (total_requests c - error_count c)
        / inject_Z (Z.max (total_requests c) 1))%Q;
     s_queue_status := RequestQueue.get_queue_status (request_queue c);
     s_estimated_cost := (inject_Z (total_tokens_used c) * (3 # 1000000))%Q |}.

(** *** Several calls, one after the other *)

(** What one call of [send_message] is given. *)
Record call : Type := mkCall {
  call_provider : provider;
  call_model : string;
  call_clock : clock;
  call_request : ClaudeRequest;
  call_agent_type : string
}.

(** The calls are made in order, each on the client as the previous one
    left it. *)
Fixpoint serve (cfg : Settings.t) (calls : list call) (c : t)
  : list (call_outcome ClaudeResponse) * t :=
  match calls with
  | [] => ([], c)
  | k :: rest =>
      let '(o, _, c') :=
        send_message cfg (call_provider k) (call_model k) (call_clock k)
          (call_request k) (call_agent_type k) c in
      let (os, c'') := serve cfg rest c' in
      (o :: os, c'')
  end.

(** The number of calls that returned, and of calls that raised. *)
Fixpoint successes {A} (os : list (call_outcome A)) : Z :=
  match os with
  | [] => 0
  | Returned _ :: rest => 1 + successes rest
  | _ :: rest => successes rest
  end.

Fixpoint failures {A} (os : list (call_outcome A)) : Z :=
  match os with
  | [] => 0
  | Raised _ :: rest => 1 + failures rest
  | _ :: rest => failures rest
  end.

(** A message of the provider, and calls that succeed or fail. *)
Definition a_message : Message :=
  {| m_text := "ok"; m_input_tokens := 10; m_output_tokens := 5;
     m_model := "claude-3-5-sonnet-20241022"; m_role := "assistant" |}.

Definition a_request : ClaudeRequest :=
  {| messages := [("user", "hello")]; system := None; max_tokens := 4096;
     temperature := 7 # 10; stream := false |}.

Definition call_at (now : Q) (p : provider) : call :=
  {| call_provider := p; call_model := "claude-3-5-sonnet-20241022";
     call_clock := mkClock now now (now + 1);
     call_request := a_request; call_agent_type := "default" |}.

Definition good_provider : provider :=
  mkProvider (Backoff.always_answers a_message) Backoff.always_fails.

Definition bad_provider : provider :=
  mkProvider Backoff.always_fails Backoff.always_fails.

(** One call that succeeds and two that fail. *)
Definition one_good_two_bad : list call :=
  [call_at 0 good_provider; call_at 10 bad_provider; call_at 20 bad_provider].

End ClaudeClient.

(* ------------------------------------------------------------------ *)
(** ** [src/api/multi_ai_client.py] *)

Module AI.

Inductive AIService : Type := OPENAI | CLAUDE.

Definition service_eqb (a b : AIService) : bool :=
  match a, b with
  | OPENAI, OPENAI | CLAUDE, CLAUDE => true
  | _, _ => false
  end.

(** [service.value] *)
Definition value (s : AIService) : string :=
  match s with OPENAI => "openai" | CLAUDE => "claude" end.

(** [AIRequest]; [metadata] is carried along untouched and left out. *)
Record AIRequest : Type := mkRequest {
  messages : list (string * string);
  system : option string;
  max_tokens : Z;
  temperature : Q;
  service : option AIService
}.

(** [AIResponse] *)
Record AIResponse : Type := mkResponse {
  content : string;
  r_service : AIService;
  model : string;
  usage : list (string * Z);
  processing_time : Q
}.

End AI.

Module OpenAIClient.

Import Py AI.

(** The completion object of the SDK, with the fields the client reads. *)
Record ChatCompletion : Type := mkCompletion {
  c_content : string;
  c_model : string;
  c_prompt_tokens : Z;
  c_completion_tokens : Z;
  c_total_tokens : Z
}.

Record t : Type := mk {
  total_requests : Z;
  total_tokens : Z
}.

Definition init : t := {| total_requests := 0; total_tokens := 0 |}.

(** The [AIResponse(...)] built from a completion. *)
Definition to_response (response : ChatCompletion) (elapsed : Q) : AIResponse :=
  {| content := c_content response;
     r_service := OPENAI;
     model := c_model response;
     usage := [("prompt_tokens", c_prompt_tokens response);
               ("completion_tokens", c_completion_tokens response);
               ("total_tokens", c_total_tokens response)];
     processing_time := elapsed |}.

(** The counters after a successful attempt. *)
Definition count_response (response : ChatCompletion) (c : t) : t :=
  mk (total_requests c + 1)%Z (total_tokens c + c_total_tokens response)%Z.

(** The [for attempt in range(settings.retry_attempts)] loop of
    [send_message] and the [raise last_error] after it.  [api attempt] is
    the outcome of the [attempt]-th [chat.completions.create];
    [elapsed] is [time.time() - start_time] at the successful return. *)
Fixpoint send_message_loop (cfg : Settings.t)
  (api : Z -> completion ChatCompletion) (elapsed : Q)
  (attempts : list Z) (last_error : option exn) (c : t)
  : completion AIResponse * list action * t :=
  match attempts with
  | [] =>
      match last_error with
      | Some e => (Throw e, [], c)
      | None =>
          (* [raise None] *)
          (Throw (Exn "TypeError" "exceptions must derive from BaseException"),
           [], c)
      end
  | attempt :: rest =>
      match api attempt with
      | Normal response =>
          let c := count_response response c in
          (Normal (to_response response elapsed), [Call attempt], c)
      | Throw e =>
          if (attempt <? Settings.retry_attempts cfg - 1)%Z
          then
            let wait_time :=
              (Settings.retry_delay cfg * inject_Z (attempt + 1))%Q in
            let '(r, trace, c') :=
              send_message_loop cfg api elapsed rest (Some e) c in
            (r, Call attempt :: Sleep wait_time :: trace, c')
          else
            let '(r, trace, c') :=
              send_message_loop cfg api elapsed rest (Some e) c in
            (r, Call attempt :: trace, c')
      end
  end.

Definition send_message (cfg : Settings.t)
  (api : Z -> completion ChatCompletion) (elapsed : Q) (request : AIRequest)
  (c : t) : completion AIResponse * list action * t :=
  send_message_loop cfg api elapsed (range (Settings.retry_attempts cfg)) None c.

(** A completion, for the examples. *)
Definition a_completion : ChatCompletion :=
  {| c_content := "ok"; c_model := "gpt-4o-mini"; c_prompt_tokens := 10;
     c_completion_tokens := 5; c_total_tokens := 15 |}.

End OpenAIClient.

Module MultiAIClient.

Import Py AI.

Record t : Type := mk {
  openai_client : option OpenAIClient.t;
  claude_client : option ClaudeClient.t;
  service_priority : list AIService
}.

Definition is_some {A} (o : option A) : bool :=
  match o with Some _ => true | None => false end.

Definition service_in (s : AIService) (l : list AIService) : bool :=
  existsb (service_eqb s) l.

(** [_determine_service_priority] *)
Definition _determine_service_priority (cfg : Settings.t)
  (openai : option OpenAIClient.t) (claude : option ClaudeClient.t)
  : list AIService :=
  let priority := [] in
  let priority :=
    if String.eqb (Settings.primary_ai_service cfg) "openai" && is_some openai
    then priority ++ [OPENAI]
    else if String.eqb (Settings.primary_ai_service cfg) "claude" && is_some claude
    then priority ++ [CLAUDE]
    else priority in
  let priority :=
    if String.eqb (Settings.fallback_ai_service cfg) "claude" && is_some claude
       && negb (service_in CLAUDE priority)
    then priority ++ [CLAUDE]
    else if String.eqb (Settings.fallback_ai_service cfg) "openai" && is_some openai
       && negb (service_in OPENAI priority)
    then priority ++ [OPENAI]
    else priority in
  match priority with
  | [] =>
      let priority := if is_some openai then priority ++ [OPENAI] else priority in
      if is_some claude then priority ++ [CLAUDE] else priority
  | _ => priority
  end.

(** [MultiAIClient.__init__]; the two flags say whether the API keys are
    configured.  A client whose constructor raises is left as [None]. *)
Definition init (cfg : Settings.t) (openai_api_key claude_api_key : bool)
  : completion t :=
  let openai := if openai_api_key then Some OpenAIClient.init else None in
  let claude :=
    if claude_api_key
    then match ClaudeClient.init cfg with
         | Normal c => Some c
         | Throw _ => None
         end
    else None in
  if negb (is_some openai) && negb (is_some claude)
  then Throw (Exn "ValueError"
                "No AI service available. Please configure at least one API key.")
  else Normal {| openai_client := openai;
                 claude_client := claude;
                 service_priority :=
                   _determine_service_priority cfg openai claude |}.

(** [_is_service_available] *)
Definition _is_service_available (m : t) (s : AIService) : bool :=
  match s with
  | OPENAI => is_some (openai_client m)
  | CLAUDE => is_some (claude_client m)
  end.

(** [if preferred_service and self._is_service_available(preferred_service):
      services_to_try.append(preferred_service)] *)
Definition preferred_first (m : t) (preferred_service : option AIService)
  : list AIService :=
  match preferred_service with
  | Some p => if _is_service_available m p then [p] else []
  | None => []
  end.

(** [if service not in services_to_try: services_to_try.append(service)] *)
Definition add_candidate (acc : list AIService) (s : AIService)
  : list AIService :=
  if service_in s acc then acc else acc ++ [s].

(** The list [services_to_try] built at the start of [send_message]. *)
Definition services_to_try (m : t) (preferred_service : option AIService)
  : list AIService :=
  fold_left add_candidate (service_priority m)
    (preferred_first m preferred_service).

(** The two providers as one logical call meets them. *)
Record world : Type := mkWorld {
  openai_api : Z -> completion OpenAIClient.ChatCompletion;
  openai_elapsed : Q;
  claude_api : ClaudeClient.provider;
  claude_model : string;
  claude_clock : ClaudeClient.clock
}.

(** [f"{last_error}"] *)
Definition format_error (last_error : option exn) : string :=
  match last_error with
  | Some e => str e
  | None => "None"
  end.

Definition all_failed (last_error : option exn) : exn :=
  Exn "Exception"
    ("All AI services failed. Last error: " ++ format_error last_error)%string.

(** [claude_response.processing_time or 0] *)
Definition or_zero (o : option Q) : Q :=
  match o with
  | Some q => if Qeq_bool q 0 then 0%Q else q
  | None => 0%Q
  end.

(** The [AIResponse(...)] built from Claude's response. *)
Definition of_claude (claude_response : ClaudeClient.ClaudeResponse)
  : AIResponse :=
  {| content := ClaudeClient.content claude_response;
     r_service := CLAUDE;
     model := ClaudeClient.model claude_response;
     usage := ClaudeClient.usage claude_response;
     processing_time :=
       or_zero (ClaudeClient.processing_time claude_response) |}.

(** The [for service in services_to_try] loop of [send_message] and the
    [raise] after it.  The second component lists the services whose
    client was called, in order. *)
Fixpoint try_services (cfg : Settings.t) (w : world) (request : AIRequest)
  (agent_type : string) (services : list AIService)
  (last_error : option exn) (m : t)
  : ClaudeClient.call_outcome AIResponse * list AIService * t :=
  match services with
  | [] => (ClaudeClient.Raised (all_failed last_error), [], m)
  | svc :: rest =>
      match svc, openai_client m, claude_client m with
      | OPENAI, Some oc, _ =>
          match OpenAIClient.send_message cfg (openai_api w) (openai_elapsed w)
                  request oc with
          | (Normal response, _, oc') =>
              (ClaudeClient.Returned response, [svc],
               mk (Some oc') (claude_client m) (service_priority m))
          | (Throw e, _, oc') =>
              let '(r, tried, m') :=
                try_services cfg w request agent_type rest (Some e)
                  (mk (Some oc') (claude_client m) (service_priority m)) in
              (r, svc :: tried, m')
          end
      | CLAUDE, _, Some cc =>
          let claude_request :=
            ClaudeClient.mkRequest (messages request) (system request)
              (max_tokens request) (temperature request) false in
          match ClaudeClient.send_message cfg (claude_api w) (claude_model w)
                  (claude_clock w) claude_request agent_type cc with
          | (ClaudeClient.Returned claude_response, _, cc') =>
              (ClaudeClient.Returned (of_claude claude_response),
               [svc], mk (openai_client m) (Some cc') (service_priority m))
          | (ClaudeClient.Raised e, _, cc') =>
              let '(r, tried, m') :=
                try_services cfg w request agent_type rest (Some e)
                  (mk (openai_client m) (Some cc') (service_priority m)) in
              (r, svc :: tried, m')
          | (ClaudeClient.Blocked pt, _, cc') =>
              (ClaudeClient.Blocked pt, [svc],
               mk (openai_client m) (Some cc') (service_priority m))
          end
      | _, _, _ =>
          (* neither branch of the [if]/[elif]: nothing is called *)
          try_services cfg w request agent_type rest last_error m
      end
  end.

Definition send_message (cfg : Settings.t) (w : world) (request : AIRequest)
  (agent_type : string) (preferred_service : option AIService) (m : t)
  : ClaudeClient.call_outcome AIResponse * list AIService * t :=
  try_services cfg w request agent_type
    (services_to_try m preferred_service) None m.

(** *** One service on its own *)

(** How the client of service [svc] answers this logical call when it is
    called on the state it has in [m]; [None] when [m] has no such
    client. *)
Definition service_outcome (cfg : Settings.t) (w : world)
  (request : AIRequest) (agent_type : string) (m : t) (svc : AIService)
  : option (ClaudeClient.call_outcome AIResponse) :=
  match svc with
  | OPENAI =>
      match openai_client m with
      | None => None
      | Some oc =>
          match OpenAIClient.send_message cfg (openai_api w)
                  (openai_elapsed w) request oc with
          | (Normal response, _, _) => Some (ClaudeClient.Returned response)
          | (Throw e, _, _) => Some (ClaudeClient.Raised e)
          end
      end
  | CLAUDE =>
      match claude_client m with
      | None => None
      | Some cc =>
          match ClaudeClient.send_message cfg (claude_api w) (claude_model w)
                  (claude_clock w)
                  (ClaudeClient.mkRequest (messages request) (system request)
                     (max_tokens request) (temperature request) false)
                  agent_type cc with
          | (ClaudeClient.Returned r, _, _) =>
              Some (ClaudeClient.Returned (of_claude r))
          | (ClaudeClient.Raised e, _, _) => Some (ClaudeClient.Raised e)
          | (ClaudeClient.Blocked pt, _, _) => Some (ClaudeClient.Blocked pt)
          end
      end
  end.


(** The candidates before [svc] in the list, when [svc] is in it. *)
Fixpoint before (svc : AIService) (l : list AIService) : list AIService :=
  match l with
  | [] => []
  | x :: rest => if service_eqb x svc then [] else x :: before svc rest
  end.

(** *** An example: OpenAI is down, Claude answers *)

Definition a_request : AIRequest :=
  {| messages := [("user", "hello")]; system := None; max_tokens := 4096;
     temperature := 7 # 10; service := None |}.


Definition both_down : world :=
  {| openai_api := Backoff.always_fails;
     openai_elapsed := 3;
     claude_api := ClaudeClient.bad_provider;
     claude_model := "claude-3-5-sonnet-20241022";
     claude_clock := ClaudeClient.mkClock 0 0 1 |}.

End MultiAIClient.

(* ------------------------------------------------------------------ *)
(** ** [src/agents/base_agent.py]: the other methods of [BaseAgent] *)

Module AgentQueries.

Import Py Agent.

(** [get_result]: the [for result in self.results_history] loop with its
    early [return]. *)
Fixpoint get_result_loop (history : list AgentResult) (task_id : string)
  : option AgentResult :=
  match history with
  | [] => None
  | result :: rest =>
      if String.eqb (r_task_id result) task_id then Some result
      else get_result_loop rest task_id
  end.

Definition get_result (a : BaseAgent) (task_id : string) : option AgentResult :=
  get_result_loop (results_history a) task_id.

(** The slice [l[start:]] of Python: a negative [start] counts from the
    end, and both ends are clipped to the list. *)
Definition slice_from {A} (start : Z) (l : list A) : list A :=
  let len := Z.of_nat (List.length l) in
  let start :=
    if (start <? 0)%Z then Z.max (start + len) 0 else Z.min start len in
  skipn (Z.to_nat start) l.

(** [get_recent_results]: [self.results_history[-limit:]] *)
Definition get_recent_results (a : BaseAgent) (limit : Z) : list AgentResult :=
  slice_from (- limit)%Z (results_history a).

(** The dictionary [priority_multipliers] of [estimate_processing_time]. *)
Definition priority_multipliers (p : TaskPriority) : Q :=
  match p with
  | LOW => 8 # 10
  | MEDIUM => 1
  | HIGH => 13 # 10
  | CRITICAL => 15 # 10
  end.

(** [estimate_processing_time] *)
Definition estimate_processing_time (a : BaseAgent) (task : AgentTask) : Q :=
  if (total_tasks_completed a =? 0)%Z then 60%Q
  else
    let base_time :=
      (total_processing_time a / inject_Z (total_tasks_completed a))%Q in
    (base_time * priority_multipliers (priority task))%Q.

(** [status.value] *)
Definition status_value (s : AgentStatus) : string :=
  match s with
  | IDLE => "idle"
  | WORKING => "working"
  | COMPLETED => "completed"
  | ERROR => "error"
  | PAUSED => "paused"
  end.

(** [get_status], without the identity and the capabilities of the
    subclass. *)
Record status_report : Type := mkReport {
  rep_status : string;
  rep_current_task : option string;
  rep_queue_size : nat;
  rep_total_tasks_completed : Z;
  rep_success_rate : Q;
  rep_average_processing_time : Q;
  rep_average_quality_score : Q
}.

Definition get_status (a : BaseAgent) : status_report :=
  {| rep_status := status_value (status a);
     rep_current_task :=
       match current_task a with
       | Some task => Some (task_id task)
       | None => None
       end;
     rep_queue_size := List.length (task_queue a);
     rep_total_tasks_completed := total_tasks_completed a;
     rep_success_rate := success_rate a;
     rep_average_processing_time :=
       (total_processing_time a
        / inject_Z (Z.max (total_tasks_completed a) 1))%Q;
     rep_average_quality_score := average_quality_score a |}.

(** *** Vocabulary for the statements about runs *)

(** The coroutines that resumed, and those whose [_process_task] had
    returned. *)
Fixpoint finishes (evs : list event) : nat :=
  match evs with
  | [] => 0
  | ProcessFinish _ _ _ :: rest => S (finishes rest)
  | _ :: rest => finishes rest
  end.

Fixpoint normal_finishes (evs : list event) : nat :=
  match evs with
  | [] => 0
  | ProcessFinish _ (Normal _) _ :: rest => S (normal_finishes rest)
  | _ :: rest => normal_finishes rest
  end.

(** The time measured for the calls of [_process_task] that returned. *)
Fixpoint normal_elapsed (evs : list event) : Q :=
  match evs with
  | [] => 0%Q
  | ProcessFinish _ (Normal _) elapsed :: rest =>
      (elapsed + normal_elapsed rest)%Q
  | _ :: rest => normal_elapsed rest
  end.

(** The loop clock does not run backwards. *)
Fixpoint elapsed_nonneg (evs : list event) : Prop :=
  match evs with
  | [] => True
  | ProcessFinish _ _ elapsed :: rest => (0 <= elapsed)%Q /\ elapsed_nonneg rest
  | _ :: rest => elapsed_nonneg rest
  end.

(** Nobody calls [resume()]. *)
Fixpoint never_resumed (evs : list event) : Prop :=
  match evs with
  | [] => True
  | Resume :: _ => False
  | _ :: rest => never_resumed rest
  end.

(** Every dependency of [task] has a successful result in the history. *)
Definition dependencies_succeeded (a : BaseAgent) (task : AgentTask) : Prop :=
  forall d, In d (dependencies task) -> succeeded a d.

(** The tasks in the queue and the tasks being processed have their
    dependencies satisfied. *)
Definition gated (a : BaseAgent) : Prop :=
  Forall (dependencies_succeeded a) (task_queue a)
  /\ Forall (dependencies_succeeded a) (in_flight a).

(** At most one task is being processed, and it is [current_task]. *)
Definition single_flight (a : BaseAgent) : Prop :=
  match in_flight a with
  | [] => status a = IDLE /\ current_task a = None
  | [task] =>
      current_task a = Some task /\ (status a = WORKING \/ status a = PAUSED)
  | _ :: _ :: _ => False
  end.

(** Somebody looks after the agent's work: an agent that is not IDLE, or
    that has a [current_task], has a coroutine in flight; and while tasks
    are queued, a coroutine is in flight or a [_process_next_task] is
    scheduled. *)
Definition attended (a : BaseAgent) : Prop :=
  (status a <> IDLE -> in_flight a <> [])
  /\ (current_task a <> None -> in_flight a <> [])
  /\ (task_queue a <> [] -> in_flight a <> [] \/ 0 < scheduled a).

(** Two tasks are submitted; the first raises, the second returns after
    three time units. *)
Definition one_fails_one_returns : list event :=
  [AddTask (a_task "t" MEDIUM []); AddTask (a_task "u" HIGH ["t"]);
   AddTask (a_task "v" LOW []);
   ProcessStart; ProcessFinish 0 (Throw boom) 2;
   ProcessStart; ProcessFinish 0 (Normal (ok_result "v")) 3].

End AgentQueries.

(* ------------------------------------------------------------------ *)
(** ** [src/agents/base_agent.py]: [AgentPool] *)

Module AgentPool.

Import Py Agent.

(** An agent as the pool sees it: the [agent_type] given at construction
    and the state of the object. *)
Record PoolAgent : Type := mkPoolAgent {
  agent_type : string;
  agent : BaseAgent
}.

(** The pool keeps references to agent objects, whose state changes
    behind its back: a reference is a number, and the store gives the
    object it points to at the moment of a call. *)
Definition ref : Type := nat.
Definition store : Type := ref -> PoolAgent.

(** A [dict] with string keys, as its list of items in insertion order;
    assigning to a key that is present replaces the value in place. *)
Fixpoint dict_lookup {V} (d : list (string * V)) (key : string) : option V :=
  match d with
  | [] => None
  | (k, v) :: rest => if String.eqb k key then Some v else dict_lookup rest key
  end.

Fixpoint dict_set {V} (key : string) (value : V) (d : list (string * V))
  : list (string * V) :=
  match d with
  | [] => [(key, value)]
  | (k, v) :: rest =>
      if String.eqb k key then (key, value) :: rest
      else (k, v) :: dict_set key value rest
  end.

Record t : Type := mk {
  agents : list (string * ref);
  agent_types : list (string * list ref)
}.

(** [AgentPool.__init__] *)
Definition init : t := {| agents := []; agent_types := [] |}.

(** [register_agent] *)
Definition register_agent (s : store) (r : ref) (p : t) : t :=
  let agents := dict_set (agent_id (agent (s r))) r (agents p) in
  let agent_types :=
    match dict_lookup (agent_types p) (agent_type (s r)) with
    | None => dict_set (agent_type (s r)) [] (agent_types p)
    | Some _ => agent_types p
    end in
  let agent_types :=
    match dict_lookup agent_types (agent_type (s r)) with
    | Some l => dict_set (agent_type (s r)) (l ++ [r]) agent_types
    | None => agent_types
    end in
  mk agents agent_types.

(** [get_agent] *)
Definition get_agent (p : t) (id : string) : option ref :=
  dict_lookup (agents p) id.

(** [get_agents_by_type] *)
Definition get_agents_by_type (p : t) (ty : string) : list ref :=
  match dict_lookup (agent_types p) ty with
  | Some l => l
  | None => []
  end.

(** [agent.status == AgentStatus.IDLE and not agent.current_task] *)
Definition idle_and_free (a : BaseAgent) : bool :=
  status_eqb (status a) IDLE && is_none (current_task a).

(** The first loop of [get_available_agent]. *)
Fixpoint first_idle (s : store) (l : list ref) : option ref :=
  match l with
  | [] => None
  | r :: rest =>
      if idle_and_free (agent (s r)) then Some r else first_idle s rest
  end.

(** [min(rest, key=key)] started from [best]: the first of the smallest. *)
Fixpoint min_by (key : ref -> nat) (best : ref) (rest : list ref) : ref :=
  match rest with
  | [] => best
  | r :: rest' =>
      if key r <? key best then min_by key r rest' else min_by key best rest'
  end.

Definition queue_length (s : store) (r : ref) : nat :=
  List.length (task_queue (agent (s r))).

(** [get_available_agent] *)
Definition get_available_agent (s : store) (p : t) (ty : string) : option ref :=
  let agents := get_agents_by_type p ty in
  match first_idle s agents with
  | Some r => Some r
  | None =>
      match agents with
      | [] => None
      | r :: rest => Some (min_by (queue_length s) r rest)
      end
  end.

(** [get_pool_status] *)

(** The dictionary [overall_stats], with its four keys. *)
Record overall : Type := mkOverall {
  o_idle : nat;
  o_working : nat;
  o_paused : nat;
  o_error : nat
}.

(** [status["overall_stats"][agent.status.value] += 1] *)
Definition bump (st : AgentStatus) (o : overall) : completion overall :=
  match st with
  | IDLE => Normal (mkOverall (S (o_idle o)) (o_working o) (o_paused o) (o_error o))
  | WORKING => Normal (mkOverall (o_idle o) (S (o_working o)) (o_paused o) (o_error o))
  | PAUSED => Normal (mkOverall (o_idle o) (o_working o) (S (o_paused o)) (o_error o))
  | ERROR => Normal (mkOverall (o_idle o) (o_working o) (o_paused o) (S (o_error o)))
  | COMPLETED => Throw (Exn "KeyError" "'completed'")
  end.

(** The inner [for agent in agents] loop. *)
Fixpoint bump_all (s : store) (l : list ref) (o : overall) : completion overall :=
  match l with
  | [] => Normal o
  | r :: rest =>
      match bump (status (agent (s r))) o with
      | Normal o' => bump_all s rest o'
      | Throw e => Throw e
      end
  end.

Record type_status : Type := mkTypeStatus {
  ts_count : nat;
  ts_idle : nat;
  ts_working : nat;
  ts_average_queue_size : Q
}.

Definition count_status (s : store) (st : AgentStatus) (l : list ref) : nat :=
  List.length (filter (fun r => status_eqb (status (agent (s r))) st) l).

Definition total_queue (s : store) (l : list ref) : nat :=
  fold_right (fun r n => queue_length s r + n) 0 l.

(** The dictionary [type_status] of one agent type; the division is by
    [len(agents)]. *)
Definition status_of_type (s : store) (l : list ref) : completion type_status :=
  match l with
  | [] => Throw (Exn "ZeroDivisionError" "division by zero")
  | _ :: _ =>
      Normal {| ts_count := List.length l;
                ts_idle := count_status s IDLE l;
                ts_working := count_status s WORKING l;
                ts_average_queue_size :=
                  (inject_Z (Z.of_nat (total_queue s l))
                   / inject_Z (Z.of_nat (List.length l)))%Q |}
  end.

Record pool_status : Type := mkPoolStatus {
  total_agents : nat;
  by_type : list (string * type_status);
  overall_stats : overall
}.

(** The [for agent_type, agents in self.agent_types.items()] loop. *)
Fixpoint status_loop (s : store) (types : list (string * list ref))
  (by_type : list (string * type_status)) (o : overall)
  : completion (list (string * type_status) * overall) :=
  match types with
  | [] => Normal (by_type, o)
  | (ty, l) :: rest =>
      match status_of_type s l with
      | Throw e => Throw e
      | Normal ts =>
          match bump_all s l o with
          | Throw e => Throw e
          | Normal o' => status_loop s rest (by_type ++ [(ty, ts)]) o'
          end
      end
  end.

Definition get_pool_status (s : store) (p : t) : completion pool_status :=
  match status_loop s (agent_types p) [] (mkOverall 0 0 0 0) with
  | Throw e => Throw e
  | Normal (by_type, o) =>
      Normal {| total_agents := List.length (agents p);
                by_type := by_type;
                overall_stats := o |}
  end.

(** *** Vocabulary for the statements *)

(** The pool after the agents behind [refs] were registered in order. *)
Definition registered (s : store) (refs : list ref) : t :=
  fold_left (fun p r => register_agent s r p) refs init.

Definition has_type (s : store) (ty : string) (r : ref) : bool :=
  String.eqb (agent_type (s r)) ty.

Definition has_id (s : store) (id : string) (r : ref) : bool :=
  String.eqb (agent_id (agent (s r))) id.

(** The last element of [l] that satisfies [f]. *)
Fixpoint find_last {A} (f : A -> bool) (l : list A) : option A :=
  match l with
  | [] => None
  | x :: rest =>
      match find_last f rest with
      | Some y => Some y
      | None => if f x then Some x else None
      end
  end.

Definition overall_total (o : overall) : nat :=
  o_idle o + o_working o + o_paused o + o_error o.

(** Three geometry agents: a busy one with two queued tasks, a busy one
    with one, an idle one; and a material agent. *)
Definition busy (id : string) (queue : list AgentTask) : BaseAgent :=
  set_task_queue queue
    (set_status WORKING
       (set_current_task (Some (a_task "running" MEDIUM [])) (Agent.init id))).

Definition example_store : store :=
  fun r =>
    match r with
    | 0 => mkPoolAgent "geometry"
             (busy "g0" [a_task "a" LOW []; a_task "b" LOW []])
    | 1 => mkPoolAgent "geometry" (busy "g1" [a_task "c" LOW []])
    | 2 => mkPoolAgent "geometry" (Agent.init "g2")
    | _ => mkPoolAgent "material" (busy "m0" [])
    end.

End AgentPool.

(* ------------------------------------------------------------------ *)
(** ** [src/config/settings.py]: [get_agent_config], and the request
       parameters of [ClaudeClient._make_request] *)

Module RequestParams.

Import Py.

(** The Claude settings that [get_agent_config] reads. *)
Record claude_settings : Type := mkClaude {
  claude_model : string;
  claude_max_tokens : Z;
  claude_temperature : Q;
  claude_timeout : Z
}.

(** The defaults of the class [Settings]. *)
Definition default : claude_settings :=
  {| claude_model := "claude-3-5-sonnet-20241022";
     claude_max_tokens := 4096;
     claude_temperature := 7 # 10;
     claude_timeout := 60 |}.

(** The dictionary that [get_agent_config] returns, without the key. *)
Record agent_config : Type := mkConfig {
  model : string;
  max_tokens : Z;
  temperature : Q;
  timeout : Z
}.

(** [{**base_config, "max_tokens": v}] and [{**base_config, "temperature": v}] *)
Definition with_max_tokens (v : Z) (c : agent_config) : agent_config :=
  mkConfig (model c) v (temperature c) (timeout c).

Definition with_temperature (v : Q) (c : agent_config) : agent_config :=
  mkConfig (model c) (max_tokens c) v (timeout c).

(** [get_agent_config] *)
Definition get_agent_config (st : claude_settings) (agent_type : string)
  : agent_config :=
  let base_config :=
    mkConfig (claude_model st) (claude_max_tokens st) (claude_temperature st)
      (claude_timeout st) in
  let agent_configs :=
    [("master_coordinator",
      with_temperature (5 # 10) (with_max_tokens 8192 base_config));
     ("geometry_agent", with_temperature (3 # 10) base_config);
     ("material_agent", with_temperature (8 # 10) base_config);
     ("detail_agent", with_temperature (9 # 10) base_config);
     ("rigging_agent", with_temperature (2 # 10) base_config);
     ("integration_agent", with_temperature (1 # 10) base_config)] in
  match AgentPool.dict_lookup agent_configs agent_type with
  | Some config => config
  | None => base_config
  end.

(** The dictionary [params] of [_make_request]; [system] is absent when
    the request has none. *)
Record params : Type := mkParams {
  p_model : string;
  p_max_tokens : Z;
  p_temperature : Q;
  p_messages : list (string * string);
  p_system : option string
}.

(** [a or b]: [b] when [a] is zero. *)
Definition or_int (a b : Z) : Z := if (a =? 0)%Z then b else a.

Definition or_float (a b : Q) : Q := if Qeq_bool a 0 then b else a.

(** The truth value of an [Optional[str]]. *)
Definition truthy (s : option string) : bool :=
  match s with
  | None => false
  | Some EmptyString => false
  | Some (String _ _) => true
  end.

Definition build_params (st : claude_settings)
  (request : ClaudeClient.ClaudeRequest) (agent_type : string) : params :=
  let agent_config := get_agent_config st agent_type in
  {| p_model := model agent_config;
     p_max_tokens :=
       or_int (ClaudeClient.max_tokens request) (max_tokens agent_config);
     p_temperature :=
       or_float (ClaudeClient.temperature request) (temperature agent_config);
     p_messages := ClaudeClient.messages request;
     p_system :=
       if truthy (ClaudeClient.system request)
       then ClaudeClient.system request
       else None |}.

(** A request that asks for temperature 0. *)
Definition deterministic_request : ClaudeClient.ClaudeRequest :=
  ClaudeClient.mkRequest [("user", "hello")] (Some "") 0 0 false.

End RequestParams.

(* ------------------------------------------------------------------ *)
(** ** [src/api/claude_client.py]: what a stream delivers *)

Module ClaudeStream.

Import ClaudeClient.

(** The texts of the [content_block_delta] chunks, in order. *)
Fixpoint delta_texts (chunks : list chunk) : list string :=
  match chunks with
  | [] => []
  | ContentBlockDelta text :: rest => text :: delta_texts rest
  | _ :: rest => delta_texts rest
  end.

(** The token count of the last [message_start] chunk, and of the last
    [message_delta] chunk; [default] when there is none. *)
Fixpoint last_input_tokens (chunks : list chunk) (default : Z) : Z :=
  match chunks with
  | [] => default
  | MessageStart n :: rest => last_input_tokens rest n
  | _ :: rest => last_input_tokens rest default
  end.

Fixpoint last_output_tokens (chunks : list chunk) (default : Z) : Z :=
  match chunks with
  | [] => default
  | MessageDelta n :: rest => last_output_tokens rest n
  | _ :: rest => last_output_tokens rest default
  end.

(** A stream of two deltas with its usage chunks. *)
Definition a_stream : list chunk :=
  [MessageStart 12; ContentBlockDelta "Hel"; OtherChunk;
   ContentBlockDelta "lo"; MessageDelta 2; MessageDelta 7].

End ClaudeStream.

(** The default settings with no attempt allowed. *)
Module EdgeSettings.

Definition no_attempts : Settings.t :=
  Settings.mk "openai" "claude" 5 100 0 1.

End EdgeSettings.

(* ------------------------------------------------------------------ *)
(** ** [src/api/multi_ai_client.py]: the queries of [MultiAIClient] *)

Module MultiAIQueries.

Import Py AI MultiAIClient.

(** [get_available_services] *)
Definition get_available_services (m : t) : list AIService :=
  let services := [] in
  let services :=
    if is_some (openai_client m) then services ++ [OPENAI] else services in
  if is_some (claude_client m) then services ++ [CLAUDE] else services.

(** The dictionary [service_preferences]. *)
Definition service_preferences : list (string * AIService) :=
  [("master_coordinator", OPENAI);
   ("geometry_agent", OPENAI);
   ("material_agent", CLAUDE);
   ("detail_agent", CLAUDE);
   ("rigging_agent", OPENAI);
   ("integration_agent", OPENAI)].

(** [self.service_priority[0] if self.service_priority else AIService.OPENAI] *)
Definition first_by_priority (m : t) : AIService :=
  match service_priority m with
  | s :: _ => s
  | [] => OPENAI
  end.

(** [get_optimal_service_for_agent] *)
Definition get_optimal_service_for_agent (m : t) (agent_type : string)
  : AIService :=
  match AgentPool.dict_lookup service_preferences agent_type with
  | Some preferred_service =>
      if _is_service_available m preferred_service then preferred_service
      else first_by_priority m
  | None => first_by_priority m
  end.

(** The service named by a setting, when it names one. *)
Definition service_named (name : string) : option AIService :=
  if String.eqb name "openai" then Some OPENAI
  else if String.eqb name "claude" then Some CLAUDE
  else None.

End MultiAIQueries.

(* ================================================================== *)
(** * Part II.  Properties                                             *)
(* ================================================================== *)

(** ** The agent's queue *)

Section AgentQueue.

Import Py Agent.

Lemma priority_eqb_eq (p q : TaskPriority) : priority_eqb p q = true <-> p = q.
Proof. destruct p, q; simpl; split; congruence. Qed.

Lemma priority_order_inj (p q : TaskPriority) :
  priority_order p = priority_order q -> p = q.
Proof. destruct p, q; simpl; congruence. Qed.

Lemma status_eqb_eq (s u : AgentStatus) : status_eqb s u = true <-> s = u.
Proof. destruct s, u; simpl; split; congruence. Qed.

(** The loop stops at the first task of strictly lower priority. *)
Lemma find_insert_index_split (tp : nat) (queue : list AgentTask) (i : nat) :
  exists before after,
    queue = before ++ after
    /\ find_insert_index tp queue i = i + List.length before
    /\ Forall (fun u => rank u <= tp) before
    /\ match after with
       | [] => True
       | u :: _ => tp < rank u
       end.
Proof.
  revert i. induction queue as [|x queue IH]; intro i; simpl.
  - exists [], []. simpl. repeat split; auto.
  - destruct (tp <? priority_order (priority x)) eqn:E.
    + exists [], (x :: queue). simpl. repeat split; auto.
      apply Nat.ltb_lt in E. exact E.
    + destruct (IH (S i)) as (before & after & Hq & Hidx & Hb & Ha).
      exists (x :: before), after. simpl. repeat split.
      * now rewrite Hq.
      * rewrite Hidx. lia.
      * constructor; [|exact Hb]. apply Nat.ltb_ge in E. exact E.
      * exact Ha.
Qed.

Lemma list_insert_app {A} (x : A) (before after : list A) :
  list_insert (List.length before) x (before ++ after) = before ++ x :: after.
Proof.
  unfold list_insert.
  rewrite firstn_app, Nat.sub_diag, firstn_all. simpl. rewrite app_nil_r.
  rewrite skipn_app, Nat.sub_diag, skipn_all. reflexivity.
Qed.

Lemma insert_by_priority_split (task : AgentTask) (queue : list AgentTask) :
  exists before after,
    queue = before ++ after
    /\ insert_by_priority task queue = before ++ task :: after
    /\ Forall (fun u => rank u <= rank task) before
    /\ match after with
       | [] => True
       | u :: _ => rank task < rank u
       end.
Proof.
  destruct (find_insert_index_split (rank task) queue 0)
    as (before & after & Hq & Hidx & Hb & Ha).
  exists before, after. repeat split; auto.
  unfold insert_by_priority. fold (rank task). rewrite Hidx. simpl.
  rewrite Hq. apply list_insert_app.
Qed.

Lemma priority_sorted_app (l1 l2 : list AgentTask) :
  priority_sorted (l1 ++ l2) <->
  priority_sorted l1 /\ priority_sorted l2
  /\ Forall (fun t => Forall (fun u => rank t <= rank u) l2) l1.
Proof.
  induction l1 as [|x l1 IH]; simpl.
  - intuition auto.
  - rewrite Forall_app, IH. split.
    + intros ((H1 & H2) & H3 & H4 & H5). repeat split; auto.
    + intros ((H1 & H2) & H3 & H4). inversion H4; subst. repeat split; auto.
Qed.

Lemma priority_sorted_tail_ge (x : AgentTask) (l : list AgentTask) (n : nat) :
  priority_sorted (x :: l) -> n <= rank x -> Forall (fun u => n <= rank u) (x :: l).
Proof.
  simpl. intros [H _] Hn. constructor; [exact Hn|].
  eapply Forall_impl; [|exact H]. simpl. intros u Hu. unfold rank in *. lia.
Qed.

Lemma insert_by_priority_sorted (task : AgentTask) (queue : list AgentTask) :
  priority_sorted queue -> priority_sorted (insert_by_priority task queue).
Proof.
  intro Hs.
  destruct (insert_by_priority_split task queue)
    as (before & after & Hq & Hins & Hb & Ha).
  rewrite Hins. subst queue.
  apply priority_sorted_app in Hs. destruct Hs as (Hs1 & Hs2 & Hs3).
  assert (Hafter : Forall (fun u => rank task <= rank u) after).
  { destruct after as [|u after]; [constructor|].
    apply priority_sorted_tail_ge; [exact Hs2 | lia]. }
  apply priority_sorted_app. repeat split; auto.
  rewrite Forall_forall in *. intros t Ht. constructor.
  - apply Hb. exact Ht.
  - apply Hs3. exact Ht.
Qed.

Lemma has_priority_rank (p : TaskPriority) (t : AgentTask) :
  has_priority p t = true <-> rank t = priority_order p.
Proof.
  unfold has_priority, rank. rewrite priority_eqb_eq. split.
  - now intros ->.
  - apply priority_order_inj.
Qed.

Lemma filter_has_priority_nil (p : TaskPriority) (l : list AgentTask) :
  Forall (fun v => rank v <> priority_order p) l ->
  filter (has_priority p) l = [].
Proof.
  induction 1 as [|v l Hv _ IH]; [reflexivity|].
  simpl. destruct (has_priority p v) eqn:Ev; [|exact IH].
  apply has_priority_rank in Ev. contradiction.
Qed.

(** Stability: within its own priority class the new task comes last, and
    the other classes are untouched. *)
Lemma insert_by_priority_filter (p : TaskPriority) (task : AgentTask)
  (queue : list AgentTask) :
  priority_sorted queue ->
  filter (has_priority p) (insert_by_priority task queue)
  = filter (has_priority p) queue ++ filter (has_priority p) [task].
Proof.
  intro Hs.
  destruct (insert_by_priority_split task queue)
    as (before & after & Hq & Hins & Hb & Ha).
  rewrite Hins. subst queue. rewrite !filter_app.
  change (task :: after) with ([task] ++ after). rewrite filter_app.
  rewrite <- app_assoc. f_equal.
  destruct (has_priority p task) eqn:E; simpl; rewrite E; simpl.
  - (* nothing behind the insertion point has the task's priority *)
    assert (Hnone : filter (has_priority p) after = []).
    { apply priority_sorted_app in Hs. destruct Hs as (_ & Hs2 & _).
      destruct after as [|u after]; [reflexivity|].
      assert (Hall : Forall (fun v => S (rank task) <= rank v) (u :: after))
        by (apply priority_sorted_tail_ge; [exact Hs2 | lia]).
      apply has_priority_rank in E.
      apply filter_has_priority_nil.
      eapply Forall_impl; [|exact Hall]. simpl. intros v Hv. lia. }
    rewrite Hnone. reflexivity.
  - now rewrite app_nil_r.
Qed.

Lemma add_task_eq (task : AgentTask) (a : BaseAgent) :
  add_task task a =
  if dependencies_met task a then (Normal true, enqueue task a)
  else (Normal false, a).
Proof.
  unfold add_task, try_except, bind, _check_dependencies, dependencies_met,
    enqueue, _insert_task_by_priority, create_task_process_next, get, modify, ret.
  destruct (dependencies task) as [|d deps] eqn:Ed; simpl.
  - destruct (status_eqb (status a) IDLE && is_none (current_task a)); reflexivity.
  - destruct (negb (mem d _)); simpl; [reflexivity|].
    destruct (dependencies_loop deps _); simpl; [|reflexivity].
    destruct (status_eqb (status a) IDLE && is_none (current_task a)); reflexivity.
Qed.

Lemma enqueue_task_queue (task : AgentTask) (a : BaseAgent) :
  task_queue (enqueue task a) = insert_by_priority task (task_queue a).
Proof.
  unfold enqueue. simpl.
  destruct (status_eqb (status a) IDLE && is_none (current_task a)); reflexivity.
Qed.

(** [_process_next_task], first segment, in closed form. *)
Lemma process_begin_eq (a : BaseAgent) :
  _process_next_task_begin a =
  match task_queue a with
  | [] => (Normal None, a)
  | task :: rest =>
      if status_eqb (status a) IDLE
      then (Normal (Some task),
            set_status WORKING (set_current_task (Some task) (set_task_queue rest a)))
      else (Normal None, a)
  end.
Proof.
  unfold _process_next_task_begin, bind, get, modify, ret.
  destruct (task_queue a); [reflexivity|].
  destruct (status_eqb (status a) IDLE); reflexivity.
Qed.

End AgentQueue.

(** ** The agent under the event loop *)

Section AgentRuns.

Import Py Agent.

Lemma update_statistics_frame (result : AgentResult) (a : BaseAgent) :
  let a' := update_statistics result a in
  agent_id a' = agent_id a /\ status a' = status a
  /\ current_task a' = current_task a /\ task_queue a' = task_queue a
  /\ results_history a' = results_history a /\ scheduled a' = scheduled a
  /\ in_flight a' = in_flight a.
Proof.
  unfold update_statistics.
  destruct (truthy (processing_time result)), (processing_time result);
    simpl; destruct (quality_scores (results_history a)); simpl; repeat split.
Qed.

Lemma process_resume_eq (task : AgentTask) (awaited : completion AgentResult)
  (elapsed : Q) (a : BaseAgent) :
  _process_next_task_resume task awaited elapsed a
  = (Normal tt, back_to_idle (record_outcome task awaited elapsed a)).
Proof.
  unfold _process_next_task_resume, try_finally, try_except, bind, await, get,
    modify, ret, append_result, _update_statistics, create_task_process_next,
    back_to_idle, record_outcome.
  destruct awaited as [result|e]; simpl.
  - destruct (update_statistics_frame
                (with_timing elapsed (agent_id a) result)
                (set_results_history
                   (results_history a
                    ++ [with_timing elapsed (agent_id a) result]) a))
      as (_ & _ & _ & Hq & _).
    simpl in Hq.
    destruct (task_queue (update_statistics _ _)); reflexivity.
  - destruct (task_queue a); reflexivity.
Qed.

Lemma record_outcome_frame (task : AgentTask) (awaited : completion AgentResult)
  (elapsed : Q) (a : BaseAgent) :
  let a' := record_outcome task awaited elapsed a in
  agent_id a' = agent_id a /\ status a' = status a
  /\ current_task a' = current_task a /\ task_queue a' = task_queue a
  /\ scheduled a' = scheduled a /\ in_flight a' = in_flight a.
Proof.
  destruct awaited as [result|e]; simpl.
  - destruct (update_statistics_frame
                (with_timing elapsed (agent_id a) result)
                (set_results_history
                   (results_history a
                    ++ [with_timing elapsed (agent_id a) result]) a))
      as (H1 & H2 & H3 & H4 & _ & H6 & H7).
    repeat split; assumption.
  - repeat split.
Qed.

Lemma back_to_idle_fields (a : BaseAgent) :
  let a' := back_to_idle a in
  status a' = IDLE /\ current_task a' = None /\ task_queue a' = task_queue a
  /\ results_history a' = results_history a
  /\ scheduled a' = (match task_queue a with [] => 0 | _ :: _ => 1 end) + scheduled a.
Proof.
  unfold back_to_idle. destruct a as [? ? ? queue ? ? ? ? ? ? ?]. simpl.
  destruct queue; simpl; auto 10.
Qed.

Lemma pause_eq (a : BaseAgent) :
  pause a = (Normal tt,
             if status_eqb (status a) WORKING then set_status PAUSED a else a).
Proof.
  unfold pause, bind, get, modify, ret.
  destruct (status_eqb (status a) WORKING); reflexivity.
Qed.

Lemma resume_eq (a : BaseAgent) :
  resume a = (Normal tt,
              if status_eqb (status a) PAUSED
              then
                let a1 := set_status IDLE a in
                match task_queue a1 with
                | [] => a1
                | _ :: _ =>
                    if is_none (current_task a1)
                    then set_scheduled (S (scheduled a1)) a1
                    else a1
                end
              else a).
Proof.
  unfold resume, bind, get, modify, ret, create_task_process_next.
  destruct (status_eqb (status a) PAUSED); [|reflexivity].
  simpl. destruct (task_queue a); [reflexivity|].
  destruct (is_none (current_task a)); reflexivity.
Qed.

(** No method of the agent lets an exception escape. *)
Lemma step_normal (ev : event) (a : BaseAgent) c a' :
  step ev a = Some (c, a') -> exists o, c = Normal o.
Proof.
  destruct ev as [task| |i awaited elapsed| |]; simpl.
  - rewrite add_task_eq. destruct (dependencies_met task a);
      intro H; inversion H; eauto.
  - destruct (scheduled a) as [|n]; [discriminate|].
    rewrite process_begin_eq. simpl.
    destruct (task_queue a); [intro H; inversion H; eauto|].
    destruct (status_eqb (status a) IDLE); intro H; inversion H; eauto.
  - destruct (nth_error (in_flight a) i); [|discriminate].
    rewrite process_resume_eq. intro H; inversion H; eauto.
  - rewrite pause_eq. intro H; inversion H; eauto.
  - rewrite resume_eq. intro H; inversion H; eauto.
Qed.

(** What one event does to the queue. *)
Lemma step_queue (ev : event) (a : BaseAgent) o a' :
  step ev a = Some (Normal o, a') ->
  (exists task, o = Accepted task true
                /\ task_queue a' = insert_by_priority task (task_queue a))
  \/ (exists task, o = Dequeued (Some task)
                   /\ task_queue a = task :: task_queue a')
  \/ (task_queue a' = task_queue a /\ accepted [o] = [] /\ dequeued [o] = []).
Proof.
  destruct ev as [task| |i awaited elapsed| |]; simpl.
  - rewrite add_task_eq. destruct (dependencies_met task a);
      intro H; inversion H; subst.
    + left. exists task. split; [reflexivity|apply enqueue_task_queue].
    + right; right. repeat split.
  - destruct (scheduled a) as [|n]; [discriminate|].
    rewrite process_begin_eq. simpl.
    destruct (task_queue a) as [|task rest] eqn:Eq.
    + intro H; inversion H; subst. right; right. simpl. repeat split. exact Eq.
    + destruct (status_eqb (status a) IDLE); intro H; inversion H; subst.
      * right; left. exists task. split; reflexivity.
      * right; right. simpl. repeat split. exact Eq.
  - destruct (nth_error (in_flight a) i) as [task|]; [|discriminate].
    rewrite process_resume_eq. intro H; inversion H; subst.
    right; right. repeat split.
    destruct (back_to_idle_fields
                (record_outcome task awaited elapsed
                   (set_in_flight (remove_nth i (in_flight a)) a)))
      as (_ & _ & Hq & _).
    rewrite Hq.
    destruct (record_outcome_frame task awaited elapsed
                (set_in_flight (remove_nth i (in_flight a)) a))
      as (_ & _ & _ & Hq' & _).
    rewrite Hq'. reflexivity.
  - rewrite pause_eq. intro H; inversion H; subst.
    right; right. repeat split.
    destruct (status_eqb (status a) WORKING); reflexivity.
  - rewrite resume_eq. intro H; inversion H; subst.
    right; right. repeat split.
    destruct a as [? st cur queue ? ? ? ? ? ? ?]; simpl.
    destruct (status_eqb st PAUSED); [|reflexivity]. simpl.
    destruct queue; [reflexivity|]. simpl.
    destruct (is_none cur); reflexivity.
Qed.

Lemma accepted_cons (o : observation) (log : list observation) :
  accepted (o :: log) = accepted [o] ++ accepted log.
Proof.
  destruct o as [task [|]| | |]; reflexivity.
Qed.

Lemma dequeued_cons (o : observation) (log : list observation) :
  dequeued (o :: log) = dequeued [o] ++ dequeued log.
Proof.
  destruct o as [|[task|]| |]; reflexivity.
Qed.

(** Along a run the queue stays sorted, and in every priority class the
    tasks dequeued so far followed by those still queued are the tasks
    that were queued at the start followed by those accepted since. *)
Lemma run_queue (evs : list event) :
  forall a0 log a,
    run evs a0 = Some (log, a) ->
    priority_sorted (task_queue a0) ->
    priority_sorted (task_queue a)
    /\ forall p,
         filter (has_priority p) (dequeued log ++ task_queue a)
         = filter (has_priority p) (task_queue a0 ++ accepted log).
Proof.
  induction evs as [|ev evs IH]; intros a0 log a Hrun Hs; simpl in Hrun.
  - inversion Hrun; subst. simpl. split; [exact Hs|].
    intro p. now rewrite app_nil_r.
  - destruct (step ev a0) as [[[o|e] a1]|] eqn:Estep; try discriminate.
    destruct (run evs a1) as [[log1 a2]|] eqn:Erun; [|discriminate].
    inversion Hrun; subst. clear Hrun.
    rewrite accepted_cons, dequeued_cons.
    destruct (step_queue _ _ _ _ Estep)
      as [(task & -> & Hq) | [(task & -> & Hq) | (Hq & Ea & Ed)]].
    + assert (Hs1 : priority_sorted (task_queue a1))
        by (rewrite Hq; now apply insert_by_priority_sorted).
      destruct (IH _ _ _ Erun Hs1) as (Hsorted & Hclass).
      split; [exact Hsorted|]. intro p. simpl.
      rewrite Hclass, Hq, !filter_app, insert_by_priority_filter by exact Hs.
      rewrite <- app_assoc. simpl.
      destruct (has_priority p task); reflexivity.
    + assert (Hs1 : priority_sorted (task_queue a1))
        by (rewrite Hq in Hs; simpl in Hs; tauto).
      destruct (IH _ _ _ Erun Hs1) as (Hsorted & Hclass).
      split; [exact Hsorted|]. intro p.
      specialize (Hclass p). rewrite Hq. simpl.
      destruct (has_priority p task); simpl; now rewrite Hclass.
    + assert (Hs1 : priority_sorted (task_queue a1)) by (now rewrite Hq).
      destruct (IH _ _ _ Erun Hs1) as (Hsorted & Hclass).
      split; [exact Hsorted|]. intro p.
      rewrite Ea, Ed. simpl. now rewrite Hclass, Hq.
Qed.

(** C1.  For every run of an agent from its construction: the queue is
    ordered by priority, CRITICAL first; in every priority class the tasks
    dequeued so far followed by the tasks still queued are exactly the
    accepted tasks of that class in submission order; a task that
    [add_task] accepts is placed immediately before the first queued task
    of strictly lower priority, behind every task of the same or higher
    priority; and [_process_next_task] takes the task at the front of the
    queue, whose priority no remaining task exceeds. *)
Theorem queue_priority_major_insertion_minor
  (id : string) (evs : list event) (log : list observation) (a : BaseAgent) :
  run evs (init id) = Some (log, a) ->
  priority_sorted (task_queue a)
  /\ (forall p,
        filter (has_priority p) (dequeued log ++ task_queue a)
        = filter (has_priority p) (accepted log))
  /\ (forall task a',
        add_task task a = (Normal true, a') ->
        exists before after,
          task_queue a = before ++ after
          /\ task_queue a' = before ++ task :: after
          /\ Forall (fun u => rank u <= rank task) before
          /\ match after with
             | [] => True
             | u :: _ => rank task < rank u
             end)
  /\ (forall task a',
        _process_next_task_begin a = (Normal (Some task), a') ->
        task_queue a = task :: task_queue a'
        /\ Forall (fun u => rank task <= rank u) (task_queue a')).
Proof.
  intro Hrun.
  destruct (run_queue _ _ _ _ Hrun) as (Hsorted & Hclass); [exact I|].
  split; [exact Hsorted|]. split; [exact Hclass|]. split.
  - intros task a' Hadd. rewrite add_task_eq in Hadd.
    destruct (dependencies_met task a); [|discriminate].
    inversion Hadd; subst. rewrite enqueue_task_queue.
    destruct (insert_by_priority_split task (task_queue a))
      as (before & after & H1 & H2 & H3 & H4).
    exists before, after. repeat split; assumption.
  - intros task a' Hbegin. rewrite process_begin_eq in Hbegin.
    destruct (task_queue a) as [|t rest] eqn:Eq; [discriminate|].
    destruct (status_eqb (status a) IDLE); [|discriminate].
    inversion Hbegin; subst. simpl. split; [reflexivity|].
    simpl in Hsorted. tauto.
Qed.

End AgentRuns.

Section AgentClaims.

Import Py Agent.

(** The example of the specification: LOW "a", HIGH "b", MEDIUM "c" are
    submitted, then processed one after the other; they leave the queue
    in the order b, c, a. *)
Lemma queue_priority_major_insertion_minor_witness :
  exists log a,
    run three_priorities (init "agent") = Some (log, a)
    /\ dequeued log
       = [a_task "b" HIGH []; a_task "c" MEDIUM []; a_task "a" LOW []]
    /\ priority_sorted (task_queue a).
Proof.
  eexists. eexists. split; [vm_compute; reflexivity|].
  split; [reflexivity|].
  refine (proj1 (queue_priority_major_insertion_minor "agent"
                   three_priorities _ _ _)).
  vm_compute. reflexivity.
Defined.

(** *** Dependency gating *)

Lemma mem_completed_tasks (d : string) (history : list AgentResult) :
  mem d (completed_tasks history) = true
  <-> exists r, In r history /\ r_task_id r = d /\ success r = true.
Proof.
  unfold mem, completed_tasks. rewrite existsb_exists. split.
  - intros (x & Hin & Heq). apply String.eqb_eq in Heq. subst x.
    apply in_map_iff in Hin. destruct Hin as (r & Hid & Hr).
    apply filter_In in Hr. destruct Hr as (Hr & Hs).
    exists r. auto.
  - intros (r & Hin & Hid & Hs). exists d. split; [|apply String.eqb_refl].
    apply in_map_iff. exists r. split; [exact Hid|].
    apply filter_In. auto.
Qed.

Lemma dependencies_loop_true (deps completed : list string) :
  dependencies_loop deps completed = true
  <-> forall d, In d deps -> mem d completed = true.
Proof.
  induction deps as [|x deps IH]; simpl.
  - split; [intros _ d []|reflexivity].
  - destruct (mem x completed) eqn:E; simpl.
    + rewrite IH. split.
      * intros H d [<-|Hd]; auto.
      * intros H d Hd. apply H. now right.
    + split; [discriminate|]. intro H.
      rewrite (H x) in E; [discriminate|now left].
Qed.

Lemma dependencies_met_iff (task : AgentTask) (a : BaseAgent) :
  dependencies_met task a = true
  <-> forall d, In d (dependencies task) -> succeeded a d.
Proof.
  unfold dependencies_met, succeeded. rewrite dependencies_loop_true.
  split; intros H d Hd; apply mem_completed_tasks; auto.
Qed.

(** C2.  [add_task] returns [False] and leaves the agent as it was when
    some dependency of the task is not the [task_id] of a successful
    result in the history; it returns [True] with the task in the queue,
    at its priority position, when every dependency is. *)
Theorem add_task_dependency_gate (task : AgentTask) (a : BaseAgent) :
  ((exists d, In d (dependencies task) /\ ~ succeeded a d) ->
   add_task task a = (Normal false, a))
  /\ ((forall d, In d (dependencies task) -> succeeded a d) ->
      exists a',
        add_task task a = (Normal true, a')
        /\ task_queue a' = insert_by_priority task (task_queue a)
        /\ In task (task_queue a')
        /\ results_history a' = results_history a).
Proof.
  rewrite add_task_eq. split.
  - intros (d & Hd & Hnot).
    destruct (dependencies_met task a) eqn:E; [|reflexivity].
    exfalso. apply Hnot. now apply (proj1 (dependencies_met_iff task a) E).
  - intro Hall. apply dependencies_met_iff in Hall. rewrite Hall.
    exists (enqueue task a). split; [reflexivity|].
    rewrite enqueue_task_queue. split; [reflexivity|]. split.
    + destruct (insert_by_priority_split task (task_queue a))
        as (before & after & _ & -> & _).
      apply in_or_app. right. now left.
    + unfold enqueue. simpl.
      destruct (status_eqb (status a) IDLE && is_none (current_task a));
        reflexivity.
Qed.

(** The example of the specification: a task that depends on "x" is
    refused by a fresh agent and accepted once "x" has succeeded. *)
Lemma add_task_dependency_gate_witness :
  exists log after_x,
    run x_succeeds (init "agent") = Some (log, after_x)
    /\ add_task (a_task "T" MEDIUM ["x"]) (init "agent")
       = (Normal false, init "agent")
    /\ exists a',
         add_task (a_task "T" MEDIUM ["x"]) after_x = (Normal true, a')
         /\ task_queue a'
            = insert_by_priority (a_task "T" MEDIUM ["x"]) (task_queue after_x)
         /\ In (a_task "T" MEDIUM ["x"]) (task_queue a')
         /\ results_history a' = results_history after_x.
Proof.
  eexists. eexists. split; [vm_compute; reflexivity|]. split.
  - apply (proj1 (add_task_dependency_gate (a_task "T" MEDIUM ["x"])
                    (init "agent"))).
    exists "x". split; [now left|].
    intros (r & Hin & _). exact Hin.
  - apply (proj2 (add_task_dependency_gate (a_task "T" MEDIUM ["x"]) _)).
    intros d [<-|[]].
    eexists. split; [left; reflexivity|]. split; reflexivity.
Defined.

(** *** Failures of the extension point *)



(** *** Statistics *)

Lemma update_statistics_values (result : AgentResult) (a : BaseAgent) :
  let a' := update_statistics result a in
  success_rate a' = history_success_rate (results_history a)
  /\ (forall q, history_average_quality (results_history a) = Some q ->
                average_quality_score a' = q)
  /\ total_tasks_completed a' = (total_tasks_completed a + 1)%Z.
Proof.
  destruct a as [id st cur queue history n t sr aq sch fl].
  unfold update_statistics, history_success_rate, history_average_quality.
  simpl.
  destruct (truthy (processing_time result)), (processing_time result);
    simpl; destruct (quality_scores history); simpl;
    (split; [reflexivity|split; [|reflexivity]]);
    intros ? Hsome; inversion Hsome; reflexivity.
Qed.

Lemma back_to_idle_statistics (a : BaseAgent) :
  let a' := back_to_idle a in
  success_rate a' = success_rate a
  /\ average_quality_score a' = average_quality_score a
  /\ total_tasks_completed a' = total_tasks_completed a
  /\ total_processing_time a' = total_processing_time a.
Proof.
  unfold back_to_idle. destruct a as [? ? ? queue ? ? ? ? ? ? ?]. simpl.
  destruct queue; simpl; auto.
Qed.

(** On the path where [_process_task] returns, the statistics are those
    of the history that now includes the new result. *)
Lemma statistics_after_return (task : AgentTask) (result : AgentResult)
  (elapsed : Q) (a : BaseAgent) :
  let a' := snd (_process_next_task_resume task (Normal result) elapsed a) in
  results_history a'
  = results_history a ++ [with_timing elapsed (agent_id a) result]
  /\ success_rate a' = history_success_rate (results_history a')
  /\ (forall q, history_average_quality (results_history a') = Some q ->
                average_quality_score a' = q)
  /\ total_tasks_completed a' = (total_tasks_completed a + 1)%Z.
Proof.
  rewrite process_resume_eq. unfold snd, record_outcome.
  set (r := with_timing elapsed (agent_id a) result).
  set (a1 := set_results_history (results_history a ++ [r]) a).
  destruct (back_to_idle_fields (update_statistics r a1))
    as (_ & _ & _ & Hh & _).
  destruct (back_to_idle_statistics (update_statistics r a1))
    as (Hsr & Haq & Hn & _).
  destruct (update_statistics_frame r a1) as (_ & _ & _ & _ & Hh1 & _).
  destruct (update_statistics_values r a1) as (Vsr & Vaq & Vn).
  cbv zeta. rewrite Hh, Hsr, Haq, Hn, Hh1, Vsr, Vn.
  repeat split; auto.
Qed.

(** On the path where [_process_task] raises, a result is appended but no
    statistic is touched. *)
Lemma statistics_after_exception (task : AgentTask) (e : exn)
  (elapsed : Q) (a : BaseAgent) :
  let a' := snd (_process_next_task_resume task (Throw e) elapsed a) in
  results_history a' = results_history a ++ [error_result task (agent_id a) e]
  /\ success_rate a' = success_rate a
  /\ average_quality_score a' = average_quality_score a
  /\ total_tasks_completed a' = total_tasks_completed a
  /\ total_processing_time a' = total_processing_time a.
Proof.
  rewrite process_resume_eq. simpl.
  destruct a as [id st cur queue history n t sr aq sch fl].
  unfold back_to_idle. simpl. destruct queue; simpl; repeat split.
Qed.

(** C8 (the code at the failing input).  A fresh agent processes one task
    whose [_process_task] raises: the history then holds one result, none
    successful, so that the success rate of the history is 0 and one
    completion is recorded; the agent's [success_rate] is still its initial
    1 and [total_tasks_completed] is still 0. *)
Theorem statistics_stale_after_exception :
  exists log a,
    run one_failure (init "agent") = Some (log, a)
    /\ List.length (results_history a) = 1
    /\ successful_tasks (results_history a) = 0
    /\ (history_success_rate (results_history a) == 0)%Q
    /\ (success_rate a == 1)%Q
    /\ ~ (success_rate a == history_success_rate (results_history a))%Q
    /\ total_tasks_completed a = 0%Z.
Proof.
  eexists. eexists. split; [vm_compute; reflexivity|].
  simpl. repeat split; try reflexivity.
  intro H. vm_compute in H. discriminate.
Qed.

(** *** [current_task] and [status] *)

Lemma enqueue_frame (task : AgentTask) (a : BaseAgent) :
  status (enqueue task a) = status a
  /\ current_task (enqueue task a) = current_task a
  /\ results_history (enqueue task a) = results_history a.
Proof.
  unfold enqueue. simpl.
  destruct (status_eqb (status a) IDLE && is_none (current_task a));
    repeat split.
Qed.

Lemma step_current_task (ev : event) (a : BaseAgent) o a' :
  step ev a = Some (Normal o, a') ->
  (current_task a = None -> status a = IDLE) ->
  (current_task a' = None -> status a' = IDLE).
Proof.
  destruct ev as [task| |i awaited elapsed| |]; simpl.
  - rewrite add_task_eq. destruct (dependencies_met task a);
      intro H; inversion H; subst; [|tauto].
    destruct (enqueue_frame task a) as (-> & -> & _). tauto.
  - destruct (scheduled a) as [|n]; [discriminate|].
    rewrite process_begin_eq. simpl.
    destruct (task_queue a) as [|task rest].
    + intro H; inversion H; subst. simpl. tauto.
    + destruct (status_eqb (status a) IDLE); intro H; inversion H; subst; simpl.
      * discriminate.
      * tauto.
  - destruct (nth_error (in_flight a) i) as [task|]; [|discriminate].
    rewrite process_resume_eq. intro H; inversion H; subst. intros _ _.
    apply back_to_idle_fields.
  - rewrite pause_eq. intro H; inversion H; subst.
    destruct (status_eqb (status a) WORKING) eqn:E; [|tauto].
    apply status_eqb_eq in E. simpl. intros Hinv Hcur.
    rewrite (Hinv Hcur) in E. discriminate.
  - rewrite resume_eq. intro H; inversion H; subst.
    destruct (status_eqb (status a) PAUSED); [|tauto].
    intros _ _. destruct a as [? ? cur queue ? ? ? ? ? ? ?]. simpl.
    destruct queue; [reflexivity|]. destruct (is_none cur); reflexivity.
Qed.

Lemma run_current_task (evs : list event) :
  forall a0 log a,
    run evs a0 = Some (log, a) ->
    (current_task a0 = None -> status a0 = IDLE) ->
    (current_task a = None -> status a = IDLE).
Proof.
  induction evs as [|ev evs IH]; intros a0 log a Hrun Hinv; simpl in Hrun.
  - inversion Hrun; subst. exact Hinv.
  - destruct (step ev a0) as [[[o|e] a1]|] eqn:Estep; try discriminate.
    destruct (run evs a1) as [[log1 a2]|] eqn:Erun; [|discriminate].
    inversion Hrun; subst.
    eapply IH; [exact Erun|]. eapply step_current_task; eassumption.
Qed.

(** C9, as stated, fails: after [add_task], the start of the task and
    [pause], the agent is PAUSED and its [current_task] is the task. *)
Lemma current_task_iff_working_counterexample :
  ~ (forall a, reachable a ->
               (current_task a <> None <-> status a = WORKING)).
Proof.
  intro H.
  assert (Hr : exists a, reachable a /\ status a = PAUSED
                         /\ current_task a = Some (a_task "t" MEDIUM [])).
  { eexists. split.
    - exists "agent", paused_mid_task. eexists. vm_compute. reflexivity.
    - split; reflexivity. }
  destruct Hr as (a & Hreach & Hst & Hcur).
  destruct (H a Hreach) as [Hw _].
  rewrite Hst in Hw. assert (PAUSED = WORKING); [|discriminate].
  apply Hw. rewrite Hcur. discriminate.
Qed.

(** C9, amended.  In every state an agent reaches, a WORKING agent has a
    [current_task], and an agent without [current_task] is IDLE. *)
Theorem working_has_current_task (a : BaseAgent) :
  reachable a ->
  (status a = WORKING -> current_task a <> None)
  /\ (current_task a = None -> status a = IDLE).
Proof.
  intros (id & evs & log & Hrun).
  assert (Hinv : current_task a = None -> status a = IDLE).
  { eapply run_current_task; [exact Hrun|]. reflexivity. }
  split; [|exact Hinv].
  intros Hw Hcur. rewrite (Hinv Hcur) in Hw. discriminate.
Qed.

Lemma working_has_current_task_witness :
  exists log a,
    run paused_mid_task (init "agent") = Some (log, a)
    /\ status a = PAUSED
    /\ (status a = WORKING -> current_task a <> None)
    /\ (current_task a = None -> status a = IDLE).
Proof.
  eexists. eexists. split; [vm_compute; reflexivity|].
  split; [reflexivity|].
  apply working_has_current_task.
  exists "agent", paused_mid_task. eexists. vm_compute. reflexivity.
Defined.

End AgentClaims.

(** ** The rate limiter *)

Section RateLimiterClaims.

Import Py RateLimiter.





(** Two units of fuel decide every call. *)
Lemma acquire_fuel (fuel : nat) (now : Q) (rl : t) :
  acquire (S (S fuel)) now rl = acquire 2 now rl.
Proof.
  cbn [acquire]. destruct (locked rl); [reflexivity|].
  cbn [set_locked set_requests max_requests window_seconds requests locked].
  destruct (max_requests rl <=? _)%Z; [|reflexivity].
  destruct (purge now (window_seconds rl) (requests rl)); reflexivity.
Qed.

Lemma acquire_never_out_of_fuel (fuel : nat) (now : Q) (rl : t) :
  acquire (S (S fuel)) now rl <> OutOfFuel.
Proof.
  rewrite acquire_fuel. cbn [acquire]. destruct (locked rl); [discriminate|].
  cbn [set_locked set_requests max_requests window_seconds requests locked].
  destruct (max_requests rl <=? _)%Z; [|discriminate].
  destruct (purge now (window_seconds rl) (requests rl)); [discriminate|].
  destruct (Qlt_bool _ _); discriminate.
Qed.

Lemma back_to_back_fuel (fuel : nat) (times : list Q) :
  forall rl, back_to_back (S (S fuel)) times rl = back_to_back 2 times rl.
Proof.
  induction times as [|now times IH]; intro rl; [reflexivity|].
  cbn [back_to_back]. rewrite acquire_fuel, IH. reflexivity.
Qed.

(** C3 (the code at the failing input).  The example of the
    specification: a window of one time unit, at most three requests,
    five calls back to back.  The first three are let through.  The fourth
    sleeps the 7/10 that remain until the oldest timestamp leaves the
    window, still holding the lock, and then waits for that lock in its
    recursive call: it never returns, whatever the fuel.  The fifth
    finds the lock held and waits as well. *)
Theorem rate_limiter_full_window_never_returns :
  forall fuel,
    let outcomes :=
      back_to_back (S (S fuel)) five_calls
        (init 3 1) in
    map granted outcomes = [true; true; true; false; false]
    /\ map deadlocked outcomes = [false; false; false; true; false]
    /\ nth 3 outcomes OutOfFuel
       = WaitsForLock [(1 - ((3 # 10) - 0))%Q]
           (mk 3 1 [0; (1 # 10); (2 # 10)]%Q true)
    /\ nth 4 outcomes OutOfFuel
       = WaitsForLock [] (mk 3 1 [0; (1 # 10); (2 # 10)]%Q true).
Proof.
  intro fuel. cbv zeta. rewrite back_to_back_fuel.
  vm_compute. repeat split; reflexivity.
Qed.

End RateLimiterClaims.

(** ** The concurrency slots *)

Section RequestQueueClaims.

Import Py RequestQueue.

Lemma count_cons (f : phase -> bool) (p : phase) (l : list phase) :
  count f (p :: l) = (Z.b2z (f p) + count f l)%Z.
Proof.
  unfold count. cbn [filter].
  destruct (f p); cbn [List.length Z.b2z]; lia.
Qed.

Lemma count_nonneg (f : phase -> bool) (l : list phase) : (0 <= count f l)%Z.
Proof. unfold count. lia. Qed.

Lemma count_update (f : phase -> bool) (l : list phase) :
  forall i p p',
    nth_error l i = Some p ->
    count f (update i p' l) = (count f l - Z.b2z (f p) + Z.b2z (f p'))%Z.
Proof.
  induction l as [|x l IH]; intros [|i] p p' H; simpl in H; try discriminate.
  - inversion H; subst. simpl. rewrite !count_cons. lia.
  - simpl. rewrite !count_cons, (IH _ _ _ H). lia.
Qed.

Lemma count_le (f g : phase -> bool) (l : list phase) :
  (forall p, f p = true -> g p = true) -> (count f l <= count g l)%Z.
Proof.
  intro H. induction l as [|x l IH]; [reflexivity|].
  rewrite !count_cons. specialize (H x).
  destruct (f x), (g x); cbn [Z.b2z]; try lia.
  all: specialize (H eq_refl); discriminate.
Qed.

Lemma count_finished (l : list phase) :
  forallb finished l = true -> count holding l = 0%Z.
Proof.
  induction l as [|x l IH]; [reflexivity|]. simpl.
  rewrite andb_true_iff, count_cons. intros [Hx Hl]. rewrite (IH Hl).
  destruct x; simpl in *; try discriminate; reflexivity.
Qed.

Lemma nth_error_update {A} (l : list A) :
  forall i x y, nth_error l i = Some y -> nth_error (update i x l) i = Some x.
Proof.
  induction l as [|z l IH]; intros [|i] x y H; simpl in *; try discriminate.
  - reflexivity.
  - eapply IH. exact H.
Qed.

Lemma count_repeat_outside (f : phase -> bool) (n : nat) :
  f Outside = false -> count f (repeat Outside n) = 0%Z.
Proof.
  intro H. induction n as [|n IH]; [reflexivity|].
  simpl. rewrite count_cons, H, IH. reflexivity.
Qed.

Lemma step_consistent (i : nat) (act : action) (s s' : system) :
  step i act s = Some s' ->
  consistent s ->
  consistent s' /\ max_concurrent (queue s') = max_concurrent (queue s).
Proof.
  unfold step, consistent.
  destruct (nth_error (callers s) i) as [ph|] eqn:Ei; [|discriminate].
  destruct ph, act; try discriminate.
  - unfold sem_acquire. destruct (0 <? semaphore (queue s))%Z eqn:E;
      [|discriminate].
    apply Z.ltb_lt in E.
    intro H; inversion H; subst; clear H. simpl.
    rewrite !(count_update _ _ _ _ HoldsSlot Ei). simpl. lia.
  - intro H; inversion H; subst; clear H. simpl.
    rewrite !(count_update _ _ _ _ InBody Ei). simpl. lia.
  - intro H; inversion H; subst; clear H. simpl.
    rewrite !(count_update _ _ _ _ (Leaving path) Ei). simpl. lia.
  - intro H; inversion H; subst; clear H. simpl.
    rewrite !(count_update _ _ _ _ (Releasing path) Ei). simpl. lia.
  - intro H; inversion H; subst; clear H. simpl.
    rewrite !(count_update _ _ _ _ (Done path) Ei). simpl.
    pose proof (count_nonneg holding (callers s)). lia.
Qed.

Lemma run_consistent (sched : list (nat * action)) :
  forall s s',
    run sched s = Some s' ->
    consistent s ->
    consistent s' /\ max_concurrent (queue s') = max_concurrent (queue s).
Proof.
  induction sched as [|[i act] sched IH]; intros s s' Hrun Hc; simpl in Hrun.
  - inversion Hrun; subst. auto.
  - destruct (step i act s) as [s1|] eqn:E; [|discriminate].
    destruct (step_consistent _ _ _ _ E Hc) as (Hc1 & Hm1).
    destruct (IH _ _ Hrun Hc1) as (Hc' & Hm'). split; [exact Hc'|congruence].
Qed.

Lemma reachable_consistent (n : Z) (s : system) :
  reachable n s -> consistent s /\ max_concurrent (queue s) = n /\ (0 <= n)%Z.
Proof.
  intros (q & k & sched & Hinit & Hrun).
  unfold init in Hinit. destruct (n <? 0)%Z eqn:E; [discriminate|].
  apply Z.ltb_ge in E. inversion Hinit; subst q; clear Hinit.
  destruct (run_consistent _ _ _ Hrun) as (Hc & Hm).
  - unfold consistent, start. simpl.
    rewrite !count_repeat_outside by reflexivity. lia.
  - split; [exact Hc|]. split; [rewrite Hm; reflexivity|exact E].
Qed.

(** One scope run without interruption gives back what it took, however
    its body ends. *)
Lemma acquire_slot_restores {S A : Type} (getq : S -> t) (setq : t -> S -> S)
  (body : S -> A * S) (s : S) :
  (forall q st, getq (setq q st) = q) ->
  (forall st, getq (snd (body st)) = getq st) ->
  (0 < semaphore (getq s))%Z ->
  exists st',
    acquire_slot getq setq body s
    = Some (fst (body (setq (enter (mk (max_concurrent (getq s))
                                       (semaphore (getq s) - 1)
                                       (active_requests (getq s)))) s)), st')
    /\ getq st' = getq s.
Proof.
  intros Hlens Hbody Hfree. unfold acquire_slot, sem_acquire.
  apply Z.ltb_lt in Hfree. rewrite Hfree.
  set (s1 := setq (enter _) s).
  specialize (Hbody s1). destruct (body s1) as [a s2]. simpl in *.
  eexists. split; [reflexivity|].
  rewrite !Hlens, Hbody. unfold s1. rewrite Hlens.
  destruct (getq s) as [m sem act]. unfold sem_release, leave, enter. simpl.
  f_equal; lia.
Qed.

(** C4.  In every state that callers of [acquire_slot] reach from a
    freshly built queue with [max_concurrent] slots: [active_requests]
    stays between zero and [max_concurrent]; at most [max_concurrent]
    blocks execute at once; [get_queue_status] reports
    [available_slots = max_concurrent - active_requests]; a caller whose
    block is executing can leave it by any exit path (return, error,
    cancellation), and from the [finally] it then reaches, it lowers the
    counter and gives the semaphore unit back; once every caller is
    outside or done, [active_requests] is zero and every slot is free.  A
    scope run without interruption restores the queue whatever its body
    returns. *)
Theorem slots_bounded_and_released (n : Z) (s : system) :
  reachable n s ->
  (0 <= active_requests (queue s) <= n)%Z
  /\ (count executing (callers s) <= n)%Z
  /\ st_max_concurrent (get_queue_status (queue s)) = n
  /\ st_available_slots (get_queue_status (queue s))
     = (n - active_requests (queue s))%Z
  /\ (forall i path,
        nth_error (callers s) i = Some InBody ->
        exists s1 s2,
          step i (ExitBody path) s = Some s1
          /\ nth_error (callers s1) i = Some (Leaving path)
          /\ run [(i, LowerCounter); (i, GiveSlot)] s1 = Some s2
          /\ nth_error (callers s2) i = Some (Done path)
          /\ active_requests (queue s2) = (active_requests (queue s) - 1)%Z
          /\ semaphore (queue s2) = (semaphore (queue s) + 1)%Z)
  /\ (forallb finished (callers s) = true ->
      active_requests (queue s) = 0%Z /\ semaphore (queue s) = n)
  /\ (forall (A : Type) (body : t -> A * t),
        (forall q, snd (body q) = q) ->
        (0 < semaphore (queue s))%Z ->
        exists a, acquire_slot (fun q => q) (fun q _ => q) body (queue s)
                  = Some (a, queue s)).
Proof.
  intro Hreach.
  destruct (reachable_consistent _ _ Hreach) as ((Hsem & Hact & Hpos) & Hmax & Hn).
  pose proof (count_nonneg counted (callers s)) as H0.
  pose proof (count_nonneg holding (callers s)) as H0'.
  assert (Hch : (count counted (callers s) <= count holding (callers s))%Z).
  { apply count_le. intros [] H; simpl in *; congruence. }
  assert (Hec : (count executing (callers s) <= count counted (callers s))%Z).
  { apply count_le. intros [] H; simpl in *; congruence. }
  split; [lia|]. split; [lia|]. split; [exact Hmax|].
  split; [simpl; rewrite Hmax; reflexivity|]. split; [|split].
  - intros i path Hi.
    unfold step at 1. rewrite Hi.
    eexists. eexists. split; [reflexivity|].
    assert (H1 : nth_error (update i (Leaving path) (callers s)) i
                 = Some (Leaving path))
      by (eapply nth_error_update; exact Hi).
    split; [exact H1|].
    simpl. unfold step. simpl. rewrite H1. simpl.
    rewrite (nth_error_update _ _ (Releasing path) _ H1). simpl.
    split; [reflexivity|]. simpl.
    split; [|split; reflexivity].
    eapply nth_error_update. eapply nth_error_update. exact H1.
  - intro Hfin. rewrite (count_finished _ Hfin) in *.
    split; lia.
  - intros A body Hbody Hfree.
    destruct (acquire_slot_restores (fun q => q) (fun q _ => q) body
                (queue s)) as (st' & Hrun & Hst'); auto.
    simpl in Hst'. subst st'. eexists. exact Hrun.
Qed.

Lemma slots_bounded_and_released_witness :
  exists q s,
    init 2 = Normal q
    /\ run two_slots_five_callers (start q 5) = Some s
    /\ (0 <= active_requests (queue s) <= 2)%Z
    /\ (count executing (callers s) <= 2)%Z.
Proof.
  eexists. eexists. split; [reflexivity|]. split; [vm_compute; reflexivity|].
  assert (Hreach : reachable 2
            (mkSystem (mk 2 2 0)
               [Done (ErrorRaised (Exn "RuntimeError" "boom")); Done Cancelled;
                Done NormalReturn; Done NormalReturn;
                Done (ErrorRaised (Exn "RuntimeError" "boom"))])).
  { eexists. exists 5, two_slots_five_callers.
    split; [reflexivity|vm_compute; reflexivity]. }
  destruct (slots_bounded_and_released _ _ Hreach) as (H1 & H2 & _).
  split; [exact H1|exact H2].
Defined.

End RequestQueueClaims.

(** ** Retries *)

Section RetryClaims.

Import Py Backoff.

Variable cfg : Settings.t.

Local Abbreviation n := (Settings.retry_attempts cfg).

Lemma range_split (k m : Z) :
  (0 <= k < m)%Z ->
  range m
  = range k ++ k :: map Z.of_nat (seq (S (Z.to_nat k))
                                    (Z.to_nat m - S (Z.to_nat k))).
Proof.
  intro H. unfold range.
  replace (Z.to_nat m)
    with (Z.to_nat k + S (Z.to_nat m - S (Z.to_nat k))) at 1 by lia.
  rewrite seq_app, map_app. simpl. rewrite Z2Nat.id by lia. reflexivity.
Qed.

Lemma range_last (m : Z) :
  (1 <= m)%Z -> range m = range (m - 1) ++ [(m - 1)%Z].
Proof.
  intro H. rewrite (range_split (m - 1) m) by lia.
  replace (Z.to_nat m - S (Z.to_nat (m - 1))) with 0 by lia. reflexivity.
Qed.

Lemma calls_app (t1 t2 : list action) :
  calls (t1 ++ t2) = calls t1 + calls t2.
Proof.
  induction t1 as [|[a|w] t1 IH]; simpl; auto.
Qed.

Lemma length_range (m : Z) : List.length (range m) = Z.to_nat m.
Proof. unfold range. now rewrite length_map, length_seq. Qed.

(** *** [ClaudeClient._make_request] *)

Lemma claude_calls_le (call : Z -> completion ClaudeClient.ClaudeResponse)
  (attempts : list Z) :
  calls (snd (ClaudeClient._make_request_loop cfg call attempts))
  <= List.length attempts.
Proof.
  induction attempts as [|attempt rest IH]; simpl; [lia|].
  destruct (call attempt); simpl; [lia|].
  destruct (attempt =? Settings.retry_attempts cfg - 1)%Z; simpl; [lia|].
  destruct (ClaudeClient._make_request_loop cfg call rest). simpl in *. lia.
Qed.

(** A run of failing attempts, none of them the last one allowed. *)
Lemma claude_loop_failures (call : Z -> completion ClaudeClient.ClaudeResponse)
  (rest : list Z) :
  forall m i,
    (forall j, i <= j < i + m -> exists e, call (Z.of_nat j) = Throw e) ->
    (Z.of_nat (i + m) <= n - 1)%Z ->
    ClaudeClient._make_request_loop cfg call (map Z.of_nat (seq i m) ++ rest)
    = (fst (ClaudeClient._make_request_loop cfg call rest),
       flat_map (fun a => [Call a; Sleep (exponential_delay cfg a)])
         (map Z.of_nat (seq i m))
       ++ snd (ClaudeClient._make_request_loop cfg call rest)).
Proof.
  induction m as [|m IH]; intros i Hfail Hlast; simpl.
  - now destruct (ClaudeClient._make_request_loop cfg call rest).
  - destruct (Hfail i) as (e & ->); [lia|].
    replace (Z.of_nat i =? Settings.retry_attempts cfg - 1)%Z with false
      by (symmetry; apply Z.eqb_neq; lia).
    rewrite IH.
    + reflexivity.
    + intros j Hj. apply Hfail. lia.
    + lia.
Qed.

Lemma claude_first_success (call : Z -> completion ClaudeClient.ClaudeResponse)
  (k : Z) (r : ClaudeClient.ClaudeResponse) :
  (0 <= k < n)%Z ->
  (forall j, (0 <= j < k)%Z -> exists e, call j = Throw e) ->
  call k = Normal r ->
  ClaudeClient._make_request_loop cfg call (range n)
  = (ClaudeClient.RReturned r, backoff_trace (exponential_delay cfg) k).
Proof.
  intros Hk Hfail Hok. rewrite (range_split k n Hk). unfold range at 1.
  rewrite claude_loop_failures.
  - simpl. rewrite Hok. reflexivity.
  - intros j Hj. apply Hfail. lia.
  - lia.
Qed.

Lemma claude_all_fail (call : Z -> completion ClaudeClient.ClaudeResponse)
  (e : exn) :
  (1 <= n)%Z ->
  (forall j, (0 <= j < n - 1)%Z -> exists e', call j = Throw e') ->
  call (n - 1)%Z = Throw e ->
  ClaudeClient._make_request_loop cfg call (range n)
  = (ClaudeClient.RRaised e, backoff_trace (exponential_delay cfg) (n - 1)).
Proof.
  intros Hn Hfail Hlast. rewrite (range_last n Hn). unfold range at 1.
  rewrite claude_loop_failures.
  - simpl. rewrite Hlast. rewrite Z.eqb_refl. reflexivity.
  - intros j Hj. apply Hfail. lia.
  - lia.
Qed.

(** *** [OpenAIClient.send_message] *)

Lemma openai_calls_le (api : Z -> completion OpenAIClient.ChatCompletion)
  (elapsed : Q) (attempts : list Z) :
  forall last c,
    calls (snd (fst (OpenAIClient.send_message_loop cfg api elapsed
                       attempts last c)))
    <= List.length attempts.
Proof.
  induction attempts as [|attempt rest IH]; intros last c; simpl.
  - destruct last; simpl; lia.
  - destruct (api attempt) as [r|e]; simpl; [lia|].
    specialize (IH (Some e) c).
    destruct (attempt <? Settings.retry_attempts cfg - 1)%Z;
      destruct (OpenAIClient.send_message_loop cfg api elapsed rest (Some e) c)
        as [[r tr] c']; simpl in *; lia.
Qed.

Lemma openai_loop_failures (api : Z -> completion OpenAIClient.ChatCompletion)
  (elapsed : Q) (rest : list Z) (c : OpenAIClient.t) :
  forall m i last,
    (forall j, i <= j < i + m -> exists e, api (Z.of_nat j) = Throw e) ->
    (Z.of_nat (i + m) <= n - 1)%Z ->
    exists last',
      OpenAIClient.send_message_loop cfg api elapsed
        (map Z.of_nat (seq i m) ++ rest) last c
      = let '(r, trace, c') :=
          OpenAIClient.send_message_loop cfg api elapsed rest last' c in
        (r,
         flat_map (fun a => [Call a; Sleep (linear_delay cfg a)])
           (map Z.of_nat (seq i m)) ++ trace,
         c').
Proof.
  induction m as [|m IH]; intros i last Hfail Hlast; simpl.
  - exists last.
    now destruct (OpenAIClient.send_message_loop cfg api elapsed rest last c)
      as [[r tr] c'].
  - destruct (Hfail i) as (e & ->); [lia|].
    replace (Z.of_nat i <? Settings.retry_attempts cfg - 1)%Z with true
      by (symmetry; apply Z.ltb_lt; lia).
    destruct (IH (S i) (Some e)) as (last' & ->).
    + intros j Hj. apply Hfail. lia.
    + lia.
    + exists last'.
      now destruct (OpenAIClient.send_message_loop cfg api elapsed rest last' c)
        as [[r tr] c'].
Qed.

Lemma openai_first_success (api : Z -> completion OpenAIClient.ChatCompletion)
  (elapsed : Q) (c : OpenAIClient.t) (k : Z) (r : OpenAIClient.ChatCompletion) :
  (0 <= k < n)%Z ->
  (forall j, (0 <= j < k)%Z -> exists e, api j = Throw e) ->
  api k = Normal r ->
  OpenAIClient.send_message_loop cfg api elapsed (range n) None c
  = (Normal (OpenAIClient.to_response r elapsed),
     backoff_trace (linear_delay cfg) k,
     OpenAIClient.count_response r c).
Proof.
  intros Hk Hfail Hok. rewrite (range_split k n Hk). unfold range at 1.
  destruct (openai_loop_failures api elapsed
              (k :: map Z.of_nat (seq (S (Z.to_nat k))
                                    (Z.to_nat n - S (Z.to_nat k))))
              c (Z.to_nat k) 0 None) as (last' & ->).
  - intros j Hj. apply Hfail. lia.
  - lia.
  - simpl. rewrite Hok. reflexivity.
Qed.

Lemma openai_all_fail (api : Z -> completion OpenAIClient.ChatCompletion)
  (elapsed : Q) (c : OpenAIClient.t) (e : exn) :
  (1 <= n)%Z ->
  (forall j, (0 <= j < n - 1)%Z -> exists e', api j = Throw e') ->
  api (n - 1)%Z = Throw e ->
  OpenAIClient.send_message_loop cfg api elapsed (range n) None c
  = (Throw e, backoff_trace (linear_delay cfg) (n - 1), c).
Proof.
  intros Hn Hfail Hlast. rewrite (range_last n Hn). unfold range at 1.
  destruct (openai_loop_failures api elapsed [(n - 1)%Z] c
              (Z.to_nat (n - 1)) 0 None) as (last' & ->).
  - intros j Hj. apply Hfail. lia.
  - lia.
  - simpl. rewrite Hlast. rewrite Z.ltb_irrefl. reflexivity.
Qed.

(** The property C5 states for every retrying path fails on
    [OpenAIClient.send_message]: with four attempts allowed and a provider
    that always fails, the sleep after attempt 2 lasts 3 delays, not 4. *)
Lemma retry_backoff_exponential_counterexample :
  ~ (forall (cfg' : Settings.t)
            (api : Z -> completion OpenAIClient.ChatCompletion)
            (elapsed : Q) (request : AI.AIRequest) (c : OpenAIClient.t),
        sleeps_exponential cfg'
          (snd (fst (OpenAIClient.send_message cfg' api elapsed request c)))).
Proof.
  intro H.
  specialize (H four_attempts always_fails 0%Q MultiAIClient.a_request
                OpenAIClient.init).
  vm_compute in H. destruct H as (_ & _ & H & _). discriminate H.
Qed.

(** C5, amended.  Both retrying paths make at most [retry_attempts]
    attempts, return the response of the first attempt that succeeds, and,
    when every attempt fails, raise the failure of the last attempt as it
    is.  After the failed attempt number [attempt] (from 0)
    [ClaudeClient._make_request] sleeps [retry_delay * 2 ** attempt], and
    [OpenAIClient.send_message] sleeps [retry_delay * (attempt + 1)]; the
    two agree on attempts 0 and 1, hence on every sleep made under the
    default of three attempts. *)
Theorem retry_paths :
  (* ClaudeClient._make_request *)
  (forall p config_model request,
      calls (snd (ClaudeClient._make_request cfg p config_model request))
      <= Z.to_nat n)
  /\ (forall p config_model request k r,
        (0 <= k < n)%Z ->
        (forall j, (0 <= j < k)%Z ->
                   exists e, ClaudeClient.request_once p config_model request j
                             = Throw e) ->
        ClaudeClient.request_once p config_model request k = Normal r ->
        ClaudeClient._make_request cfg p config_model request
        = (ClaudeClient.RReturned r, backoff_trace (exponential_delay cfg) k))
  /\ (forall p config_model request e,
        (1 <= n)%Z ->
        (forall j, (0 <= j < n - 1)%Z ->
                   exists e', ClaudeClient.request_once p config_model request j
                              = Throw e') ->
        ClaudeClient.request_once p config_model request (n - 1)%Z = Throw e ->
        ClaudeClient._make_request cfg p config_model request
        = (ClaudeClient.RRaised e,
           backoff_trace (exponential_delay cfg) (n - 1)))
  (* OpenAIClient.send_message *)
  /\ (forall api elapsed request c,
        calls (snd (fst (OpenAIClient.send_message cfg api elapsed request c)))
        <= Z.to_nat n)
  /\ (forall api elapsed request c k r,
        (0 <= k < n)%Z ->
        (forall j, (0 <= j < k)%Z -> exists e, api j = Throw e) ->
        api k = Normal r ->
        OpenAIClient.send_message cfg api elapsed request c
        = (Normal (OpenAIClient.to_response r elapsed),
           backoff_trace (linear_delay cfg) k,
           OpenAIClient.count_response r c))
  /\ (forall api elapsed request c e,
        (1 <= n)%Z ->
        (forall j, (0 <= j < n - 1)%Z -> exists e', api j = Throw e') ->
        api (n - 1)%Z = Throw e ->
        OpenAIClient.send_message cfg api elapsed request c
        = (Throw e, backoff_trace (linear_delay cfg) (n - 1), c))
  (* where the two schedules agree *)
  /\ (forall k, (0 <= k <= 2)%Z ->
                backoff_trace (linear_delay cfg) k
                = backoff_trace (exponential_delay cfg) k).
Proof.
  split; [|split; [|split; [|split; [|split; [|split]]]]].
  - intros. unfold ClaudeClient._make_request.
    rewrite <- length_range. apply claude_calls_le.
  - intros. now apply claude_first_success.
  - intros. now apply claude_all_fail.
  - intros. unfold OpenAIClient.send_message.
    rewrite <- length_range. apply openai_calls_le.
  - intros. now apply openai_first_success.
  - intros. now apply openai_all_fail.
  - intros k Hk.
    assert (Hcases : k = 0%Z \/ k = 1%Z \/ k = 2%Z) by lia.
    destruct Hcases as [E|[E|E]]; subst k; reflexivity.
Qed.

End RetryClaims.

Section RetryExample.

Import Py Backoff.

(** The example of the specification under the default settings: the
    provider fails twice and answers at the third attempt; both paths
    sleep one delay, then two, and return the answer. *)
Lemma retry_paths_witness :
  ClaudeClient._make_request Settings.default
    (ClaudeClient.mkProvider (fails_then 2 ClaudeClient.a_message) always_fails)
    "model" ClaudeClient.a_request
  = (ClaudeClient.RReturned
       (ClaudeClient.response_of_message ClaudeClient.a_message),
     [Call 0; Sleep (1 * inject_Z 1); Call 1; Sleep (1 * inject_Z 2); Call 2])
  /\ OpenAIClient.send_message Settings.default
       (fails_then 2 OpenAIClient.a_completion) 0
       MultiAIClient.a_request OpenAIClient.init
     = (Normal (OpenAIClient.to_response OpenAIClient.a_completion 0),
        [Call 0; Sleep (1 * inject_Z 1); Call 1; Sleep (1 * inject_Z 2);
         Call 2],
        OpenAIClient.count_response OpenAIClient.a_completion
          OpenAIClient.init).
Proof.
  pose proof (retry_paths Settings.default)
    as (_ & Hclaude & _ & _ & Hopenai & _).
  split.
  - rewrite (Hclaude _ _ _ 2%Z
               (ClaudeClient.response_of_message ClaudeClient.a_message)).
    + reflexivity.
    + simpl. lia.
    + intros j Hj. assert (Hc : j = 0%Z \/ j = 1%Z) by lia.
      destruct Hc as [Hc|Hc]; subst j; eexists; reflexivity.
    + reflexivity.
  - rewrite (Hopenai _ _ _ _ 2%Z OpenAIClient.a_completion).
    + reflexivity.
    + simpl. lia.
    + intros j Hj. assert (Hc : j = 0%Z \/ j = 1%Z) by lia.
      destruct Hc as [Hc|Hc]; subst j; eexists; reflexivity.
    + reflexivity.
Defined.

End RetryExample.

(** ** The counters of [ClaudeClient] *)

Section ClaudeCounters.

Import Py ClaudeClient.

(** What one call does to the three counters. *)
Lemma send_message_counters (cfg : Settings.t) (p : provider)
  (config_model : string) (clk : clock) (request : ClaudeRequest)
  (agent_type : string) (c : t) :
  match send_message cfg p config_model clk request agent_type c with
  | (Returned response, _, c') =>
      total_requests c' = (total_requests c + 1)%Z
      /\ total_tokens_used c'
         = (total_tokens_used c + dict_get (usage response) "total_tokens" 0)%Z
      /\ error_count c' = error_count c
  | (Raised _, _, c') =>
      error_count c' = (error_count c + 1)%Z
      /\ total_requests c' = total_requests c
      /\ total_tokens_used c' = total_tokens_used c
  | (Blocked _, _, c') =>
      error_count c' = error_count c
      /\ total_requests c' = total_requests c
      /\ total_tokens_used c' = total_tokens_used c
  end.
Proof.
  unfold send_message.
  destruct (RateLimiter.acquire 2 (at_acquire clk) (rate_limiter c))
    as [slept rl|e slept rl|slept rl|]; simpl; auto.
  unfold RequestQueue.acquire_slot. simpl.
  destruct (RequestQueue.sem_acquire (request_queue c)) as [q1|]; simpl; auto.
  unfold send_message_body.
  destruct (_make_request cfg p config_model request) as [[response|e|] trace];
    simpl; auto.
Qed.

Lemma successes_cons {A} (o : call_outcome A) (os : list (call_outcome A)) :
  successes (o :: os)
  = (match o with Returned _ => 1 | _ => 0 end + successes os)%Z.
Proof. destruct o; reflexivity. Qed.

Lemma failures_cons {A} (o : call_outcome A) (os : list (call_outcome A)) :
  failures (o :: os)
  = (match o with Raised _ => 1 | _ => 0 end + failures os)%Z.
Proof. destruct o; reflexivity. Qed.

Lemma serve_counters (cfg : Settings.t) (calls : list call) :
  forall c,
    total_requests (snd (serve cfg calls c))
    = (total_requests c + successes (fst (serve cfg calls c)))%Z
    /\ error_count (snd (serve cfg calls c))
       = (error_count c + failures (fst (serve cfg calls c)))%Z.
Proof.
  induction calls as [|k rest IH]; intro c; [simpl; lia|].
  cbn [serve].
  pose proof (send_message_counters cfg (call_provider k) (call_model k)
                (call_clock k) (call_request k) (call_agent_type k) c) as H.
  destruct (send_message cfg (call_provider k) (call_model k) (call_clock k)
              (call_request k) (call_agent_type k) c) as [[o trace] c'].
  specialize (IH c'). destruct (serve cfg rest c') as [os c''].
  cbn [fst snd] in *. rewrite successes_cons, failures_cons.
  destruct o; lia.
Qed.

Lemma successes_nonneg {A} (os : list (call_outcome A)) : (0 <= successes os)%Z.
Proof.
  induction os as [|o os IH]; [simpl; lia|].
  rewrite successes_cons. destruct o; lia.
Qed.

Lemma ratio_negative (a b : Z) :
  (1 <= b)%Z -> ((inject_Z a / inject_Z b < 0)%Q <-> (a < 0)%Z).
Proof.
  intro Hb. destruct b as [|b|b]; try lia.
  unfold Qlt, Qdiv, Qmult, Qinv, inject_Z. simpl. lia.
Qed.

(** C10.  A call of [send_message] that raises adds one to [error_count]
    and leaves [total_requests] and [total_tokens_used] alone; a call that
    returns adds one to [total_requests] and the response's [total_tokens]
    to [total_tokens_used] and leaves [error_count] alone.  Hence, after
    any calls on a new client, [total_requests] counts the successful
    calls only, and the [success_rate] of [get_statistics] is
    (successes - failures) / max(successes, 1), negative exactly when the
    failed calls outnumber the successful ones. *)
Theorem success_rate_counts_successes_only (cfg : Settings.t) :
  (forall p config_model clk request agent_type c,
      match send_message cfg p config_model clk request agent_type c with
      | (Returned response, _, c') =>
          total_requests c' = (total_requests c + 1)%Z
          /\ total_tokens_used c'
             = (total_tokens_used c
                + dict_get (usage response) "total_tokens" 0)%Z
          /\ error_count c' = error_count c
      | (Raised _, _, c') =>
          error_count c' = (error_count c + 1)%Z
          /\ total_requests c' = total_requests c
          /\ total_tokens_used c' = total_tokens_used c
      | (Blocked _, _, c') =>
          error_count c' = error_count c
          /\ total_requests c' = total_requests c
          /\ total_tokens_used c' = total_tokens_used c
      end)
  /\ (forall c0 calls,
        init cfg = Normal c0 ->
        let outcomes := fst (serve cfg calls c0) in
        let c := snd (serve cfg calls c0) in
        total_requests c = successes outcomes
        /\ error_count c = failures outcomes
        /\ s_success_rate (get_statistics c)
           = (inject_Z (successes outcomes - failures outcomes)
              / inject_Z (Z.max (successes outcomes) 1))%Q
        /\ ((s_success_rate (get_statistics c) < 0)%Q
            <-> (successes outcomes < failures outcomes)%Z)).
Proof.
  split; [intros; apply send_message_counters|].
  intros c0 calls Hinit. cbv zeta.
  destruct (serve_counters cfg calls c0) as (Hreq & Herr).
  assert (H0 : total_requests c0 = 0%Z /\ error_count c0 = 0%Z).
  { unfold init in Hinit.
    destruct (RequestQueue.init (Settings.max_concurrent_requests cfg));
      [|discriminate].
    inversion Hinit; subst. split; reflexivity. }
  destruct H0 as (Hr0 & He0). rewrite Hr0 in Hreq. rewrite He0 in Herr.
  simpl in Hreq, Herr.
  split; [exact Hreq|]. split; [exact Herr|].
  unfold get_statistics. simpl. rewrite Hreq, Herr.
  split; [reflexivity|].
  rewrite ratio_negative by lia. lia.
Qed.

(** One call succeeds and two fail: the success rate is -1. *)
Lemma success_rate_counts_successes_only_witness :
  exists c0,
    init Settings.default = Normal c0
    /\ successes (fst (serve Settings.default one_good_two_bad c0)) = 1%Z
    /\ failures (fst (serve Settings.default one_good_two_bad c0)) = 2%Z
    /\ total_requests (snd (serve Settings.default one_good_two_bad c0)) = 1%Z
    /\ (s_success_rate
          (get_statistics (snd (serve Settings.default one_good_two_bad c0)))
        < 0)%Q.
Proof.
  eexists. split; [reflexivity|].
  split; [vm_compute; reflexivity|]. split; [vm_compute; reflexivity|].
  destruct (proj2 (success_rate_counts_successes_only Settings.default)
              _ one_good_two_bad eq_refl) as (Hreq & _ & _ & Hneg).
  split.
  - rewrite Hreq. vm_compute. reflexivity.
  - apply Hneg. vm_compute. reflexivity.
Defined.

End ClaudeCounters.

(** ** Failover between services *)

Section FailoverClaims.

Import Py AI MultiAIClient.




(** *** The list of candidates *)







(** A client built by [__init__] lists each available service at most
    once, lists at least one, and lists no service without a client. *)
Lemma init_well_formed (cfg : Settings.t) (openai_key claude_key : bool) (m : t) :
  init cfg openai_key claude_key = Normal m ->
  NoDup (service_priority m)
  /\ service_priority m <> []
  /\ (forall s, In s (service_priority m) -> _is_service_available m s = true).
Proof.
  unfold init, _determine_service_priority.
  destruct openai_key, claude_key; simpl;
    destruct (ClaudeClient.init cfg); simpl;
    destruct (String.eqb (Settings.primary_ai_service cfg) "openai"),
             (String.eqb (Settings.primary_ai_service cfg) "claude"),
             (String.eqb (Settings.fallback_ai_service cfg) "claude"),
             (String.eqb (Settings.fallback_ai_service cfg) "openai");
    simpl; intro H; inversion H; subst; clear H; simpl;
    (split; [repeat constructor; simpl; intuition discriminate
            |split; [discriminate|]]);
    intros s Hs; simpl in Hs; intuition (subst; reflexivity).
Qed.

(** *** The loop over the candidates *)

Variable cfg : Settings.t.
Variable w : world.
Variable request : AIRequest.
Variable agent_type : string.

Local Abbreviation out := (service_outcome cfg w request agent_type).
Local Abbreviation try_all := (try_services cfg w request agent_type).








End FailoverClaims.

Section FailoverExample.

Import Py AI MultiAIClient.


End FailoverExample.

(* ================================================================== *)
(** * Part III.  Further properties of the code                        *)
(* ================================================================== *)

(** ** The agent: history, counters, dependencies *)

Section AgentHistory.

Import Py Agent AgentQueries.

Lemma enqueue_in_flight (task : AgentTask) (a : BaseAgent) :
  in_flight (enqueue task a) = in_flight a
  /\ total_tasks_completed (enqueue task a) = total_tasks_completed a
  /\ total_processing_time (enqueue task a) = total_processing_time a.
Proof.
  unfold enqueue. simpl.
  destruct (status_eqb (status a) IDLE && is_none (current_task a));
    repeat split.
Qed.

Lemma resume_fields (a : BaseAgent) :
  let a' := snd (resume a) in
  results_history a' = results_history a
  /\ total_tasks_completed a' = total_tasks_completed a
  /\ total_processing_time a' = total_processing_time a
  /\ task_queue a' = task_queue a
  /\ in_flight a' = in_flight a.
Proof.
  rewrite resume_eq. destruct a as [? st cur queue ? ? ? ? ? ? ?]. simpl.
  destruct (status_eqb st PAUSED); simpl; [|repeat split].
  destruct queue; simpl; [repeat split|].
  destruct (is_none cur); repeat split.
Qed.

Lemma pause_fields (a : BaseAgent) :
  let a' := snd (pause a) in
  results_history a' = results_history a
  /\ total_tasks_completed a' = total_tasks_completed a
  /\ total_processing_time a' = total_processing_time a
  /\ task_queue a' = task_queue a
  /\ in_flight a' = in_flight a.
Proof.
  rewrite pause_eq. simpl.
  destruct (status_eqb (status a) WORKING); repeat split.
Qed.

Lemma update_statistics_time (result : AgentResult) (a : BaseAgent) :
  (total_processing_time (update_statistics result a)
   == total_processing_time a
      + match processing_time result with Some pt => pt | None => 0 end)%Q.
Proof.
  destruct a as [id st cur queue history n t sr aq sch fl].
  unfold update_statistics. simpl.
  destruct (processing_time result) as [pt|]; simpl.
  - destruct (Qeq_bool pt 0) eqn:E; simpl;
      destruct (quality_scores history); simpl; try reflexivity;
      apply Qeq_bool_eq in E; rewrite E; ring.
  - destruct (quality_scores history); simpl; ring.
Qed.

(** What one event does to the history and to the two counters. *)
Lemma step_counters (ev : event) (a : BaseAgent) o a' :
  step ev a = Some (Normal o, a') ->
  (exists added,
      results_history a' = results_history a ++ added
      /\ List.length added = finishes [ev])
  /\ total_tasks_completed a'
     = (total_tasks_completed a + Z.of_nat (normal_finishes [ev]))%Z
  /\ (total_processing_time a'
      == total_processing_time a + normal_elapsed [ev])%Q.
Proof.
  destruct ev as [task| |i awaited elapsed| |]; simpl.
  - rewrite add_task_eq. destruct (dependencies_met task a);
      intro H; inversion H; subst.
    + destruct (enqueue_frame task a) as (_ & _ & Hh).
      destruct (enqueue_in_flight task a) as (_ & Hn & Ht).
      rewrite Hh, Hn, Ht. split; [exists []; now rewrite app_nil_r|].
      split; [lia|ring].
    + split; [exists []; now rewrite app_nil_r|]. split; [lia|ring].
  - destruct (scheduled a) as [|n]; [discriminate|].
    rewrite process_begin_eq. simpl.
    destruct (task_queue a) as [|task rest].
    + intro H; inversion H; subst. simpl.
      split; [exists []; now rewrite app_nil_r|]. split; [lia|ring].
    + destruct (status_eqb (status a) IDLE); intro H; inversion H; subst; simpl;
        (split; [exists []; now rewrite app_nil_r|]; split; [lia|ring]).
  - destruct (nth_error (in_flight a) i) as [task|]; [|discriminate].
    rewrite process_resume_eq. intro H; inversion H; subst. clear H.
    set (a0 := set_in_flight (remove_nth i (in_flight a)) a).
    destruct (back_to_idle_fields (record_outcome task awaited elapsed a0))
      as (_ & _ & _ & Hh & _).
    destruct (back_to_idle_statistics (record_outcome task awaited elapsed a0))
      as (_ & _ & Hn & Ht).
    rewrite Hh, Hn, Ht. destruct awaited as [result|e]; simpl.
    + set (r := with_timing elapsed (agent_id a) result).
      set (a1 := set_results_history (results_history a ++ [r]) a0).
      destruct (update_statistics_frame r a1) as (_ & _ & _ & _ & Hh1 & _).
      destruct (update_statistics_values r a1) as (_ & _ & Vn).
      rewrite Hh1, Vn, (update_statistics_time r a1). simpl.
      split; [exists [r]; split; reflexivity|]. split; [lia|ring].
    + split; [eexists; split; reflexivity|]. split; [lia|ring].
  - intro H. pose proof (pause_fields a) as (Hh & Hn & Ht & _).
    destruct (pause a) as [[u|e] a1]; inversion H; subst. simpl in *.
    rewrite Hh, Hn, Ht. split; [exists []; now rewrite app_nil_r|].
    split; [lia|ring].
  - intro H. pose proof (resume_fields a) as (Hh & Hn & Ht & _).
    destruct (resume a) as [[u|e] a1]; inversion H; subst. simpl in *.
    rewrite Hh, Hn, Ht. split; [exists []; now rewrite app_nil_r|].
    split; [lia|ring].
Qed.

Lemma finishes_cons (ev : event) (evs : list event) :
  finishes (ev :: evs) = finishes [ev] + finishes evs
  /\ normal_finishes (ev :: evs) = normal_finishes [ev] + normal_finishes evs
  /\ (normal_elapsed (ev :: evs) == normal_elapsed [ev] + normal_elapsed evs)%Q.
Proof.
  destruct ev as [task| |i [r|e] elapsed| |]; simpl; repeat split;
    try reflexivity; ring.
Qed.

Lemma run_counters (evs : list event) :
  forall a0 log a,
    run evs a0 = Some (log, a) ->
    (exists added,
        results_history a = results_history a0 ++ added
        /\ List.length added = finishes evs)
    /\ total_tasks_completed a
       = (total_tasks_completed a0 + Z.of_nat (normal_finishes evs))%Z
    /\ (total_processing_time a
        == total_processing_time a0 + normal_elapsed evs)%Q.
Proof.
  induction evs as [|ev evs IH]; intros a0 log a Hrun; simpl in Hrun.
  - inversion Hrun; subst. simpl.
    split; [exists []; now rewrite app_nil_r|]. split; [lia|ring].
  - destruct (step ev a0) as [[[o|e] a1]|] eqn:Estep; try discriminate.
    destruct (run evs a1) as [[log1 a2]|] eqn:Erun; [|discriminate].
    inversion Hrun; subst. clear Hrun.
    destruct (step_counters _ _ _ _ Estep) as ((add1 & Hh1 & Hl1) & Hn1 & Ht1).
    destruct (IH _ _ _ Erun) as ((add2 & Hh2 & Hl2) & Hn2 & Ht2).
    destruct (finishes_cons ev evs) as (Ef & En & Ee).
    split; [|split].
    + exists (add1 ++ add2). rewrite Hh2, Hh1, <- app_assoc.
      split; [reflexivity|]. rewrite length_app. lia.
    + lia.
    + rewrite Ht2, Ht1, Ee. ring.
Qed.

Lemma succeeded_app (a a' : BaseAgent) (added : list AgentResult) (d : string) :
  results_history a' = results_history a ++ added ->
  succeeded a d -> succeeded a' d.
Proof.
  intros Hh (r & Hin & Hid & Hs). exists r. rewrite Hh.
  split; [apply in_or_app; now left|auto].
Qed.





End AgentHistory.

(** ** The agent: estimates, dependencies, single flight, queries *)

Section AgentQueriesFacts.

Import Py Agent AgentQueries.

Lemma normal_elapsed_nonneg (evs : list event) :
  elapsed_nonneg evs -> (0 <= normal_elapsed evs)%Q.
Proof.
  induction evs as [|[task| |i [r|e] elapsed| |] evs IH]; simpl;
    try (intro H; apply IH; exact H); try (intros [H1 H2]; auto).
  - intros _. apply Qle_refl.
  - specialize (IH H2). lra.
Qed.

Lemma Qdiv_nonneg (x : Q) (n : Z) :
  (0 <= x)%Q -> (0 < n)%Z -> (0 <= x / inject_Z n)%Q.
Proof.
  intros Hx Hn. apply Qle_shift_div_l.
  - unfold Qlt, inject_Z. simpl. lia.
  - lra.
Qed.

Lemma Qmult_le_nonneg_l (b m1 m2 : Q) :
  (0 <= b)%Q -> (m1 <= m2)%Q -> (b * m1 <= b * m2)%Q.
Proof.
  intros Hb Hm. rewrite !(Qmult_comm b). now apply Qmult_le_compat_r.
Qed.

(** X3.  [estimate_processing_time] answers the default of 60 as long as
    no [_process_task] has returned, tasks that raised not counting; from
    then on it is the mean measured time scaled by the priority's
    multiplier, so that, the clock not running backwards, a task of
    higher priority never gets a smaller estimate, and the estimate for a
    MEDIUM task is the [average_processing_time] of [get_status]. *)
Theorem estimate_default_then_scaled_mean
  (id : string) (evs : list event) (log : list observation) (a : BaseAgent) :
  run evs (Agent.init id) = Some (log, a) ->
  elapsed_nonneg evs ->
  (normal_finishes evs = 0 ->
   forall task, estimate_processing_time a task = 60%Q)
  /\ (normal_finishes evs <> 0 ->
      (forall task,
          (estimate_processing_time a task
           == normal_elapsed evs / inject_Z (Z.of_nat (normal_finishes evs))
              * priority_multipliers (priority task))%Q)
      /\ (forall t1 t2,
             rank t2 <= rank t1 ->
             (estimate_processing_time a t1 <= estimate_processing_time a t2)%Q)
      /\ (forall task,
             priority task = MEDIUM ->
             (estimate_processing_time a task
              == rep_average_processing_time (get_status a))%Q)).
Proof.
  intros Hrun Hclock.
  destruct (run_counters _ _ _ _ Hrun) as (_ & Hn & Ht). simpl in Hn, Ht.
  assert (Ht' : (total_processing_time a == normal_elapsed evs)%Q)
    by (rewrite Ht; ring).
  pose proof (normal_elapsed_nonneg evs Hclock) as Hpos.
  split.
  - intros H0 task. unfold estimate_processing_time. rewrite Hn, H0. reflexivity.
  - intro Hne.
    assert (Hnz : (total_tasks_completed a =? 0)%Z = false)
      by (apply Z.eqb_neq; lia).
    assert (Hbase : (0 <= total_processing_time a
                          / inject_Z (total_tasks_completed a))%Q).
    { apply Qdiv_nonneg; [rewrite Ht'; exact Hpos|lia]. }
    split; [|split].
    + intro task. unfold estimate_processing_time. rewrite Hnz, Ht', Hn.
      reflexivity.
    + intros t1 t2 Hr. unfold estimate_processing_time. rewrite Hnz.
      set (b := (total_processing_time a
                 / inject_Z (total_tasks_completed a))%Q) in *.
      unfold rank in Hr.
      apply Qmult_le_nonneg_l; [exact Hbase|].
      destruct (priority t1), (priority t2); simpl in Hr; try lia;
        unfold priority_multipliers, Qle; simpl; lia.
    + intros task Hm. unfold estimate_processing_time, get_status. simpl.
      rewrite Hnz, Hm. simpl.
      replace (Z.max (total_tasks_completed a) 1) with (total_tasks_completed a)
        by lia.
      ring.
Qed.

Lemma estimate_default_then_scaled_mean_witness :
  exists log a,
    run one_fails_one_returns (Agent.init "agent") = Some (log, a)
    /\ (estimate_processing_time a (a_task "w" CRITICAL []) == 45 # 10)%Q.
Proof.
  assert (Hrun : exists log a,
             run one_fails_one_returns (Agent.init "agent") = Some (log, a))
    by (eexists; eexists; vm_compute; reflexivity).
  destruct Hrun as (log & a & Hrun).
  destruct (estimate_default_then_scaled_mean _ _ _ _ Hrun) as (_ & Hscaled).
  { simpl. repeat split; unfold Qle; simpl; lia. }
  destruct Hscaled as (Hest & _); [simpl; lia|].
  exists log, a. split; [exact Hrun|].
  rewrite Hest. vm_compute. reflexivity.
Defined.

(** *** Dependencies *)

Lemma insert_by_priority_In (task x : AgentTask) (queue : list AgentTask) :
  In x (insert_by_priority task queue) <-> x = task \/ In x queue.
Proof.
  destruct (insert_by_priority_split task queue)
    as (before & after & -> & -> & _).
  rewrite !in_app_iff. simpl. intuition congruence.
Qed.

Lemma in_remove_nth {A} (l : list A) :
  forall i x, In x (remove_nth i l) -> In x l.
Proof.
  induction l as [|y l IH]; intros [|i] x H; simpl in *; auto.
  destruct H as [H|H]; [now left|right; eapply IH; exact H].
Qed.

Lemma dependencies_succeeded_app (a a' : BaseAgent) (added : list AgentResult)
  (task : AgentTask) :
  results_history a' = results_history a ++ added ->
  dependencies_succeeded a task -> dependencies_succeeded a' task.
Proof.
  intros Hh Hd d Hin. eapply succeeded_app; [exact Hh|]. now apply Hd.
Qed.

(** Where the tasks of the queue and the tasks in flight come from. *)
Lemma step_members (ev : event) (a : BaseAgent) o a' :
  step ev a = Some (Normal o, a') ->
  (forall x, In x (task_queue a') ->
             In x (task_queue a) \/ dependencies_met x a = true)
  /\ (forall x, In x (in_flight a') ->
                In x (in_flight a) \/ In x (task_queue a))
  /\ (forall x, In x (dequeued [o]) -> In x (task_queue a)).
Proof.
  destruct ev as [task| |i awaited elapsed| |]; simpl.
  - rewrite add_task_eq. destruct (dependencies_met task a) eqn:E;
      intro H; inversion H; subst; simpl.
    + rewrite enqueue_task_queue.
      destruct (enqueue_in_flight task a) as (-> & _).
      split; [|split; [auto|intros x []]].
      intros x Hx. apply insert_by_priority_In in Hx.
      destruct Hx as [->|Hx]; auto.
    + split; [auto|split; [auto|intros x []]].
  - destruct (scheduled a) as [|n]; [discriminate|].
    rewrite process_begin_eq. simpl.
    destruct (task_queue a) as [|task rest] eqn:Eq.
    + intro H; inversion H; subst. simpl. rewrite Eq.
      split; [auto|split; [auto|intros x []]].
    + destruct (status_eqb (status a) IDLE); intro H; inversion H; subst; simpl.
      * split; [intros x Hx; left; now right|]. split.
        -- intros x Hx. apply in_app_or in Hx.
           destruct Hx as [Hx|[<-|[]]]; [now left|right; now left].
        -- intros x [<-|[]]. now left.
      * rewrite Eq. split; [auto|split; [auto|intros x []]].
  - destruct (nth_error (in_flight a) i) as [task|]; [|discriminate].
    rewrite process_resume_eq. intro H; inversion H; subst. simpl.
    set (a0 := set_in_flight (remove_nth i (in_flight a)) a) in *.
    destruct (back_to_idle_fields (record_outcome task awaited elapsed a0))
      as (_ & _ & Hq' & _).
    destruct (record_outcome_frame task awaited elapsed a0)
      as (_ & _ & _ & Hq'' & _ & Hf'').
    assert (Hfl : in_flight (back_to_idle
                               (record_outcome task awaited elapsed a0))
                  = remove_nth i (in_flight a)).
    { transitivity (in_flight (record_outcome task awaited elapsed a0));
        [|exact Hf''].
      unfold back_to_idle.
      destruct (record_outcome task awaited elapsed a0)
        as [? ? ? queue ? ? ? ? ? ? ?]. simpl.
      destruct queue; reflexivity. }
    rewrite Hq', Hq'', Hfl. simpl.
    split; [auto|split; [|intros x []]].
    intros x Hx. left. eapply in_remove_nth. exact Hx.
  - intro H. pose proof (pause_fields a) as (_ & _ & _ & Hq' & Hf').
    destruct (pause a) as [[u|e] a1]; inversion H; subst. simpl in *.
    rewrite Hq', Hf'. split; [auto|split; [auto|intros x []]].
  - intro H. pose proof (resume_fields a) as (_ & _ & _ & Hq' & Hf').
    destruct (resume a) as [[u|e] a1]; inversion H; subst. simpl in *.
    rewrite Hq', Hf'. split; [auto|split; [auto|intros x []]].
Qed.

Lemma step_gated (ev : event) (a : BaseAgent) o a' :
  step ev a = Some (Normal o, a') ->
  gated a ->
  gated a' /\ Forall (dependencies_succeeded a') (dequeued [o]).
Proof.
  intros Hstep [Hq Hf].
  destruct (step_counters _ _ _ _ Hstep) as ((added & Hh & _) & _).
  destruct (step_members _ _ _ _ Hstep) as (Mq & Mf & Md).
  assert (Hmono : forall t, dependencies_succeeded a t ->
                            dependencies_succeeded a' t).
  { intros t. now apply dependencies_succeeded_app with (added := added). }
  rewrite Forall_forall in Hq, Hf.
  assert (Hq' : forall x, In x (task_queue a') -> dependencies_succeeded a' x).
  { intros x Hx. apply Hmono. destruct (Mq x Hx) as [H|H]; [now apply Hq|].
    exact (proj1 (dependencies_met_iff x a) H). }
  unfold gated. rewrite !Forall_forall. split; [split|].
  - exact Hq'.
  - intros x Hx. apply Hmono. destruct (Mf x Hx) as [H|H]; auto.
  - intros x Hx. apply Hmono. apply Hq. now apply Md.
Qed.

Lemma run_gated (evs : list event) :
  forall a0 log a,
    run evs a0 = Some (log, a) ->
    gated a0 ->
    gated a /\ Forall (dependencies_succeeded a) (dequeued log).
Proof.
  induction evs as [|ev evs IH]; intros a0 log a Hrun Hg; simpl in Hrun.
  - inversion Hrun; subst. split; [exact Hg|constructor].
  - destruct (step ev a0) as [[[o|e] a1]|] eqn:Estep; try discriminate.
    destruct (run evs a1) as [[log1 a2]|] eqn:Erun; [|discriminate].
    inversion Hrun; subst. clear Hrun.
    destruct (step_gated _ _ _ _ Estep Hg) as (Hg1 & Hd1).
    destruct (IH _ _ _ Erun Hg1) as (Hg2 & Hd2).
    split; [exact Hg2|].
    rewrite dequeued_cons. apply Forall_app. split; [|exact Hd2].
    destruct (run_counters _ _ _ _ Erun) as ((added & Hh & _) & _).
    eapply Forall_impl; [|exact Hd1].
    intros t. now apply dependencies_succeeded_app with (added := added).
Qed.

(** X4.  Dependencies are only checked by [add_task], and that is
    enough: in every state a new agent reaches, every task in the queue,
    every task being processed and every task that was ever dequeued has
    all its dependencies among the successful results of the history. *)
Theorem queued_tasks_have_dependencies_met
  (id : string) (evs : list event) (log : list observation) (a : BaseAgent) :
  run evs (Agent.init id) = Some (log, a) ->
  Forall (dependencies_succeeded a) (task_queue a)
  /\ Forall (dependencies_succeeded a) (in_flight a)
  /\ Forall (dependencies_succeeded a) (dequeued log).
Proof.
  intro Hrun.
  destruct (run_gated _ _ _ _ Hrun) as ((Hq & Hf) & Hd).
  - split; constructor.
  - auto.
Qed.

Lemma queued_tasks_have_dependencies_met_witness :
  exists log a,
    run one_fails_one_returns (Agent.init "agent") = Some (log, a)
    /\ Forall (dependencies_succeeded a) (dequeued log).
Proof.
  assert (Hrun : exists log a,
             run one_fails_one_returns (Agent.init "agent") = Some (log, a))
    by (eexists; eexists; vm_compute; reflexivity).
  destruct Hrun as (log & a & Hrun).
  exists log, a. split; [exact Hrun|].
  apply (queued_tasks_have_dependencies_met _ _ _ _ Hrun).
Defined.

(** *** One task at a time *)

Lemma resumed_in_flight (task : AgentTask) (awaited : completion AgentResult)
  (elapsed : Q) (a : BaseAgent) :
  in_flight (back_to_idle (record_outcome task awaited elapsed a)) = in_flight a.
Proof.
  destruct (record_outcome_frame task awaited elapsed a)
    as (_ & _ & _ & _ & _ & Hf).
  rewrite <- Hf. unfold back_to_idle.
  destruct (record_outcome task awaited elapsed a)
    as [? ? ? queue ? ? ? ? ? ? ?]. simpl.
  destruct queue; reflexivity.
Qed.

Lemma step_single_flight (ev : event) (a : BaseAgent) o a' :
  step ev a = Some (Normal o, a') ->
  never_resumed [ev] ->
  single_flight a -> single_flight a'.
Proof.
  unfold single_flight.
  destruct ev as [task| |i awaited elapsed| |]; simpl; try contradiction.
  - rewrite add_task_eq. destruct (dependencies_met task a);
      intros H _; inversion H; subst; [|tauto].
    destruct (enqueue_frame task a) as (-> & -> & _).
    destruct (enqueue_in_flight task a) as (-> & _). tauto.
  - destruct (scheduled a) as [|n]; [discriminate|].
    rewrite process_begin_eq. simpl.
    destruct (task_queue a) as [|task rest].
    + intros H _; inversion H; subst. simpl. tauto.
    + destruct (status_eqb (status a) IDLE) eqn:E;
        intros H _; inversion H; subst; simpl; [|tauto].
      apply status_eqb_eq in E.
      destruct (in_flight a) as [|t [|t' l]]; simpl.
      * intros _. auto.
      * intros (_ & [Hs|Hs]); rewrite E in Hs; discriminate.
      * tauto.
  - destruct (nth_error (in_flight a) i) as [task|] eqn:Ei; [|discriminate].
    rewrite process_resume_eq. intros H _; inversion H; subst.
    rewrite resumed_in_flight. simpl.
    destruct (back_to_idle_fields
                (record_outcome task awaited elapsed
                   (set_in_flight (remove_nth i (in_flight a)) a)))
      as (Hst & Hcur & _).
    rewrite Hst, Hcur.
    destruct (in_flight a) as [|t [|t' l]]; [destruct i; discriminate| |tauto].
    destruct i as [|i]; simpl; [auto|]. destruct i; discriminate.
  - rewrite pause_eq. intros H _; inversion H; subst.
    destruct (status_eqb (status a) WORKING) eqn:E; [|tauto].
    simpl. destruct (in_flight a) as [|t [|t' l]]; [|tauto|tauto].
    apply status_eqb_eq in E. intros (Hs & _). rewrite E in Hs. discriminate.
Qed.

Lemma never_resumed_cons (ev : event) (evs : list event) :
  never_resumed (ev :: evs) -> never_resumed [ev] /\ never_resumed evs.
Proof. destruct ev; simpl; tauto. Qed.

Lemma run_single_flight (evs : list event) :
  forall a0 log a,
    run evs a0 = Some (log, a) ->
    never_resumed evs ->
    single_flight a0 -> single_flight a.
Proof.
  induction evs as [|ev evs IH]; intros a0 log a Hrun Hnr Hs; simpl in Hrun.
  - inversion Hrun; subst. exact Hs.
  - destruct (step ev a0) as [[[o|e] a1]|] eqn:Estep; try discriminate.
    destruct (run evs a1) as [[log1 a2]|] eqn:Erun; [|discriminate].
    inversion Hrun; subst.
    apply never_resumed_cons in Hnr. destruct Hnr as (H1 & H2).
    eapply IH; [exact Erun|exact H2|].
    eapply step_single_flight; eassumption.
Qed.

(** X5.  As long as nobody calls [resume()], an agent processes one task
    at a time: at most one [_process_next_task] coroutine is suspended in
    [_process_task], its task is [current_task], and the agent is IDLE
    exactly when there is none. *)
Theorem one_task_at_a_time_without_resume
  (id : string) (evs : list event) (log : list observation) (a : BaseAgent) :
  run evs (Agent.init id) = Some (log, a) ->
  never_resumed evs ->
  List.length (in_flight a) <= 1
  /\ current_task a = hd_error (in_flight a)
  /\ (status a = IDLE <-> in_flight a = []).
Proof.
  intros Hrun Hnr.
  assert (Hs : single_flight a).
  { eapply run_single_flight; [exact Hrun|exact Hnr|]. split; reflexivity. }
  unfold single_flight in Hs.
  destruct (in_flight a) as [|t [|t' l]]; simpl; [| |contradiction].
  - destruct Hs as (Hst & Hcur). repeat split; auto.
  - destruct Hs as (Hcur & Hst). split; [lia|]. split; [exact Hcur|].
    split; [|discriminate].
    intro Hi. destruct Hst as [Hst|Hst]; rewrite Hi in Hst; discriminate.
Qed.

Lemma one_task_at_a_time_without_resume_witness :
  exists log a,
    run paused_mid_task (Agent.init "agent") = Some (log, a)
    /\ List.length (in_flight a) <= 1
    /\ current_task a = hd_error (in_flight a).
Proof.
  assert (Hrun : exists log a,
             run paused_mid_task (Agent.init "agent") = Some (log, a))
    by (eexists; eexists; vm_compute; reflexivity).
  destruct Hrun as (log & a & Hrun).
  destruct (one_task_at_a_time_without_resume _ _ _ _ Hrun)
    as (H1 & H2 & _); [simpl; exact I|].
  exists log, a. split; [exact Hrun|]. split; [exact H1|exact H2].
Defined.

(** *** [get_result] and [get_recent_results] *)

Lemma get_result_loop_none (history : list AgentResult) (id : string) :
  get_result_loop history id = None
  <-> forall r, In r history -> r_task_id r <> id.
Proof.
  induction history as [|x history IH]; simpl.
  - split; [intros _ r []|reflexivity].
  - destruct (String.eqb (r_task_id x) id) eqn:E.
    + apply String.eqb_eq in E. split; [discriminate|].
      intro H. exfalso. apply (H x); auto.
    + apply String.eqb_neq in E. rewrite IH. split.
      * intros H r [<-|Hr]; auto.
      * intros H r Hr. apply H. now right.
Qed.

Lemma get_result_loop_some (history : list AgentResult) (id : string)
  (r : AgentResult) :
  get_result_loop history id = Some r ->
  exists before after,
    history = before ++ r :: after
    /\ r_task_id r = id
    /\ forall x, In x before -> r_task_id x <> id.
Proof.
  induction history as [|x history IH]; simpl; [discriminate|].
  destruct (String.eqb (r_task_id x) id) eqn:E.
  - intro H; inversion H; subst. apply String.eqb_eq in E.
    exists [], history. repeat split; auto.
  - intro H. destruct (IH H) as (before & after & -> & Hid & Hb).
    apply String.eqb_neq in E.
    exists (x :: before), after. repeat split; auto.
    intros y [<-|Hy]; auto.
Qed.

Lemma get_result_loop_app (history added : list AgentResult) (id : string)
  (r : AgentResult) :
  get_result_loop history id = Some r ->
  get_result_loop (history ++ added) id = Some r.
Proof.
  induction history as [|x history IH]; simpl; [discriminate|].
  destruct (String.eqb (r_task_id x) id); auto.
Qed.

(** X6.  [get_result] answers with the earliest result recorded for the
    task id, and with [None] exactly when the history has none.  Results
    recorded later never change the answer: when a task id is processed
    a second time, [get_result] keeps returning the first result. *)
Theorem get_result_earliest (a : BaseAgent) (id : string) :
  (get_result a id = None
   <-> forall r, In r (results_history a) -> r_task_id r <> id)
  /\ (forall r,
        get_result a id = Some r ->
        exists before after,
          results_history a = before ++ r :: after
          /\ r_task_id r = id
          /\ forall x, In x before -> r_task_id x <> id)
  /\ (forall r evs log a',
        get_result a id = Some r ->
        run evs a = Some (log, a') ->
        get_result a' id = Some r).
Proof.
  unfold get_result. split; [apply get_result_loop_none|].
  split; [intro r; apply get_result_loop_some|].
  intros r evs log a' Hr Hrun.
  destruct (run_counters _ _ _ _ Hrun) as ((added & -> & _) & _).
  now apply get_result_loop_app.
Qed.

Lemma get_result_earliest_witness :
  exists log a log' a' r,
    run one_failure (Agent.init "agent") = Some (log, a)
    /\ run [AddTask (a_task "t" MEDIUM []); ProcessStart;
            ProcessFinish 0 (Normal (ok_result "t")) 1] a = Some (log', a')
    /\ get_result a "t" = Some r
    /\ success r = false
    /\ get_result a' "t" = Some r.
Proof.
  assert (Hrun : exists log a,
             run one_failure (Agent.init "agent") = Some (log, a)
             /\ exists r, get_result a "t" = Some r /\ success r = false).
  { eexists. eexists. split; [vm_compute; reflexivity|].
    eexists. split; reflexivity. }
  destruct Hrun as (log & a & Hrun & r & Hr & Hs).
  assert (Hrun' : exists log' a',
             run [AddTask (a_task "t" MEDIUM []); ProcessStart;
                  ProcessFinish 0 (Normal (ok_result "t")) 1] a
             = Some (log', a')).
  { revert Hrun. clear. intro Hrun.
    assert (Ha : a = snd (match run one_failure (Agent.init "agent") with
                          | Some x => x
                          | None => ([], a)
                          end)) by (rewrite Hrun; reflexivity).
    rewrite Ha. eexists. eexists. vm_compute. reflexivity. }
  destruct Hrun' as (log' & a' & Hrun').
  exists log, a, log', a', r.
  split; [exact Hrun|]. split; [exact Hrun'|]. split; [exact Hr|].
  split; [exact Hs|].
  exact (proj2 (proj2 (get_result_earliest a "t")) r _ _ _ Hr Hrun').
Defined.

Lemma slice_from_length {A} (start : Z) (l : list A) :
  exists older, l = older ++ slice_from start l.
Proof.
  unfold slice_from. eexists. symmetry. apply firstn_skipn.
Qed.

(** X7.  [get_recent_results(limit)] is the slice [history[-limit:]]: for
    a positive [limit] the last [min(limit, len(history))] results, in
    order; for [limit = 0] not the empty list but the whole history; for
    a negative [limit] the history without its first [-limit] results. *)
Theorem get_recent_results_slice (a : BaseAgent) (limit : Z) :
  ((0 < limit)%Z ->
   (exists older, results_history a = older ++ get_recent_results a limit)
   /\ List.length (get_recent_results a limit)
      = Nat.min (Z.to_nat limit) (List.length (results_history a)))
  /\ (limit = 0%Z -> get_recent_results a limit = results_history a)
  /\ ((limit < 0)%Z ->
      get_recent_results a limit
      = skipn (Z.to_nat (- limit)) (results_history a)).
Proof.
  unfold get_recent_results. split; [|split].
  - intro Hpos. split; [apply slice_from_length|].
    unfold slice_from.
    replace (- limit <? 0)%Z with true by (symmetry; apply Z.ltb_lt; lia).
    rewrite length_skipn. lia.
  - intros ->. unfold slice_from. simpl. rewrite Z.min_l by lia. reflexivity.
  - intro Hneg. unfold slice_from.
    replace (- limit <? 0)%Z with false by (symmetry; apply Z.ltb_ge; lia).
    destruct (Z_le_gt_dec (- limit) (Z.of_nat (List.length (results_history a))))
      as [Hle|Hgt].
    + now rewrite Z.min_l by exact Hle.
    + rewrite Z.min_r by lia. rewrite Nat2Z.id.
      rewrite skipn_all. symmetry. apply skipn_all2. lia.
Qed.

Lemma get_recent_results_slice_witness :
  exists log a,
    run one_fails_one_returns (Agent.init "agent") = Some (log, a)
    /\ List.length (get_recent_results a 1) = 1
    /\ get_recent_results a 0 = results_history a.
Proof.
  assert (Hrun : exists log a,
             run one_fails_one_returns (Agent.init "agent") = Some (log, a)
             /\ List.length (results_history a) = 2).
  { eexists. eexists. split; [vm_compute; reflexivity|reflexivity]. }
  destruct Hrun as (log & a & Hrun & Hlen).
  destruct (get_recent_results_slice a 1) as (Hpos & _).
  destruct (get_recent_results_slice a 0) as (_ & Hzero & _).
  exists log, a. split; [exact Hrun|]. split.
  - destruct Hpos as (_ & Hl); [lia|]. rewrite Hl, Hlen. reflexivity.
  - now apply Hzero.
Defined.

End AgentQueriesFacts.

(** ** The agent pool *)

Section AgentPoolFacts.

Import Py Agent AgentPool.

Lemma dict_lookup_set {V} (key key' : string) (v : V) (d : list (string * V)) :
  dict_lookup (dict_set key v d) key'
  = if String.eqb key key' then Some v else dict_lookup d key'.
Proof.
  induction d as [|[k0 v0] d IH]; simpl; [reflexivity|].
  destruct (String.eqb k0 key) eqn:E0; simpl.
  - apply String.eqb_eq in E0. subst k0.
    destruct (String.eqb key key'); reflexivity.
  - rewrite IH. destruct (String.eqb k0 key') eqn:E1; [|reflexivity].
    apply String.eqb_eq in E1. rewrite E1 in E0.
    now rewrite (String.eqb_sym key key'), E0.
Qed.

Lemma dict_set_set {V} (key : string) (v1 v2 : V) (d : list (string * V)) :
  dict_set key v2 (dict_set key v1 d) = dict_set key v2 d.
Proof.
  induction d as [|[k0 v0] d IH]; simpl.
  - now rewrite String.eqb_refl.
  - destruct (String.eqb k0 key) eqn:E0; simpl.
    + now rewrite String.eqb_refl.
    + now rewrite E0, IH.
Qed.

Lemma dict_set_length {V} (key : string) (v : V) (d : list (string * V)) :
  List.length (dict_set key v d) <= S (List.length d).
Proof.
  induction d as [|[k0 v0] d IH]; simpl; [lia|].
  destruct (String.eqb k0 key); simpl; lia.
Qed.

Lemma dict_set_Forall {V} (P : string * V -> Prop) (key : string) (v : V)
  (d : list (string * V)) :
  Forall P d -> P (key, v) -> Forall P (dict_set key v d).
Proof.
  intros Hd Hv. induction Hd as [|[k0 v0] d H0 Hd IH]; simpl.
  - repeat constructor. exact Hv.
  - destruct (String.eqb k0 key); constructor; auto.
Qed.

(** Appending [r] to the list under [key] adds [r] once to the lists
    taken together. *)
Lemma dict_append_count (f : ref -> bool) (key : string) (r : ref)
  (d : list (string * list ref)) :
  List.length
    (filter f (List.concat (map snd
       (dict_set key
          (match dict_lookup d key with Some l => l | None => [] end ++ [r])
          d))))
  = List.length (filter f (List.concat (map snd d))) + (if f r then 1 else 0).
Proof.
  induction d as [|[k0 v0] d IH]; simpl.
  - destruct (f r); reflexivity.
  - destruct (String.eqb k0 key) eqn:E0; simpl.
    + rewrite !filter_app, !length_app. simpl. destruct (f r); simpl; lia.
    + rewrite !filter_app, !length_app, IH. lia.
Qed.

(** [register_agent] on the two dictionaries. *)
Lemma register_agent_types (s : store) (r : ref) (p : t) :
  agent_types (register_agent s r p)
  = dict_set (agent_type (s r))
      (get_agents_by_type p (agent_type (s r)) ++ [r]) (agent_types p).
Proof.
  unfold register_agent, get_agents_by_type. simpl.
  destruct (dict_lookup (agent_types p) (agent_type (s r))) as [l|] eqn:E.
  - rewrite E. reflexivity.
  - rewrite dict_lookup_set, String.eqb_refl. apply dict_set_set.
Qed.

Lemma register_by_type (s : store) (r : ref) (p : t) (ty : string) :
  get_agents_by_type (register_agent s r p) ty
  = get_agents_by_type p ty ++ (if has_type s ty r then [r] else []).
Proof.
  unfold get_agents_by_type at 1. rewrite register_agent_types, dict_lookup_set.
  unfold has_type. destruct (String.eqb (agent_type (s r)) ty) eqn:E.
  - apply String.eqb_eq in E. now subst ty.
  - fold (get_agents_by_type p ty). now rewrite app_nil_r.
Qed.

Lemma register_get_agent (s : store) (r : ref) (p : t) (id : string) :
  get_agent (register_agent s r p) id
  = if has_id s id r then Some r else get_agent p id.
Proof.
  unfold get_agent, register_agent, has_id. simpl. apply dict_lookup_set.
Qed.

Lemma registered_from (s : store) (refs : list ref) :
  forall p,
    (forall ty,
        get_agents_by_type (fold_left (fun p r => register_agent s r p) refs p) ty
        = get_agents_by_type p ty ++ filter (has_type s ty) refs)
    /\ (forall id,
          get_agent (fold_left (fun p r => register_agent s r p) refs p) id
          = match find_last (has_id s id) refs with
            | Some r => Some r
            | None => get_agent p id
            end).
Proof.
  induction refs as [|r refs IH]; intro p; simpl.
  - split; [intro ty; now rewrite app_nil_r|reflexivity].
  - destruct (IH (register_agent s r p)) as (Hty & Hid). split.
    + intro ty. rewrite Hty, register_by_type, <- app_assoc.
      destruct (has_type s ty r); reflexivity.
    + intro id. rewrite Hid, register_get_agent.
      destruct (find_last (has_id s id) refs); [reflexivity|].
      destruct (has_id s id r); reflexivity.
Qed.

Lemma find_last_some {A} (f : A -> bool) (l : list A) (y : A) :
  find_last f l = Some y -> In y l /\ f y = true.
Proof.
  induction l as [|x l IH]; simpl; [discriminate|].
  destruct (find_last f l) as [z|].
  - intro H; inversion H; subst. destruct (IH eq_refl). auto.
  - destruct (f x) eqn:E; [|discriminate].
    intro H; inversion H; subst. auto.
Qed.

Lemma find_last_none {A} (f : A -> bool) (l : list A) (x : A) :
  find_last f l = None -> In x l -> f x = false.
Proof.
  induction l as [|y l IH]; simpl; [intros _ []|].
  destruct (find_last f l) as [z|]; [discriminate|].
  destruct (f y) eqn:E; [discriminate|].
  intros _ [<-|Hx]; auto.
Qed.

(** X8.  The registry after any registrations: [get_agents_by_type]
    lists the registered agents of the type in registration order (an
    agent registered twice is listed twice, an unknown type gives the
    empty list); [get_agent] answers with the agent registered last under
    the id, and with [None] for an id nobody registered; an agent whose
    id no other registered agent shares is found under its id. *)
Theorem registry_lookup (s : store) (refs : list ref) :
  (forall ty,
      get_agents_by_type (registered s refs) ty = filter (has_type s ty) refs)
  /\ (forall id,
        get_agent (registered s refs) id = find_last (has_id s id) refs)
  /\ (forall id,
        get_agent (registered s refs) id = None
        <-> forall r, In r refs -> agent_id (agent (s r)) <> id)
  /\ (forall r,
        In r refs ->
        (forall r', In r' refs ->
                    agent_id (agent (s r')) = agent_id (agent (s r)) -> r' = r) ->
        get_agent (registered s refs) (agent_id (agent (s r))) = Some r).
Proof.
  destruct (registered_from s refs init) as (Hty & Hid).
  assert (Hid' : forall id,
             get_agent (registered s refs) id = find_last (has_id s id) refs).
  { intro id. unfold registered. rewrite Hid.
    destruct (find_last (has_id s id) refs); reflexivity. }
  split; [intro ty; unfold registered; now rewrite Hty|].
  split; [exact Hid'|]. split.
  - intro id. rewrite Hid'. split.
    + intros Hnone r Hr Heq.
      pose proof (find_last_none _ _ r Hnone Hr) as Hf.
      unfold has_id in Hf. rewrite Heq, String.eqb_refl in Hf. discriminate.
    + intro Hno. destruct (find_last (has_id s id) refs) as [y|] eqn:E;
        [|reflexivity].
      apply find_last_some in E. destruct E as (Hy & Hf).
      apply String.eqb_eq in Hf. exfalso. now apply (Hno y).
  - intros r Hr Huniq. rewrite Hid'.
    destruct (find_last (has_id s (agent_id (agent (s r)))) refs) as [y|] eqn:E.
    + apply find_last_some in E. destruct E as (Hy & Hf).
      apply String.eqb_eq in Hf. now rewrite (Huniq y Hy Hf).
    + pose proof (find_last_none _ _ r E Hr) as Hf.
      unfold has_id in Hf. rewrite String.eqb_refl in Hf. discriminate.
Qed.

Lemma registry_lookup_witness :
  get_agent (registered example_store [0; 1; 2; 3]) "g1" = Some 1
  /\ get_agents_by_type (registered example_store [0; 1; 2; 3]) "geometry"
     = [0; 1; 2].
Proof.
  destruct (registry_lookup example_store [0; 1; 2; 3]) as (Hty & _ & _ & Hid).
  split.
  - apply (Hid 1); [simpl; auto|].
    intros r' Hr' Heq. simpl in Hr'.
    destruct Hr' as [<-|[<-|[<-|[<-|[]]]]]; try reflexivity;
      vm_compute in Heq; discriminate.
  - rewrite Hty. reflexivity.
Defined.

(** *** [get_available_agent] *)

Lemma first_idle_some (s : store) (l : list ref) (r : ref) :
  first_idle s l = Some r ->
  exists before after,
    l = before ++ r :: after
    /\ idle_and_free (agent (s r)) = true
    /\ forall x, In x before -> idle_and_free (agent (s x)) = false.
Proof.
  induction l as [|y l IH]; simpl; [discriminate|].
  destruct (idle_and_free (agent (s y))) eqn:E.
  - intro H; inversion H; subst. exists [], l. repeat split; auto.
    intros x [].
  - intro H. destruct (IH H) as (before & after & -> & Hr & Hb).
    exists (y :: before), after. repeat split; auto.
    intros x [<-|Hx]; auto.
Qed.

Lemma first_idle_none (s : store) (l : list ref) :
  first_idle s l = None <->
  forall x, In x l -> idle_and_free (agent (s x)) = false.
Proof.
  induction l as [|y l IH]; simpl.
  - split; [intros _ x []|reflexivity].
  - destruct (idle_and_free (agent (s y))) eqn:E.
    + split; [discriminate|]. intro H. rewrite (H y) in E; [discriminate|auto].
    + rewrite IH. split.
      * intros H x [<-|Hx]; auto.
      * intros H x Hx. apply H. now right.
Qed.

Lemma min_by_least (key : ref -> nat) (rest : list ref) :
  forall best,
    In (min_by key best rest) (best :: rest)
    /\ forall x, In x (best :: rest) -> key (min_by key best rest) <= key x.
Proof.
  induction rest as [|r rest IH]; intro best; simpl.
  - split; [now left|]. intros x [<-|[]]. lia.
  - destruct (key r <? key best) eqn:E.
    + apply Nat.ltb_lt in E. destruct (IH r) as (Hin & Hle). split.
      * simpl in Hin. tauto.
      * intros x [<-|Hx]; [|now apply Hle].
        specialize (Hle r (or_introl eq_refl)). lia.
    + apply Nat.ltb_ge in E. destruct (IH best) as (Hin & Hle). split.
      * simpl in Hin. tauto.
      * intros x [<-|[<-|Hx]].
        -- apply Hle. now left.
        -- specialize (Hle best (or_introl eq_refl)). lia.
        -- apply Hle. now right.
Qed.

(** X9.  [get_available_agent] answers [None] exactly when no agent of
    the type is registered.  Otherwise it answers with a registered agent
    of the type: the first one that is IDLE without a current task when
    there is one, and else one whose queue is not longer than any
    other's. *)
Theorem get_available_agent_choice (s : store) (p : t) (ty : string) :
  (get_available_agent s p ty = None <-> get_agents_by_type p ty = [])
  /\ (forall r,
        get_available_agent s p ty = Some r ->
        In r (get_agents_by_type p ty)
        /\ (idle_and_free (agent (s r)) = true ->
            exists before after,
              get_agents_by_type p ty = before ++ r :: after
              /\ forall x, In x before -> idle_and_free (agent (s x)) = false)
        /\ (idle_and_free (agent (s r)) = false ->
            forall x, In x (get_agents_by_type p ty) ->
                      idle_and_free (agent (s x)) = false
                      /\ queue_length s r <= queue_length s x)).
Proof.
  unfold get_available_agent.
  destruct (first_idle s (get_agents_by_type p ty)) as [r0|] eqn:E.
  - destruct (first_idle_some _ _ _ E) as (before & after & Hl & Hr & Hb).
    split.
    + split; [discriminate|]. intro Hnil. rewrite Hnil in E. discriminate.
    + intros r H; inversion H; subst r0. split; [|split].
      * rewrite Hl. apply in_or_app. right. now left.
      * intros _. exists before, after. auto.
      * intro Hf. rewrite Hf in Hr. discriminate.
  - pose proof (proj1 (first_idle_none _ _) E) as Hnone.
    destruct (get_agents_by_type p ty) as [|b rest].
    + split; [tauto|discriminate].
    + split; [split; discriminate|].
      intros r H; inversion H; subst r.
      destruct (min_by_least (queue_length s) rest b) as (Hin & Hle).
      split; [exact Hin|]. split.
      * intro Ht. rewrite (Hnone _ Hin) in Ht. discriminate.
      * intros _ x Hx. split; [now apply Hnone|now apply Hle].
Qed.

Lemma get_available_agent_choice_witness :
  get_available_agent example_store (registered example_store [0; 1; 2; 3])
    "geometry" = Some 2
  /\ In 2 (get_agents_by_type (registered example_store [0; 1; 2; 3])
             "geometry").
Proof.
  assert (H : get_available_agent example_store
                (registered example_store [0; 1; 2; 3]) "geometry" = Some 2)
    by (vm_compute; reflexivity).
  split; [exact H|].
  apply (proj2 (get_available_agent_choice example_store
                  (registered example_store [0; 1; 2; 3]) "geometry") 2 H).
Defined.

(** *** [get_pool_status] *)

Lemma count_status_cons (s : store) (st : AgentStatus) (r : ref) (l : list ref) :
  count_status s st (r :: l)
  = (if status_eqb (status (agent (s r))) st then 1 else 0) + count_status s st l.
Proof.
  unfold count_status. simpl.
  destruct (status_eqb (status (agent (s r))) st); reflexivity.
Qed.

Lemma bump_all_spec (s : store) (l : list ref) :
  forall o,
    match bump_all s l o with
    | Normal o' =>
        (forall r, In r l -> status (agent (s r)) <> COMPLETED)
        /\ o_idle o' = o_idle o + count_status s IDLE l
        /\ o_working o' = o_working o + count_status s WORKING l
        /\ o_paused o' = o_paused o + count_status s PAUSED l
        /\ o_error o' = o_error o + count_status s ERROR l
    | Throw e =>
        e = Exn "KeyError" "'completed'"
        /\ exists r, In r l /\ status (agent (s r)) = COMPLETED
    end.
Proof.
  induction l as [|a l IH]; intro o.
  - simpl. split; [intros r []|]. unfold count_status. simpl. lia.
  - cbn [bump_all]. rewrite !count_status_cons.
    destruct (status (agent (s a))) eqn:E; cbn [bump status_eqb];
      try (match goal with
           | |- context [bump_all s l ?o'] =>
               specialize (IH o'); destruct (bump_all s l o') as [o''|e]
           end;
           [ destruct IH as (Hno & Hi & Hw & Hp & He);
             cbn [o_idle o_working o_paused o_error] in *;
             split; [intros r [<-|Hr]; [congruence|now apply Hno]|lia]
           | destruct IH as (-> & r & Hr & Hc);
             split; [reflexivity|exists r; split; [now right|exact Hc]] ]).
    split; [reflexivity|]. exists a. split; [now left|exact E].
Qed.

Lemma count_status_app (s : store) (st : AgentStatus) (l1 l2 : list ref) :
  count_status s st (l1 ++ l2) = count_status s st l1 + count_status s st l2.
Proof. unfold count_status. now rewrite filter_app, length_app. Qed.

Lemma status_loop_spec (s : store) (d : list (string * list ref)) :
  Forall (fun kv => snd kv <> []) d ->
  forall acc o,
    match status_loop s d acc o with
    | Normal (bt, o') =>
        (forall r, In r (List.concat (map snd d)) ->
                   status (agent (s r)) <> COMPLETED)
        /\ o_idle o' = o_idle o + count_status s IDLE (List.concat (map snd d))
        /\ o_working o'
           = o_working o + count_status s WORKING (List.concat (map snd d))
        /\ o_paused o'
           = o_paused o + count_status s PAUSED (List.concat (map snd d))
        /\ o_error o' = o_error o + count_status s ERROR (List.concat (map snd d))
        /\ exists bt',
            bt = acc ++ bt'
            /\ Forall2 (fun kv b => fst b = fst kv
                                    /\ status_of_type s (snd kv) = Normal (snd b))
                 d bt'
    | Throw e =>
        e = Exn "KeyError" "'completed'"
        /\ exists r, In r (List.concat (map snd d))
                     /\ status (agent (s r)) = COMPLETED
    end.
Proof.
  induction 1 as [|[ty l] d Hl Hd IH]; intros acc o.
  - simpl. split; [intros r []|]. unfold count_status. simpl.
    repeat (split; [lia|]). exists []. split; [now rewrite app_nil_r|constructor].
  - cbn [status_loop map List.concat snd] in *.
    destruct l as [|x l]; [congruence|].
    cbn [status_of_type].
    pose proof (bump_all_spec s (x :: l) o) as Hb.
    destruct (bump_all s (x :: l) o) as [o1|e].
    + destruct Hb as (Hno & Hi & Hw & Hp & He).
      match goal with
      | |- context [status_loop s d ?acc' o1] => specialize (IH acc' o1);
          destruct (status_loop s d acc' o1) as [[bt o2]|e]
      end.
      * destruct IH as (Hno' & Hi' & Hw' & Hp' & He' & bt' & Hbt & HF).
        rewrite !count_status_app.
        split; [intros r Hr; apply in_app_or in Hr; destruct Hr; auto|].
        repeat (split; [lia|]).
        eexists. split; [rewrite Hbt, <- app_assoc; reflexivity|].
        constructor; [split; reflexivity|exact HF].
      * destruct IH as (-> & r & Hr & Hc). split; [reflexivity|].
        exists r. split; [apply in_or_app; now right|exact Hc].
    + destruct Hb as (-> & r & Hr & Hc). split; [reflexivity|].
      exists r. split; [apply in_or_app; now left|exact Hc].
Qed.

Lemma filter_length_pos {A} (f : A -> bool) (l : list A) :
  0 < List.length (filter f l) <-> exists x, In x l /\ f x = true.
Proof.
  split.
  - destruct (filter f l) as [|x l'] eqn:E; simpl; [lia|]. intros _.
    assert (Hx : In x (filter f l)) by (rewrite E; now left).
    apply filter_In in Hx. now exists x.
  - intros (x & Hx & Hf).
    assert (Hin : In x (filter f l)) by (apply filter_In; auto).
    destruct (filter f l); [destruct Hin|simpl; lia].
Qed.

(** What registrations keep true of the two dictionaries. *)
Lemma register_agent_invariant (s : store) (r : ref) (p : t) :
  (Forall (fun kv => snd kv <> []) (agent_types p) ->
   Forall (fun kv => snd kv <> []) (agent_types (register_agent s r p)))
  /\ (forall f,
        List.length
          (filter f (List.concat (map snd (agent_types (register_agent s r p)))))
        = List.length (filter f (List.concat (map snd (agent_types p))))
          + (if f r then 1 else 0))
  /\ List.length (agents (register_agent s r p)) <= S (List.length (agents p)).
Proof.
  rewrite register_agent_types. split; [|split].
  - intro H. apply dict_set_Forall; [exact H|].
    simpl. intro E. now apply app_eq_nil in E as [_ E].
  - intro f. apply dict_append_count.
  - apply dict_set_length.
Qed.

Lemma registered_invariant (s : store) (refs : list ref) :
  forall p,
    Forall (fun kv => snd kv <> []) (agent_types p) ->
    Forall (fun kv => snd kv <> [])
      (agent_types (fold_left (fun p r => register_agent s r p) refs p))
    /\ (forall f,
          List.length
            (filter f
               (List.concat
                  (map snd
                     (agent_types
                        (fold_left (fun p r => register_agent s r p) refs p)))))
          = List.length (filter f (List.concat (map snd (agent_types p))))
            + List.length (filter f refs))
    /\ List.length (agents (fold_left (fun p r => register_agent s r p) refs p))
       <= List.length (agents p) + List.length refs.
Proof.
  induction refs as [|r refs IH]; intros p Hp; simpl.
  - split; [exact Hp|]. split; [intro f|]; lia.
  - destruct (register_agent_invariant s r p) as (H1 & H2 & H3).
    destruct (IH _ (H1 Hp)) as (I1 & I2 & I3). split; [exact I1|]. split.
    + intro f. rewrite I2, H2. destruct (f r); simpl; lia.
    + lia.
Qed.

(** The per-type entries of the report against the type dictionary. *)
Lemma by_type_lookup (s : store) (d : list (string * list ref))
  (bt : list (string * type_status)) (ty : string) :
  Forall2 (fun kv b => fst b = fst kv
                       /\ status_of_type s (snd kv) = Normal (snd b)) d bt ->
  match dict_lookup bt ty with
  | Some ts => exists l, dict_lookup d ty = Some l
                         /\ status_of_type s l = Normal ts
  | None => dict_lookup d ty = None
  end.
Proof.
  induction 1 as [|[k l] [k' ts] d bt (Hk & Hs) HF IH]; simpl; [reflexivity|].
  simpl in Hk, Hs. subst k'.
  destruct (String.eqb k ty); [|exact IH]. now exists l.
Qed.

Lemma dict_lookup_Forall {V} (P : string * V -> Prop) (d : list (string * V))
  (key : string) (v : V) :
  Forall P d -> dict_lookup d key = Some v -> P (key, v).
Proof.
  induction 1 as [|[k0 v0] d H0 Hd IH]; simpl; [discriminate|].
  destruct (String.eqb k0 key) eqn:E; [|exact IH].
  apply String.eqb_eq in E. subst k0. intro H; inversion H; now subst.
Qed.

Lemma registered_by_type (s : store) (refs : list ref) (ty : string) :
  get_agents_by_type (registered s refs) ty = filter (has_type s ty) refs.
Proof.
  unfold registered. now rewrite (proj1 (registered_from s refs init)).
Qed.

Lemma count_status_total (s : store) (l : list ref) :
  (forall r, In r l -> status (agent (s r)) <> COMPLETED) ->
  count_status s IDLE l + count_status s WORKING l
  + count_status s PAUSED l + count_status s ERROR l = List.length l.
Proof.
  induction l as [|r l IH]; intro Hno; [reflexivity|].
  rewrite !count_status_cons. simpl List.length.
  assert (IH' := IH (fun x Hx => Hno x (or_intror Hx))).
  pose proof (Hno r (or_introl eq_refl)) as Hr.
  destruct (status (agent (s r))); simpl; try lia. congruence.
Qed.

(** X10.  [get_pool_status] on a pool filled by [register_agent].  It
    raises exactly when a registered agent is in status COMPLETED, and
    then a [KeyError]: in particular it never divides by zero.  Otherwise
    the overall counters are the numbers of registered agents that are
    idle, working, paused and in error, they add up to the number of
    registrations, [total_agents] is at most that number, and a type has
    an entry exactly when an agent of the type was registered, with the
    count, the idle and working numbers and the mean queue length of the
    agents of the type. *)
Theorem pool_status_of_registered (s : store) (refs : list ref) :
  (forall e,
      get_pool_status s (registered s refs) = Throw e ->
      e = Exn "KeyError" "'completed'")
  /\ ((exists e, get_pool_status s (registered s refs) = Throw e)
      <-> exists r, In r refs /\ status (agent (s r)) = COMPLETED)
  /\ (forall st,
        get_pool_status s (registered s refs) = Normal st ->
        o_idle (overall_stats st) = count_status s IDLE refs
        /\ o_working (overall_stats st) = count_status s WORKING refs
        /\ o_paused (overall_stats st) = count_status s PAUSED refs
        /\ o_error (overall_stats st) = count_status s ERROR refs
        /\ overall_total (overall_stats st) = List.length refs
        /\ total_agents st <= List.length refs
        /\ forall ty,
            match dict_lookup (by_type st) ty with
            | Some ts =>
                status_of_type s (filter (has_type s ty) refs) = Normal ts
            | None => filter (has_type s ty) refs = []
            end).
Proof.
  destruct (registered_invariant s refs init (Forall_nil _)) as (I1 & I2 & I3).
  fold (registered s refs) in I1, I2, I3.
  assert (Hcount : forall st,
             count_status s st
               (List.concat (map snd (agent_types (registered s refs))))
             = count_status s st refs).
  { intro st. unfold count_status. now rewrite I2. }
  assert (Hcompleted :
            (exists r, In r (List.concat
                               (map snd (agent_types (registered s refs))))
                       /\ status (agent (s r)) = COMPLETED)
            <-> exists r, In r refs /\ status (agent (s r)) = COMPLETED).
  { pose proof (Hcount COMPLETED) as Hc. unfold count_status in Hc.
    split; intros (r & Hr & Hst).
    - assert (Hpos : 0 < List.length
                           (filter (fun r => status_eqb (status (agent (s r)))
                                                COMPLETED) refs)).
      { rewrite <- Hc. apply filter_length_pos. exists r. split; [exact Hr|].
        now apply status_eqb_eq. }
      apply filter_length_pos in Hpos. destruct Hpos as (x & Hx & Hf).
      exists x. split; [exact Hx|now apply status_eqb_eq].
    - assert (Hpos : 0 < List.length
                           (filter (fun r => status_eqb (status (agent (s r)))
                                                COMPLETED)
                              (List.concat
                                 (map snd (agent_types (registered s refs)))))).
      { rewrite Hc. apply filter_length_pos. exists r. split; [exact Hr|].
        now apply status_eqb_eq. }
      apply filter_length_pos in Hpos. destruct Hpos as (x & Hx & Hf).
      exists x. split; [exact Hx|now apply status_eqb_eq]. }
  pose proof (status_loop_spec s _ I1 [] (mkOverall 0 0 0 0)) as Hloop.
  pose proof (registered_by_type s refs) as Hty.
  unfold get_pool_status.
  destruct (status_loop s (agent_types (registered s refs)) []
              (mkOverall 0 0 0 0)) as [[bt o]|e0].
  - destruct Hloop as (Hno & Hi & Hw & Hp & He & bt' & Hbt & HF).
    simpl in Hbt, Hi, Hw, Hp, He. subst bt'.
    rewrite Hcount in Hi, Hw, Hp, He.
    split; [discriminate|]. split.
    + split; [intros (e & H); discriminate|].
      intro Hex. apply Hcompleted in Hex. destruct Hex as (r & Hr & Hc).
      now destruct (Hno r Hr).
    + intros st H; inversion H; subst st; clear H. simpl.
      repeat (split; [assumption|]). split; [|split].
      * unfold overall_total. rewrite Hi, Hw, Hp, He.
        apply count_status_total. intros r Hr Hc.
        destruct (proj2 Hcompleted (ex_intro _ r (conj Hr Hc))) as (x & Hx & Hxc).
        now destruct (Hno x Hx).
      * simpl in I3. exact I3.
      * intro ty. pose proof (by_type_lookup s _ _ ty HF) as Hl.
        rewrite <- Hty. unfold get_agents_by_type.
        destruct (dict_lookup bt ty) as [ts|].
        -- destruct Hl as (l & -> & Hs). exact Hs.
        -- now rewrite Hl.
  - destruct Hloop as (-> & Hex). split; [intros e H; now inversion H|].
    split; [|intros st H; discriminate].
    split; [intros _; now apply Hcompleted|intros _; now exists (Exn "KeyError" "'completed'")].
Qed.

Lemma pool_status_of_registered_witness :
  exists st,
    get_pool_status example_store (registered example_store [0; 1; 2; 3])
    = Normal st
    /\ o_idle (overall_stats st) = 1
    /\ o_working (overall_stats st) = 3
    /\ overall_total (overall_stats st) = 4.
Proof.
  assert (H : exists st,
             get_pool_status example_store
               (registered example_store [0; 1; 2; 3]) = Normal st)
    by (eexists; vm_compute; reflexivity).
  destruct H as (st & Hst).
  destruct (pool_status_of_registered example_store [0; 1; 2; 3])
    as (_ & _ & Hcounts).
  destruct (Hcounts st Hst) as (Hi & Hw & _ & _ & Ht & _).
  exists st. split; [exact Hst|]. split; [exact Hi|]. split; [exact Hw|exact Ht].
Defined.

End AgentPoolFacts.

(** ** The agent's status report *)

Section AgentStatusReport.

Import Py Agent AgentQueries.





End AgentStatusReport.

(** ** The rate limiter, in general *)

Section RateLimiterFacts.

Import Py RateLimiter.





(** X13.  With a limit of zero or less a new limiter lets nobody through
    and blocks nobody: every call raises [IndexError], from
    [self.requests[0]] on the empty list, and leaves the limiter as it
    was, the lock released. *)
Theorem rate_limiter_without_limit_raises
  (max : Z) (window : Q) (fuel : nat) (times : list Q) :
  (max <= 0)%Z ->
  back_to_back (S fuel) times (init max window)
  = map (fun _ =>
           Raised (Exn "IndexError" "list index out of range") []
             (init max window))
      times.
Proof.
  intro Hmax. induction times as [|now times IH]; [reflexivity|].
  cbn [back_to_back map].
  assert (Ha : acquire (S fuel) now (init max window)
               = Raised (Exn "IndexError" "list index out of range") []
                   (init max window)).
  { cbn [acquire init locked max_requests window_seconds requests set_locked
         set_requests purge filter List.length].
    replace (max <=? Z.of_nat 0)%Z with true
      by (symmetry; apply Z.leb_le; simpl; lia).
    reflexivity. }
  rewrite Ha. cbn [state_after]. now rewrite IH.
Qed.

Lemma rate_limiter_without_limit_raises_witness :
  back_to_back 2 five_calls (init 0 60)
  = map (fun _ =>
           Raised (Exn "IndexError" "list index out of range") [] (init 0 60))
      five_calls.
Proof.
  apply (rate_limiter_without_limit_raises 0 60 1 five_calls). lia.
Defined.

End RateLimiterFacts.

(** ** The request queue: what the status says, and a queue without slots *)

Section RequestQueueFacts.

Import Py RequestQueue.

(** X14.  In every state that callers of [acquire_slot] reach,
    [available_slots] of [get_queue_status] lies between the number of
    free units of the semaphore and [max_concurrent]: it counts as
    available the slots of the callers that hold the semaphore and have
    not yet raised, or have already lowered, [active_requests].  The two
    numbers agree when no caller is at one of these two points. *)
Theorem available_slots_bounds (n : Z) (s : system) :
  reachable n s ->
  (0 <= semaphore (queue s)
   <= st_available_slots (get_queue_status (queue s)))%Z
  /\ (st_available_slots (get_queue_status (queue s)) <= n)%Z
  /\ st_available_slots (get_queue_status (queue s))
     = (semaphore (queue s)
        + (count holding (callers s) - count counted (callers s)))%Z
  /\ (semaphore (queue s) = 0%Z -> count holding (callers s) = n).
Proof.
  intro Hreach.
  destruct (reachable_consistent _ _ Hreach)
    as ((Hsem & Hact & Hpos) & Hmax & Hn).
  pose proof (count_nonneg counted (callers s)) as H0.
  assert (Hch : (count counted (callers s) <= count holding (callers s))%Z).
  { apply count_le. intros [] H; simpl in *; congruence. }
  unfold get_queue_status. simpl. repeat split; lia.
Qed.

Lemma available_slots_bounds_witness :
  (0 <= semaphore (mk 2 2 0)
   <= st_available_slots (get_queue_status (mk 2 2 0)))%Z.
Proof.
  assert (Hreach : reachable 2
            (mkSystem (mk 2 2 0)
               [Done (ErrorRaised (Exn "RuntimeError" "boom")); Done Cancelled;
                Done NormalReturn; Done NormalReturn;
                Done (ErrorRaised (Exn "RuntimeError" "boom"))])).
  { eexists. exists 5, two_slots_five_callers.
    split; [reflexivity|vm_compute; reflexivity]. }
  exact (proj1 (available_slots_bounds _ _ Hreach)).
Defined.

(** X15.  A queue built with [max_concurrent = 0] is accepted by the
    constructor and never lets a caller in: every caller stays in front
    of the semaphore, whatever the schedule.  A negative [max_concurrent]
    is refused by the constructor with a [ValueError]. *)
Theorem queue_without_slots (n : Z) (s : system) :
  (n <= 0)%Z ->
  reachable n s ->
  n = 0%Z
  /\ queue s = mk 0 0 0
  /\ callers s = repeat Outside (List.length (callers s))
  /\ forall i act, step i act s = None.
Proof.
  intros Hn (q & k & sched & Hinit & Hrun).
  unfold init in Hinit. destruct (n <? 0)%Z eqn:E; [discriminate|].
  apply Z.ltb_ge in E. assert (n = 0%Z) by lia. subst n.
  inversion Hinit; subst q; clear Hinit.
  assert (Hstuck : forall i act, step i act (start (mk 0 0 0) k) = None).
  { intros i act. unfold step, start. simpl.
    destruct (nth_error (repeat Outside k) i) as [ph|] eqn:Ei; [|reflexivity].
    apply nth_error_In, repeat_spec in Ei. subst ph.
    destruct act; reflexivity. }
  destruct sched as [|[i act] sched]; simpl in Hrun.
  - inversion Hrun; subst s. simpl. rewrite repeat_length.
    repeat split. exact Hstuck.
  - rewrite Hstuck in Hrun. discriminate.
Qed.

Lemma queue_without_slots_witness :
  queue (start (mk 0 0 0) 3) = mk 0 0 0
  /\ step 0 TakeSlot (start (mk 0 0 0) 3) = None.
Proof.
  assert (Hreach : reachable 0 (start (mk 0 0 0) 3)).
  { exists (mk 0 0 0), 3, []. split; reflexivity. }
  destruct (queue_without_slots 0 _ (Z.le_refl 0) Hreach) as (_ & Hq & _ & Hs).
  split; [exact Hq|apply Hs].
Defined.

End RequestQueueFacts.

(** ** The Claude client: slots, zero attempts, streams, parameters *)

Section ClaudeClientFacts.

Import Py ClaudeClient.

(** Whatever happens in a call, the queue is as before when it ends. *)
Lemma send_message_queue (cfg : Settings.t) (p : provider)
  (config_model : string) (clk : clock) (request : ClaudeRequest)
  (agent_type : string) (c : t) :
  request_queue (snd (send_message cfg p config_model clk request agent_type c))
  = request_queue c.
Proof.
  unfold send_message.
  destruct (RateLimiter.acquire 2 (at_acquire clk) (rate_limiter c))
    as [slept rl|e slept rl|slept rl|]; simpl; auto.
  unfold RequestQueue.acquire_slot, RequestQueue.sem_acquire. simpl.
  destruct (0 <? RequestQueue.semaphore (request_queue c))%Z; simpl; auto.
  unfold send_message_body.
  destruct (_make_request cfg p config_model request) as [[response|e|] trace];
    simpl; destruct (request_queue c) as [m sem act];
    unfold RequestQueue.sem_release, RequestQueue.leave, RequestQueue.enter;
    simpl; f_equal; lia.
Qed.

Lemma serve_queue (cfg : Settings.t) (calls : list call) :
  forall c, request_queue (snd (serve cfg calls c)) = request_queue c.
Proof.
  induction calls as [|k rest IH]; intro c; [reflexivity|].
  cbn [serve].
  pose proof (send_message_queue cfg (call_provider k) (call_model k)
                (call_clock k) (call_request k) (call_agent_type k) c) as H.
  destruct (send_message cfg (call_provider k) (call_model k) (call_clock k)
              (call_request k) (call_agent_type k) c) as [[o trace] c'].
  specialize (IH c'). destruct (serve cfg rest c') as [os c''].
  simpl in *. congruence.
Qed.

(** X16.  A call of [send_message] gives its slot back however it ends:
    with a response, with an exception of the provider after the last
    retry, or with no attempt made.  After any calls made one after the
    other on a new client, [get_statistics] reports no active request
    and every slot available. *)
Theorem claude_calls_return_their_slot (cfg : Settings.t) :
  (forall p config_model clk request agent_type c,
      request_queue
        (snd (send_message cfg p config_model clk request agent_type c))
      = request_queue c)
  /\ (forall c0 calls,
        init cfg = Normal c0 ->
        let c := snd (serve cfg calls c0) in
        RequestQueue.st_active_requests (s_queue_status (get_statistics c))
        = 0%Z
        /\ RequestQueue.st_available_slots (s_queue_status (get_statistics c))
           = Settings.max_concurrent_requests cfg
        /\ RequestQueue.semaphore (request_queue c)
           = Settings.max_concurrent_requests cfg).
Proof.
  split; [intros; apply send_message_queue|].
  intros c0 calls Hinit. cbv zeta.
  unfold get_statistics, RequestQueue.get_queue_status. simpl.
  rewrite serve_queue.
  unfold init, RequestQueue.init in Hinit.
  destruct (Settings.max_concurrent_requests cfg <? 0)%Z; [discriminate|].
  inversion Hinit; subst c0. simpl. repeat split; lia.
Qed.

Lemma claude_calls_return_their_slot_witness :
  exists c0,
    init Settings.default = Normal c0
    /\ RequestQueue.st_active_requests
         (s_queue_status
            (get_statistics (snd (serve Settings.default one_good_two_bad c0))))
       = 0%Z.
Proof.
  eexists. split; [reflexivity|].
  apply (proj2 (claude_calls_return_their_slot Settings.default)
           _ one_good_two_bad eq_refl).
Defined.

Lemma range_nonpos (n : Z) : (n <= 0)%Z -> range n = [].
Proof.
  intro H. unfold range. replace (Z.to_nat n) with 0 by lia. reflexivity.
Qed.

(** X17.  With [retry_attempts] of zero or less neither client calls its
    provider.  [ClaudeClient._make_request] falls through its loop and
    returns [None], so that [send_message] raises [AttributeError] and
    counts an error; [OpenAIClient.send_message] reaches
    [raise last_error] with [last_error = None] and raises [TypeError]. *)
Theorem no_attempts_allowed (cfg : Settings.t) :
  (Settings.retry_attempts cfg <= 0)%Z ->
  (forall p config_model request,
      _make_request cfg p config_model request = (RFellThrough, []))
  /\ (forall p config_model clk request agent_type c slept rl,
        RateLimiter.acquire 2 (at_acquire clk) (rate_limiter c)
        = RateLimiter.Granted slept rl ->
        (0 < RequestQueue.semaphore (request_queue c))%Z ->
        exists c',
          send_message cfg p config_model clk request agent_type c
          = (Raised (Exn "AttributeError"
                       "'NoneType' object has no attribute 'processing_time'"),
             map Sleep slept, c')
          /\ error_count c' = (error_count c + 1)%Z
          /\ total_requests c' = total_requests c
          /\ rate_limiter c' = rl)
  /\ (forall api elapsed request c,
        OpenAIClient.send_message cfg api elapsed request c
        = (Throw (Exn "TypeError" "exceptions must derive from BaseException"),
           [], c)).
Proof.
  intro Hn. split; [|split].
  - intros. unfold _make_request. now rewrite range_nonpos.
  - intros p config_model clk request agent_type c slept rl Hacq Hfree.
    unfold send_message. rewrite Hacq.
    unfold RequestQueue.acquire_slot, RequestQueue.sem_acquire. simpl.
    apply Z.ltb_lt in Hfree. rewrite Hfree.
    unfold send_message_body, _make_request. rewrite range_nonpos by exact Hn.
    simpl. eexists. split; [rewrite app_nil_r; reflexivity|].
    simpl. repeat split.
  - intros. unfold OpenAIClient.send_message. now rewrite range_nonpos.
Qed.

Lemma no_attempts_allowed_witness :
  _make_request EdgeSettings.no_attempts good_provider "model" a_request
  = (RFellThrough, [])
  /\ OpenAIClient.send_message EdgeSettings.no_attempts
       (Backoff.always_answers OpenAIClient.a_completion) 0
       MultiAIClient.a_request OpenAIClient.init
     = (Throw (Exn "TypeError" "exceptions must derive from BaseException"),
        [], OpenAIClient.init).
Proof.
  assert (Hn : (Settings.retry_attempts EdgeSettings.no_attempts <= 0)%Z)
    by (simpl; lia).
  destruct (no_attempts_allowed EdgeSettings.no_attempts Hn)
    as (Hclaude & _ & Hopenai).
  split; [apply Hclaude|apply Hopenai].
Defined.

(** *** [_stream_request] *)

Lemma stream_loop_eq (chunks : list chunk) :
  forall content_parts input_tokens output_tokens,
    stream_loop chunks content_parts input_tokens output_tokens
    = (content_parts ++ ClaudeStream.delta_texts chunks,
       ClaudeStream.last_input_tokens chunks input_tokens,
       ClaudeStream.last_output_tokens chunks output_tokens).
Proof.
  induction chunks as [|[text|n|n|] chunks IH]; intros parts i o; simpl.
  - now rewrite app_nil_r.
  - rewrite IH, <- app_assoc. reflexivity.
  - apply IH.
  - apply IH.
  - apply IH.
Qed.

(** X18.  The response of a streamed request: its content is the
    concatenation of the texts of the [content_block_delta] chunks in
    their order; the token counts are those of the last [message_start]
    and of the last [message_delta] chunk, zero when there is none, and
    [total_tokens] is their sum; the model is the one that was asked for
    and the role is assistant.  A stream that fails, fails the request. *)
Theorem stream_response_assembled
  (p : provider) (config_model : string) (attempt : Z) :
  match messages_stream p attempt with
  | Normal chunks =>
      exists r,
        _stream_request p config_model attempt = Normal r
        /\ content r = String.concat "" (ClaudeStream.delta_texts chunks)
        /\ dict_get (usage r) "input_tokens" 0
           = ClaudeStream.last_input_tokens chunks 0
        /\ dict_get (usage r) "output_tokens" 0
           = ClaudeStream.last_output_tokens chunks 0
        /\ dict_get (usage r) "total_tokens" 0
           = (ClaudeStream.last_input_tokens chunks 0
              + ClaudeStream.last_output_tokens chunks 0)%Z
        /\ model r = config_model
        /\ role r = "assistant"
  | Throw e => _stream_request p config_model attempt = Throw e
  end.
Proof.
  unfold _stream_request.
  destruct (messages_stream p attempt) as [chunks|e]; [|reflexivity].
  rewrite stream_loop_eq. simpl. eexists. split; [reflexivity|].
  simpl. repeat split.
Qed.

Lemma stream_response_assembled_witness :
  exists r,
    _stream_request
      (mkProvider Backoff.always_fails
         (Backoff.always_answers ClaudeStream.a_stream)) "model" 0
    = Normal r
    /\ content r = "Hello"
    /\ dict_get (usage r) "total_tokens" 0 = 19%Z.
Proof.
  pose proof (stream_response_assembled
                (mkProvider Backoff.always_fails
                   (Backoff.always_answers ClaudeStream.a_stream)) "model" 0)
    as H.
  simpl in H. destruct H as (r & Hr & Hc & _ & _ & Ht & _).
  exists r. split; [exact Hr|]. split; [exact Hc|exact Ht].
Defined.

End ClaudeClientFacts.

Section RequestParamsFacts.

Import Py RequestParams.

Lemma get_agent_config_cases (st : claude_settings) (agent_type : string) :
  let config := get_agent_config st agent_type in
  model config = claude_model st
  /\ timeout config = claude_timeout st
  /\ (max_tokens config = claude_max_tokens st \/ max_tokens config = 8192%Z)
  /\ (temperature config = claude_temperature st
      \/ (0 < temperature config)%Q).
Proof.
  unfold get_agent_config. cbn [AgentPool.dict_lookup].
  repeat match goal with
         | |- context [String.eqb ?k agent_type] =>
             destruct (String.eqb k agent_type)
         end;
    simpl; repeat split; auto; right; reflexivity.
Qed.

(** X19.  The parameters [_make_request] sends.  The model is always the
    configured one, whatever the agent type.  [max_tokens] and
    [temperature] are the request's, unless the request's value is zero:
    then the value configured for the agent type takes its place.  So
    under a configuration with a positive temperature and a token limit
    other than zero, no request is ever sent with temperature zero or
    with [max_tokens] zero.  The empty system prompt is left out like the
    missing one. *)
Theorem request_params_zero_replaced
  (st : claude_settings) (request : ClaudeClient.ClaudeRequest)
  (agent_type : string) :
  let ps := build_params st request agent_type in
  p_model ps = claude_model st
  /\ (ClaudeClient.max_tokens request <> 0%Z ->
      p_max_tokens ps = ClaudeClient.max_tokens request)
  /\ (~ (ClaudeClient.temperature request == 0)%Q ->
      p_temperature ps = ClaudeClient.temperature request)
  /\ ((ClaudeClient.temperature request == 0)%Q ->
      p_temperature ps = temperature (get_agent_config st agent_type))
  /\ (ClaudeClient.max_tokens request = 0%Z ->
      p_max_tokens ps = max_tokens (get_agent_config st agent_type))
  /\ ((0 < claude_temperature st)%Q -> ~ (p_temperature ps == 0)%Q)
  /\ (claude_max_tokens st <> 0%Z -> p_max_tokens ps <> 0%Z)
  /\ p_system ps <> Some ""
  /\ p_messages ps = ClaudeClient.messages request.
Proof.
  destruct (get_agent_config_cases st agent_type) as (Hm & _ & Hmax & Htemp).
  cbv zeta. unfold build_params. cbn [p_model p_max_tokens p_temperature
                                      p_system p_messages].
  unfold or_int, or_float.
  split; [exact Hm|].
  destruct (Z.eqb_spec (ClaudeClient.max_tokens request) 0) as [Ez|Ez];
    (destruct (Qeq_bool (ClaudeClient.temperature request) 0) eqn:Eq;
     [apply Qeq_bool_iff in Eq|apply Qeq_bool_neq in Eq]).
  all: repeat split; try tauto; try congruence.
  all: try (intros Hpos Hzero; destruct Htemp as [Ht|Ht];
            [rewrite Ht in Hzero|]; lra).
  all: try (intros Hnz; destruct Hmax as [Hx|Hx]; rewrite Hx; lia).
  all: try (destruct (ClaudeClient.system request) as [[|ch rest]|];
            simpl; discriminate).
  all: try (intros Hpos Hzero; contradiction).
Qed.

Lemma request_params_zero_replaced_witness :
  p_temperature (build_params default deterministic_request "geometry_agent")
  = (3 # 10)%Q
  /\ p_system (build_params default deterministic_request "geometry_agent")
     = None.
Proof.
  destruct (request_params_zero_replaced default deterministic_request
              "geometry_agent") as (_ & _ & _ & Ht & _).
  split; [|reflexivity].
  rewrite Ht; reflexivity.
Defined.

End RequestParamsFacts.

(** ** The multi-service client: priority list and queries *)

Section MultiAIQueriesFacts.

Import Py AI MultiAIClient MultiAIQueries.

Lemma get_available_services_In (m : t) (s : AIService) :
  In s (get_available_services m) <-> _is_service_available m s = true.
Proof.
  unfold get_available_services, _is_service_available.
  destruct (openai_client m), (claude_client m), s; simpl;
    intuition discriminate.
Qed.

(** How [_determine_service_priority] uses the two settings. *)
Lemma init_priority (cfg : Settings.t) (openai_key claude_key : bool) (m : t) :
  init cfg openai_key claude_key = Normal m ->
  (forall p,
      service_named (Settings.primary_ai_service cfg) = Some p ->
      _is_service_available m p = true ->
      hd_error (service_priority m) = Some p)
  /\ (forall s,
        _is_service_available m s = true ->
        service_named (Settings.primary_ai_service cfg) = Some s
        \/ service_named (Settings.fallback_ai_service cfg) = Some s ->
        In s (service_priority m))
  /\ (forall s,
        In s (service_priority m) ->
        service_named (Settings.primary_ai_service cfg) = Some s
        \/ service_named (Settings.fallback_ai_service cfg) = Some s
        \/ forall p,
             service_named (Settings.primary_ai_service cfg) = Some p
             \/ service_named (Settings.fallback_ai_service cfg) = Some p ->
             _is_service_available m p = false).
Proof.
  unfold init, _determine_service_priority, service_named.
  destruct (String.eqb (Settings.primary_ai_service cfg) "openai") eqn:Epo;
    destruct (String.eqb (Settings.primary_ai_service cfg) "claude") eqn:Epc;
    try (apply String.eqb_eq in Epo; apply String.eqb_eq in Epc;
         rewrite Epo in Epc; discriminate);
    destruct (String.eqb (Settings.fallback_ai_service cfg) "openai") eqn:Efo;
    destruct (String.eqb (Settings.fallback_ai_service cfg) "claude") eqn:Efc;
    try (apply String.eqb_eq in Efo; apply String.eqb_eq in Efc;
         rewrite Efo in Efc; discriminate);
    destruct openai_key, claude_key; simpl;
    destruct (ClaudeClient.init cfg); simpl;
    intro H; inversion H; subst; clear H; simpl;
    (split; [|split]);
    try (intros [] H1 H2; simpl in *; try discriminate; try reflexivity;
         intuition discriminate);
    try (intros [] H1; simpl in *; intuition (try discriminate);
         right; right; intros [] Hp; simpl; intuition (try discriminate)).
Qed.

(** X20.  The priority list of a client that [__init__] built.  It is
    not empty, has no duplicates, and lists only services that have a
    client, all of which [get_available_services] reports.  The service
    named by [primary_ai_service] comes first when it has a client, and a
    service named by either setting is listed when it has a client.  A
    service that neither setting names is listed only when no named
    service has a client: otherwise it is never tried by default, client
    or not.  Without any API key the constructor raises [ValueError]. *)
Theorem service_priority_of_new_client
  (cfg : Settings.t) (openai_key claude_key : bool) (m : t) :
  init cfg openai_key claude_key = Normal m ->
  NoDup (service_priority m)
  /\ service_priority m <> []
  /\ incl (service_priority m) (get_available_services m)
  /\ (forall p,
        service_named (Settings.primary_ai_service cfg) = Some p ->
        _is_service_available m p = true ->
        hd_error (service_priority m) = Some p)
  /\ (forall s,
        _is_service_available m s = true ->
        service_named (Settings.primary_ai_service cfg) = Some s
        \/ service_named (Settings.fallback_ai_service cfg) = Some s ->
        In s (service_priority m))
  /\ (forall s,
        In s (service_priority m) ->
        service_named (Settings.primary_ai_service cfg) = Some s
        \/ service_named (Settings.fallback_ai_service cfg) = Some s
        \/ forall p,
             service_named (Settings.primary_ai_service cfg) = Some p
             \/ service_named (Settings.fallback_ai_service cfg) = Some p ->
             _is_service_available m p = false)
  /\ init cfg false false
     = Throw (Exn "ValueError"
                "No AI service available. Please configure at least one API key.").
Proof.
  intro Hinit.
  destruct (init_well_formed _ _ _ _ Hinit) as (Hnd & Hne & Hav).
  destruct (init_priority _ _ _ _ Hinit) as (Hhd & Hin & Hout).
  split; [exact Hnd|]. split; [exact Hne|]. split.
  - intros s Hs. apply get_available_services_In. now apply Hav.
  - repeat split; auto.
Qed.

Lemma service_priority_of_new_client_witness :
  exists m,
    init Settings.default true true = Normal m
    /\ hd_error (service_priority m) = Some OPENAI
    /\ In CLAUDE (service_priority m).
Proof.
  eexists. split; [reflexivity|].
  match goal with
  | |- hd_error (service_priority ?m) = _ /\ _ =>
      destruct (service_priority_of_new_client Settings.default true true m
                  eq_refl) as (_ & _ & _ & Hhd & Hin & _)
  end.
  split.
  - apply Hhd; reflexivity.
  - apply Hin; [reflexivity|]. right. reflexivity.
Defined.

(** X21.  For a client that [__init__] built,
    [get_optimal_service_for_agent] always answers with a service that
    has a client: the one preferred for the agent type (OpenAI for the
    coordinator, geometry, rigging and integration agents, Claude for the
    material and detail agents) when it has a client, and the first
    service of the priority list otherwise and for every other agent
    type. *)
Theorem optimal_service_is_available
  (cfg : Settings.t) (openai_key claude_key : bool) (m : t)
  (agent_type : string) :
  init cfg openai_key claude_key = Normal m ->
  _is_service_available m (get_optimal_service_for_agent m agent_type) = true
  /\ In (get_optimal_service_for_agent m agent_type) (get_available_services m)
  /\ (forall p,
        AgentPool.dict_lookup service_preferences agent_type = Some p ->
        _is_service_available m p = true ->
        get_optimal_service_for_agent m agent_type = p)
  /\ ((forall p,
         AgentPool.dict_lookup service_preferences agent_type = Some p ->
         _is_service_available m p = false) ->
      hd_error (service_priority m)
      = Some (get_optimal_service_for_agent m agent_type)).
Proof.
  intro Hinit.
  destruct (init_well_formed _ _ _ _ Hinit) as (_ & Hne & Hav).
  assert (Hfirst : hd_error (service_priority m) = Some (first_by_priority m)
                   /\ _is_service_available m (first_by_priority m) = true).
  { unfold first_by_priority.
    destruct (service_priority m) as [|s rest]; [congruence|].
    split; [reflexivity|]. apply Hav. now left. }
  destruct Hfirst as (Hhd & Hfa).
  assert (Hopt : _is_service_available m
                   (get_optimal_service_for_agent m agent_type) = true).
  { unfold get_optimal_service_for_agent.
    destruct (AgentPool.dict_lookup service_preferences agent_type) as [p|];
      [|exact Hfa].
    destruct (_is_service_available m p) eqn:E; [exact E|exact Hfa]. }
  split; [exact Hopt|]. split; [now apply get_available_services_In|].
  unfold get_optimal_service_for_agent. split.
  - intros p -> Hp. now rewrite Hp.
  - intro Hno.
    destruct (AgentPool.dict_lookup service_preferences agent_type) as [p|];
      [|exact Hhd].
    now rewrite (Hno p eq_refl).
Qed.

Lemma optimal_service_is_available_witness :
  exists m,
    init Settings.default false true = Normal m
    /\ get_optimal_service_for_agent m "geometry_agent" = CLAUDE
    /\ _is_service_available m
         (get_optimal_service_for_agent m "geometry_agent") = true.
Proof.
  eexists. split; [reflexivity|]. split; [reflexivity|].
  match goal with
  | |- _is_service_available ?m _ = true =>
      exact (proj1 (optimal_service_is_available Settings.default false true
                      m "geometry_agent" eq_refl))
  end.
Defined.

End MultiAIQueriesFacts.

(** ** The agent: queued tasks are not stranded *)

Section AgentProgress.

Import Py Agent AgentQueries.

Lemma step_attended (ev : event) (a : BaseAgent) o a' :
  step ev a = Some (Normal o, a') -> attended a -> attended a'.
Proof.
  unfold attended. intros Hstep (I1 & I2 & I3).
  destruct ev as [task| |i awaited elapsed| |]; simpl in Hstep.
  - rewrite add_task_eq in Hstep.
    destruct (dependencies_met task a); inversion Hstep; subst; clear Hstep;
      [|auto].
    unfold enqueue. cbn [status current_task task_queue set_task_queue].
    destruct (status_eqb (status a) IDLE) eqn:Es;
      destruct (current_task a) as [cur|] eqn:Ec; cbn [andb is_none];
      cbn [status current_task task_queue in_flight scheduled set_scheduled
           set_task_queue]; rewrite ?Ec.
    + split; [exact I1|]. split; [intros _; apply I2; discriminate|].
      intros _. left. apply I2. discriminate.
    + split; [exact I1|]. split; [congruence|]. intros _. right. lia.
    + assert (Hst : status a <> IDLE).
      { intro E. rewrite E in Es. discriminate. }
      split; [exact I1|]. split; [intros _; now apply I1|].
      intros _. left. now apply I1.
    + assert (Hst : status a <> IDLE).
      { intro E. rewrite E in Es. discriminate. }
      split; [exact I1|]. split; [congruence|]. intros _. left. now apply I1.
  - destruct (scheduled a) as [|n] eqn:En; [discriminate|].
    rewrite process_begin_eq in Hstep.
    cbn [task_queue set_scheduled status] in Hstep.
    destruct (task_queue a) as [|task rest] eqn:Eq.
    + inversion Hstep; subst; clear Hstep.
      cbn [status current_task task_queue in_flight scheduled set_scheduled].
      rewrite Eq. split; [exact I1|]. split; [exact I2|]. congruence.
    + destruct (status_eqb (status a) IDLE) eqn:Es;
        inversion Hstep; subst; clear Hstep;
        cbn [status current_task task_queue in_flight scheduled set_scheduled
             set_status set_current_task set_task_queue set_in_flight].
      * assert (Hne : in_flight a ++ [task] <> []).
        { intro E. now apply app_eq_nil in E as [_ E]. }
        repeat split; auto.
      * assert (Hst : status a <> IDLE).
        { intro E. rewrite E in Es. discriminate. }
        rewrite Eq. split; [exact I1|]. split; [exact I2|].
        intros _. left. now apply I1.
  - destruct (nth_error (in_flight a) i) as [task|]; [|discriminate].
    rewrite process_resume_eq in Hstep. inversion Hstep; subst; clear Hstep.
    destruct (back_to_idle_fields
                (record_outcome task awaited elapsed
                   (set_in_flight (remove_nth i (in_flight a)) a)))
      as (Hs & Hc & Hq & _ & Hsch).
    split; [intro H; now rewrite Hs in H|]. split; [intro H; now rewrite Hc in H|].
    rewrite Hq, Hsch.
    generalize (task_queue
                  (record_outcome task awaited elapsed
                     (set_in_flight (remove_nth i (in_flight a)) a))).
    intros [|x queue] Hne; [congruence|]. right. lia.
  - rewrite pause_eq in Hstep. inversion Hstep; subst; clear Hstep.
    destruct (status_eqb (status a) WORKING) eqn:Es; [|auto].
    apply status_eqb_eq in Es.
    assert (Hfl : in_flight a <> []) by (apply I1; rewrite Es; discriminate).
    simpl. repeat split; auto.
  - rewrite resume_eq in Hstep. inversion Hstep; subst; clear Hstep.
    destruct (status_eqb (status a) PAUSED) eqn:Es; [|auto].
    destruct a as [? st cur queue ? ? ? ? ? sch fl]. simpl in *.
    destruct queue as [|task rest]; simpl.
    + repeat split; auto; congruence.
    + destruct cur as [c|]; simpl.
      * repeat split; try congruence; intros _; [|left]; apply I2; discriminate.
      * repeat split; try congruence. intros _. right. lia.
Qed.

Lemma run_attended (evs : list event) :
  forall a0 log a,
    run evs a0 = Some (log, a) -> attended a0 -> attended a.
Proof.
  induction evs as [|ev evs IH]; intros a0 log a Hrun Hinv; simpl in Hrun.
  - inversion Hrun; subst. exact Hinv.
  - destruct (step ev a0) as [[[o|e] a1]|] eqn:Estep; try discriminate.
    destruct (run evs a1) as [[log1 a2]|] eqn:Erun; [|discriminate].
    inversion Hrun; subst.
    eapply IH; [exact Erun|]. eapply step_attended; eassumption.
Qed.

(** X22.  No queued task is stranded.  In every state an agent reaches,
    whatever the order of [add_task], [pause], [resume] and of the
    coroutines: an agent that is not IDLE, or that has a [current_task],
    has a [_process_task] in flight; and while the queue is not empty, a
    [_process_task] is in flight, whose end schedules the next round, or
    a [_process_next_task] is scheduled.  When nothing is in flight, the
    scheduled [_process_next_task] takes the head of the queue and makes
    it the [current_task] of a WORKING agent. *)
Theorem queued_task_is_never_stranded (a : BaseAgent) :
  reachable a ->
  attended a
  /\ (forall task rest,
        task_queue a = task :: rest ->
        in_flight a = [] ->
        exists a',
          step ProcessStart a = Some (Normal (Dequeued (Some task)), a')
          /\ status a' = WORKING
          /\ current_task a' = Some task
          /\ task_queue a' = rest
          /\ in_flight a' = [task])
  /\ (forall i task awaited elapsed,
        nth_error (in_flight a) i = Some task ->
        task_queue a <> [] ->
        exists a',
          step (ProcessFinish i awaited elapsed) a
          = Some (Normal (Finished task), a')
          /\ 0 < scheduled a').
Proof.
  intros (id & evs & log & Hrun).
  assert (Hinv : attended a).
  { eapply run_attended; [exact Hrun|].
    unfold attended. simpl. repeat split; congruence. }
  split; [exact Hinv|]. destruct Hinv as (I1 & I2 & I3). split.
  - intros task rest Hq Hfl.
    assert (Hst : status a = IDLE).
    { destruct (status a) eqn:E; try reflexivity;
        (exfalso; apply I1; [discriminate|exact Hfl]). }
    assert (Hsch : 0 < scheduled a).
    { destruct I3 as [H|H]; [rewrite Hq; discriminate|contradiction|exact H]. }
    simpl. destruct (scheduled a) as [|n]; [lia|].
    rewrite process_begin_eq. cbn [task_queue set_scheduled status].
    rewrite Hq, Hst. simpl. eexists. split; [reflexivity|].
    simpl. rewrite Hfl. repeat split.
  - intros i task awaited elapsed Hi Hq. simpl. rewrite Hi.
    rewrite process_resume_eq. eexists. split; [reflexivity|].
    destruct (back_to_idle_fields
                (record_outcome task awaited elapsed
                   (set_in_flight (remove_nth i (in_flight a)) a)))
      as (_ & _ & _ & _ & Hsch).
    rewrite Hsch.
    destruct (record_outcome_frame task awaited elapsed
                (set_in_flight (remove_nth i (in_flight a)) a))
      as (_ & _ & _ & Hq' & _).
    rewrite Hq'. simpl. destruct (task_queue a); [congruence|]. lia.
Qed.

Lemma queued_task_is_never_stranded_witness :
  exists log a,
    run [AddTask (a_task "t" MEDIUM [])] (Agent.init "agent") = Some (log, a)
    /\ attended a.
Proof.
  assert (Hrun : exists log a,
             run [AddTask (a_task "t" MEDIUM [])] (Agent.init "agent")
             = Some (log, a))
    by (eexists; eexists; vm_compute; reflexivity).
  destruct Hrun as (log & a & Hrun).
  exists log, a. split; [exact Hrun|].
  apply queued_task_is_never_stranded.
  exists "agent", [AddTask (a_task "t" MEDIUM [])], log. exact Hrun.
Defined.

End AgentProgress.
